(** * The Dart bridge dispatch protocol of [bridge/exports.go] and
      [bridge/QUICK_REFERENCE.go]

    A shallow embedding of the exported dispatch functions together with the
    parts of Go's [unicode/utf8], [strconv] and [encoding/json] packages they
    run through, followed by the properties of the bridge.

    Conventions.
    - A Go [string] (and a [[]byte]) is a Rocq [string]: a sequence of
      8-bit bytes ([ascii]), with no assumption of valid UTF-8.
    - Go's [int], [int64], [rune] and [C.longlong] values are [Z]; range
      conditions are written out where the code depends on them.
    - A Go [*T] that is only read through is an [option T] ([None] is [nil]).
    - [err != nil] is a sum or an [option] carrying the error value. *)

From Stdlib Require Import ZArith List String Ascii Bool Lia.
Import ListNotations.
Open Scope string_scope.
Open Scope Z_scope.
Set Warnings "-register-all".

(** ** Bytes *)

Definition byte_val (c : ascii) : Z := Z.of_N (N_of_ascii c).

(** [byte(x)]: conversion to an 8-bit value keeps the low eight bits. *)
Definition byte_of (z : Z) : ascii := ascii_of_N (Z.to_N (z mod 256)).

Definition in_range (lo hi c : ascii) : bool :=
  (byte_val lo <=? byte_val c) && (byte_val c <=? byte_val hi).

(** The double quote character. *)
Definition dquote : ascii := "034"%char.

Definition str1 (c : ascii) : string := String c EmptyString.

(** Writing aid for JSON texts: every apostrophe of [s] stands for a double
    quote. *)
Fixpoint sq (s : string) : string :=
  match s with
  | EmptyString => EmptyString
  | String c t => String (if (c =? "'")%char then dquote else c) (sq t)
  end.

(** [s[n:]] for [n <= len(s)]. *)
Fixpoint string_drop (n : nat) (s : string) : string :=
  match n, s with
  | O, _ => s
  | S k, EmptyString => EmptyString
  | S k, String _ t => string_drop k t
  end.

(** [s[:n]] for [n <= len(s)]. *)
Fixpoint string_take (n : nat) (s : string) : string :=
  match n, s with
  | O, _ => EmptyString
  | S k, EmptyString => EmptyString
  | S k, String c t => String c (string_take k t)
  end.

(** ** Package [unicode/utf8] *)

Module utf8.

Definition RuneError : Z := 0xFFFD.
Definition RuneSelf : Z := 0x80.
Definition MaxRune : Z := 0x10FFFF.
Definition UTFMax : Z := 4.

Definition surrogateMin : Z := 0xD800.
Definition surrogateMax : Z := 0xDFFF.

Definition tx : Z := 0x80.
Definition t2 : Z := 0xC0.
Definition t3 : Z := 0xE0.
Definition t4 : Z := 0xF0.

Definition maskx : Z := 0x3F.
Definition mask2 : Z := 0x1F.
Definition mask3 : Z := 0x0F.
Definition mask4 : Z := 0x07.

Definition rune1Max : Z := 0x7F.
Definition rune2Max : Z := 0x7FF.
Definition rune3Max : Z := 0xFFFF.

Definition locb : Z := 0x80.
Definition hicb : Z := 0xBF.

(** Information about the first byte of an encoding: the low three bits are
    the length, the high four bits index [acceptRanges]. *)
Definition xx : Z := 0xF1.
Definition as_ : Z := 0xF0.
Definition s1 : Z := 0x02.
Definition s2 : Z := 0x13.
Definition s3 : Z := 0x03.
Definition s4 : Z := 0x23.
Definition s5 : Z := 0x34.
Definition s6 : Z := 0x04.
Definition s7 : Z := 0x44.

(** The table [first[256]], by ranges of the index. *)
Definition first (b : Z) : Z :=
  if b <? 0x80 then as_
  else if b <? 0xC2 then xx
  else if b <? 0xE0 then s1
  else if b =? 0xE0 then s2
  else if b <? 0xED then s3
  else if b =? 0xED then s4
  else if b <? 0xF0 then s3
  else if b =? 0xF0 then s5
  else if b <? 0xF4 then s6
  else if b =? 0xF4 then s7
  else xx.

(** The table [acceptRanges[16]]: entries 5..15 are zero. *)
Definition acceptRanges (i : Z) : Z * Z :=
  match i with
  | 0 => (locb, hicb)
  | 1 => (0xA0, hicb)
  | 2 => (locb, 0x9F)
  | 3 => (0x90, hicb)
  | 4 => (locb, 0x8F)
  | _ => (0, 0)
  end.

(** [DecodeRune(p)] / [DecodeRuneInString(s)]: the first rune of [p] and its
    width in bytes; [(RuneError, 1)] for an invalid encoding and
    [(RuneError, 0)] for the empty input. *)
Definition DecodeRune (p : string) : Z * Z :=
  match p with
  | EmptyString => (RuneError, 0)
  | String c0 p1 =>
    let p0 := byte_val c0 in
    let x := first p0 in
    if as_ <=? x then
      (* mask := rune(x) << 31 >> 31; rune(p[0])&^mask | RuneError&mask *)
      ((if Z.testbit x 0 then RuneError else p0), 1)
    else
      let sz := Z.land x 7 in
      let accept := acceptRanges (Z.shiftr x 4) in
      if Z.of_nat (String.length p) <? sz then (RuneError, 1) else
      match p1 with
      | EmptyString => (RuneError, 1)
      | String c1 p2 =>
        let b1 := byte_val c1 in
        if (b1 <? fst accept) || (snd accept <? b1) then (RuneError, 1) else
        if sz <=? 2 then
          (Z.lor (Z.shiftl (Z.land p0 mask2) 6) (Z.land b1 maskx), 2)
        else
        match p2 with
        | EmptyString => (RuneError, 1)
        | String c2 p3 =>
          let b2 := byte_val c2 in
          if (b2 <? locb) || (hicb <? b2) then (RuneError, 1) else
          if sz <=? 3 then
            (Z.lor (Z.lor (Z.shiftl (Z.land p0 mask3) 12)
                          (Z.shiftl (Z.land b1 maskx) 6))
                   (Z.land b2 maskx), 3)
          else
          match p3 with
          | EmptyString => (RuneError, 1)
          | String c3 _ =>
            let b3 := byte_val c3 in
            if (b3 <? locb) || (hicb <? b3) then (RuneError, 1) else
            (Z.lor (Z.lor (Z.lor (Z.shiftl (Z.land p0 mask4) 18)
                                 (Z.shiftl (Z.land b1 maskx) 12))
                          (Z.shiftl (Z.land b2 maskx) 6))
                   (Z.land b3 maskx), 4)
          end
        end
      end
  end.

Definition encode3 (r : Z) : string :=
  String (byte_of (Z.lor t3 (byte_val (byte_of (Z.shiftr r 12)))))
  (String (byte_of (Z.lor tx (Z.land (byte_val (byte_of (Z.shiftr r 6))) maskx)))
  (String (byte_of (Z.lor tx (Z.land (byte_val (byte_of r)) maskx)))
   EmptyString)).

(** [EncodeRune(p, r)] / [AppendRune(nil, r)]: the bytes written. *)
Definition EncodeRune (r : Z) : string :=
  let i := r mod 2 ^ 32 in  (* uint32(r) *)
  if i <=? rune1Max then str1 (byte_of r)
  else if i <=? rune2Max then
    String (byte_of (Z.lor t2 (byte_val (byte_of (Z.shiftr r 6)))))
    (String (byte_of (Z.lor tx (Z.land (byte_val (byte_of r)) maskx)))
     EmptyString)
  else if (MaxRune <? i) || ((surrogateMin <=? i) && (i <=? surrogateMax)) then
    encode3 RuneError
  else if i <=? rune3Max then encode3 r
  else
    String (byte_of (Z.lor t4 (byte_val (byte_of (Z.shiftr r 18)))))
    (String (byte_of (Z.lor tx (Z.land (byte_val (byte_of (Z.shiftr r 12))) maskx)))
    (String (byte_of (Z.lor tx (Z.land (byte_val (byte_of (Z.shiftr r 6))) maskx)))
    (String (byte_of (Z.lor tx (Z.land (byte_val (byte_of r)) maskx)))
     EmptyString))).

(** [ValidString(s)], with [skip] the number of continuation bytes of the
    current rune still to be passed over. *)
Fixpoint valid_from (skip : nat) (s : string) : bool :=
  match s with
  | EmptyString => true
  | String _ t =>
    match skip with
    | S k => valid_from k t
    | O =>
      let '(r, size) := DecodeRune s in
      if (r =? RuneError) && (size =? 1) then false
      else valid_from (Z.to_nat size - 1) t
    end
  end.

Definition ValidString (s : string) : bool := valid_from 0 s.

End utf8.

(** ** Package [unicode/utf16] *)

Module utf16.

Definition surr1 : Z := 0xd800.
Definition surr2 : Z := 0xdc00.
Definition surr3 : Z := 0xe000.
Definition surrSelf : Z := 0x10000.
Definition replacementChar : Z := 0xFFFD.

Definition IsSurrogate (r : Z) : bool := (surr1 <=? r) && (r <? surr3).

Definition DecodeRune (r1 r2 : Z) : Z :=
  if (surr1 <=? r1) && (r1 <? surr2) && (surr2 <=? r2) && (r2 <? surr3)
  then Z.lor (Z.shiftl (r1 - surr1) 10) (r2 - surr2) + surrSelf
  else replacementChar.

End utf16.

(** ** Package [strconv] *)

Module strconv.

Inductive NumError := ErrSyntax | ErrRange.

Definition digit (d : Z) : ascii := byte_of (48 + d).

(** [formatBits] in base 10 on a non-negative value: most significant digit
    first.  A 64-bit value has at most 20 decimal digits. *)
Fixpoint formatBits (fuel : nat) (u : Z) : string :=
  match fuel with
  | O => EmptyString
  | S f =>
    if u <? 10 then str1 (digit u)
    else formatBits f (u / 10) ++ str1 (digit (u mod 10))
  end.

(** [FormatInt(i, 10)] / [AppendInt(nil, i, 10)]. *)
Definition FormatInt (i : Z) : string :=
  if i <? 0 then String "-" (formatBits 20 (- i)) else formatBits 20 i.

Definition maxUint64 : Z := 2 ^ 64 - 1.

Fixpoint parseUint_loop (s : string) (n : Z) : Z + NumError :=
  match s with
  | EmptyString => inl n
  | String c t =>
    if in_range "0" "9" c then
      let n1 := n * 10 + (byte_val c - 48) in
      if maxUint64 <? n1 then inr ErrRange else parseUint_loop t n1
    else inr ErrSyntax
  end.

(** [ParseUint(s, 10, 64)]. *)
Definition ParseUint (s : string) : Z + NumError :=
  match s with
  | EmptyString => inr ErrSyntax
  | _ => parseUint_loop s 0
  end.

(** [ParseInt(s, 10, 64)]. *)
Definition ParseInt (s : string) : Z + NumError :=
  match s with
  | EmptyString => inr ErrSyntax
  | String c t =>
    let '(neg, s') :=
      if (c =? "+")%char then (false, t)
      else if (c =? "-")%char then (true, t)
      else (false, s) in
    match ParseUint s' with
    | inr ErrSyntax => inr ErrSyntax
    | inr ErrRange => inr ErrRange
    | inl un =>
      let cutoff := 2 ^ 63 in
      if negb neg && (cutoff <=? un) then inr ErrRange
      else if neg && (cutoff <? un) then inr ErrRange
      else inl (if neg then - un else un)
    end
  end.

(** [IsPrint] on the runes 0..255, the only ones [json.quoteChar] asks about. *)
Definition IsPrint_latin1 (r : Z) : bool :=
  if (0x20 <=? r) && (r <=? 0x7E) then true
  else if (0xA1 <=? r) && (r <=? 0xFF) then negb (r =? 0xAD)
  else false.

Definition lowerhex (d : Z) : ascii :=
  if d <? 10 then byte_of (48 + d) else byte_of (97 + d - 10).

(** The body of [Quote(string(rune(c)))] between its quotation marks, for
    a rune [c] in 0..255. *)
Definition quote_body_latin1 (c : Z) : string :=
  if c =? 34 then "\" ++ str1 dquote
  else if c =? 92 then "\\"
  else if IsPrint_latin1 c then utf8.EncodeRune c
  else if c =? 7 then "\a"
  else if c =? 8 then "\b"
  else if c =? 12 then "\f"
  else if c =? 10 then "\n"
  else if c =? 13 then "\r"
  else if c =? 9 then "\t"
  else if c =? 11 then "\v"
  else if (c <? 0x20) || (c =? 0x7F) then
    "\x" ++ str1 (lowerhex (Z.shiftr c 4)) ++ str1 (lowerhex (Z.land c 0xF))
  else
    "\u00" ++ str1 (lowerhex (Z.shiftr c 4)) ++ str1 (lowerhex (Z.land c 0xF)).

End strconv.

(** ** Package [encoding/json]: the scanner ([scanner.go]) *)

Module json.

(** The result codes of one scanner step. *)
Inductive opcode :=
| scanContinue | scanBeginLiteral | scanBeginObject | scanObjectKey
| scanObjectValue | scanEndObject | scanBeginArray | scanArrayValue
| scanEndArray | scanSkipSpace | scanEnd | scanError.

Inductive parseState := parseObjectKey | parseObjectValue | parseArrayValue.

(** The scanner's [step] field holds one of these functions. *)
Inductive stepFn :=
| stateBeginValueOrEmpty | stateBeginValue | stateBeginStringOrEmpty
| stateBeginString | stateEndValue | stateEndTop
| stateInString | stateInStringEsc | stateInStringEscU | stateInStringEscU1
| stateInStringEscU12 | stateInStringEscU123
| stateNeg | state1 | state0 | stateDot | stateDot0 | stateE | stateESign
| stateE0
| stateT | stateTr | stateTru | stateF | stateFa | stateFal | stateFals
| stateN | stateNu | stateNul
| stateError.

Record SyntaxError := { msg : string; Offset : Z }.

(** The scanner.  [parseStack] is the [parseState] slice with its last
    element first. *)
Record scanner := {
  step : stepFn;
  endTop : bool;
  parseStack : list parseState;
  err : option SyntaxError;
  bytes : Z
}.

Definition maxNestingDepth : Z := 10000.

Definition reset (s : scanner) : scanner :=
  {| step := stateBeginValue; endTop := false; parseStack := [];
     err := None; bytes := bytes s |}.

Definition set_step (s : scanner) (f : stepFn) : scanner :=
  {| step := f; endTop := endTop s; parseStack := parseStack s;
     err := err s; bytes := bytes s |}.

Definition set_stack (s : scanner) (ps : list parseState) : scanner :=
  {| step := step s; endTop := endTop s; parseStack := ps;
     err := err s; bytes := bytes s |}.

Definition quoteChar (c : ascii) : string :=
  if (c =? "'")%char then "'\''"
  else if (c =? dquote)%char then "'" ++ str1 dquote ++ "'"
  else "'" ++ strconv.quote_body_latin1 (byte_val c) ++ "'".

(** [s.error(c, context)] *)
Definition scanner_error (s : scanner) (c : ascii) (context : string)
  : scanner * opcode :=
  ({| step := stateError; endTop := endTop s; parseStack := parseStack s;
      err := Some {| msg := "invalid character " ++ quoteChar c ++ " " ++ context;
                     Offset := bytes s |};
      bytes := bytes s |}, scanError).

Definition pushParseState (s : scanner) (c : ascii) (newParseState : parseState)
  (successState : opcode) : scanner * opcode :=
  let s := set_stack s (newParseState :: parseStack s) in
  if Z.of_nat (List.length (parseStack s)) <=? maxNestingDepth
  then (s, successState)
  else scanner_error s c "exceeded max depth".

Definition popParseState (s : scanner) : scanner :=
  let ps := List.tl (parseStack s) in
  match ps with
  | [] => {| step := stateEndTop; endTop := true; parseStack := ps;
             err := err s; bytes := bytes s |}
  | _ => {| step := stateEndValue; endTop := endTop s; parseStack := ps;
            err := err s; bytes := bytes s |}
  end.

Definition isSpace (c : ascii) : bool :=
  (byte_val c <=? 32) &&
  ((c =? " ")%char || (byte_val c =? 9) || (byte_val c =? 13) || (byte_val c =? 10)).

Definition isDigit (c : ascii) : bool := in_range "0" "9" c.

Definition isHex (c : ascii) : bool :=
  in_range "0" "9" c || in_range "a" "f" c || in_range "A" "F" c.

Definition run_stateEndTop (s : scanner) (c : ascii) : scanner * opcode :=
  if negb (isSpace c) then
    (* Complain about non-space byte on next call. *)
    (fst (scanner_error s c "after top-level value"), scanEnd)
  else (s, scanEnd).

Definition run_stateEndValue (s : scanner) (c : ascii) : scanner * opcode :=
  match parseStack s with
  | [] =>
    (* Completed top-level before the current byte. *)
    run_stateEndTop
      {| step := stateEndTop; endTop := true; parseStack := [];
         err := err s; bytes := bytes s |} c
  | ps :: rest =>
    if isSpace c then (set_step s stateEndValue, scanSkipSpace)
    else
      match ps with
      | parseObjectKey =>
        if (c =? ":")%char then
          (set_step (set_stack s (parseObjectValue :: rest)) stateBeginValue,
           scanObjectKey)
        else scanner_error s c "after object key"
      | parseObjectValue =>
        if (c =? ",")%char then
          (set_step (set_stack s (parseObjectKey :: rest)) stateBeginString,
           scanObjectValue)
        else if (c =? "}")%char then (popParseState s, scanEndObject)
        else scanner_error s c "after object key:value pair"
      | parseArrayValue =>
        if (c =? ",")%char then (set_step s stateBeginValue, scanArrayValue)
        else if (c =? "]")%char then (popParseState s, scanEndArray)
        else scanner_error s c "after array element"
      end
  end.

Definition run_stateBeginValue (s : scanner) (c : ascii) : scanner * opcode :=
  if isSpace c then (s, scanSkipSpace)
  else if (c =? "{")%char then
    pushParseState (set_step s stateBeginStringOrEmpty) c parseObjectKey scanBeginObject
  else if (c =? "[")%char then
    pushParseState (set_step s stateBeginValueOrEmpty) c parseArrayValue scanBeginArray
  else if (c =? dquote)%char then (set_step s stateInString, scanBeginLiteral)
  else if (c =? "-")%char then (set_step s stateNeg, scanBeginLiteral)
  else if (c =? "0")%char then (set_step s state0, scanBeginLiteral)
  else if (c =? "t")%char then (set_step s stateT, scanBeginLiteral)
  else if (c =? "f")%char then (set_step s stateF, scanBeginLiteral)
  else if (c =? "n")%char then (set_step s stateN, scanBeginLiteral)
  else if in_range "1" "9" c then (set_step s state1, scanBeginLiteral)
  else scanner_error s c "looking for beginning of value".

Definition run_stateBeginValueOrEmpty (s : scanner) (c : ascii) : scanner * opcode :=
  if isSpace c then (s, scanSkipSpace)
  else if (c =? "]")%char then run_stateEndValue s c
  else run_stateBeginValue s c.

Definition run_stateBeginString (s : scanner) (c : ascii) : scanner * opcode :=
  if isSpace c then (s, scanSkipSpace)
  else if (c =? dquote)%char then (set_step s stateInString, scanBeginLiteral)
  else scanner_error s c "looking for beginning of object key string".

Definition run_stateBeginStringOrEmpty (s : scanner) (c : ascii) : scanner * opcode :=
  if isSpace c then (s, scanSkipSpace)
  else if (c =? "}")%char then
    run_stateEndValue (set_stack s (parseObjectValue :: List.tl (parseStack s))) c
  else run_stateBeginString s c.

Definition run_stateInString (s : scanner) (c : ascii) : scanner * opcode :=
  if (c =? dquote)%char then (set_step s stateEndValue, scanContinue)
  else if (c =? "\")%char then (set_step s stateInStringEsc, scanContinue)
  else if byte_val c <? 0x20 then scanner_error s c "in string literal"
  else (s, scanContinue).

Definition run_stateInStringEsc (s : scanner) (c : ascii) : scanner * opcode :=
  if (c =? "b")%char || (c =? "f")%char || (c =? "n")%char || (c =? "r")%char
     || (c =? "t")%char || (c =? "\")%char || (c =? "/")%char || (c =? dquote)%char
  then (set_step s stateInString, scanContinue)
  else if (c =? "u")%char then (set_step s stateInStringEscU, scanContinue)
  else scanner_error s c "in string escape code".

Definition run_hex (next : stepFn) (s : scanner) (c : ascii) : scanner * opcode :=
  if isHex c then (set_step s next, scanContinue)
  else scanner_error s c "in \u hexadecimal character escape".

Definition run_stateE0 (s : scanner) (c : ascii) : scanner * opcode :=
  if isDigit c then (s, scanContinue) else run_stateEndValue s c.

Definition run_stateESign (s : scanner) (c : ascii) : scanner * opcode :=
  if isDigit c then (set_step s stateE0, scanContinue)
  else scanner_error s c "in exponent of numeric literal".

Definition run_stateE (s : scanner) (c : ascii) : scanner * opcode :=
  if (c =? "+")%char || (c =? "-")%char then (set_step s stateESign, scanContinue)
  else run_stateESign s c.

Definition run_stateDot0 (s : scanner) (c : ascii) : scanner * opcode :=
  if isDigit c then (s, scanContinue)
  else if (c =? "e")%char || (c =? "E")%char then (set_step s stateE, scanContinue)
  else run_stateEndValue s c.

Definition run_stateDot (s : scanner) (c : ascii) : scanner * opcode :=
  if isDigit c then (set_step s stateDot0, scanContinue)
  else scanner_error s c "after decimal point in numeric literal".

Definition run_state0 (s : scanner) (c : ascii) : scanner * opcode :=
  if (c =? ".")%char then (set_step s stateDot, scanContinue)
  else if (c =? "e")%char || (c =? "E")%char then (set_step s stateE, scanContinue)
  else run_stateEndValue s c.

Definition run_state1 (s : scanner) (c : ascii) : scanner * opcode :=
  if isDigit c then (set_step s state1, scanContinue) else run_state0 s c.

Definition run_stateNeg (s : scanner) (c : ascii) : scanner * opcode :=
  if (c =? "0")%char then (set_step s state0, scanContinue)
  else if in_range "1" "9" c then (set_step s state1, scanContinue)
  else scanner_error s c "in numeric literal".

(** The states inside [true], [false] and [null]: the expected byte leads
    to [next], any other byte is an error in [context]. *)
Definition run_literal (expect : ascii) (next : stepFn) (context : string)
  (s : scanner) (c : ascii) : scanner * opcode :=
  if (c =? expect)%char then (set_step s next, scanContinue)
  else scanner_error s c context.

(** [s.step(s, c)] *)
Definition run_step (s : scanner) (c : ascii) : scanner * opcode :=
  match step s with
  | stateBeginValueOrEmpty => run_stateBeginValueOrEmpty s c
  | stateBeginValue => run_stateBeginValue s c
  | stateBeginStringOrEmpty => run_stateBeginStringOrEmpty s c
  | stateBeginString => run_stateBeginString s c
  | stateEndValue => run_stateEndValue s c
  | stateEndTop => run_stateEndTop s c
  | stateInString => run_stateInString s c
  | stateInStringEsc => run_stateInStringEsc s c
  | stateInStringEscU => run_hex stateInStringEscU1 s c
  | stateInStringEscU1 => run_hex stateInStringEscU12 s c
  | stateInStringEscU12 => run_hex stateInStringEscU123 s c
  | stateInStringEscU123 => run_hex stateInString s c
  | stateNeg => run_stateNeg s c
  | state1 => run_state1 s c
  | state0 => run_state0 s c
  | stateDot => run_stateDot s c
  | stateDot0 => run_stateDot0 s c
  | stateE => run_stateE s c
  | stateESign => run_stateESign s c
  | stateE0 => run_stateE0 s c
  | stateT => run_literal "r" stateTr "in literal true (expecting 'r')" s c
  | stateTr => run_literal "u" stateTru "in literal true (expecting 'u')" s c
  | stateTru => run_literal "e" stateEndValue "in literal true (expecting 'e')" s c
  | stateF => run_literal "a" stateFa "in literal false (expecting 'a')" s c
  | stateFa => run_literal "l" stateFal "in literal false (expecting 'l')" s c
  | stateFal => run_literal "s" stateFals "in literal false (expecting 's')" s c
  | stateFals => run_literal "e" stateEndValue "in literal false (expecting 'e')" s c
  | stateN => run_literal "u" stateNu "in literal null (expecting 'u')" s c
  | stateNu => run_literal "l" stateNul "in literal null (expecting 'l')" s c
  | stateNul => run_literal "l" stateEndValue "in literal null (expecting 'l')" s c
  | stateError => (s, scanError)
  end.

Definition count_byte (s : scanner) : scanner :=
  {| step := step s; endTop := endTop s; parseStack := parseStack s;
     err := err s; bytes := bytes s + 1 |}.

(** [s.eof()]: the error, if the input cannot end here. *)
Definition eof (s : scanner) : option SyntaxError :=
  match err s with
  | Some e => Some e
  | None =>
    if endTop s then None
    else
      let s' := fst (run_step s " ") in
      if endTop s' then None
      else match err s' with
           | Some e => Some e
           | None => Some {| msg := "unexpected end of JSON input";
                             Offset := bytes s |}
           end
  end.

(** The loop of [checkValid]: one step per byte, stopping at the first
    error. *)
Fixpoint checkValid_loop (data : string) (scan : scanner) : option SyntaxError :=
  match data with
  | EmptyString => eof scan
  | String c rest =>
    let '(scan', op) := run_step (count_byte scan) c in
    match op with
    | scanError => err scan'
    | _ => checkValid_loop rest scan'
    end
  end.

Definition new_scanner : scanner :=
  {| step := stateBeginValue; endTop := false; parseStack := [];
     err := None; bytes := 0 |}.

(** [checkValid(data, scan)]: [None] is a nil error. *)
Definition checkValid (data : string) : option SyntaxError :=
  checkValid_loop data new_scanner.

(** *** Encoding of strings ([encode.go]) *)

Definition hex (d : Z) : ascii := strconv.lowerhex d.

(** [htmlSafeSet] and [safeSet], on a byte below [utf8.RuneSelf]. *)
Definition safeSet (b : ascii) : bool :=
  (0x20 <=? byte_val b) && negb (b =? dquote)%char && negb (b =? "\")%char.

Definition htmlSafeSet (b : ascii) : bool :=
  safeSet b && negb (b =? "<")%char && negb (b =? ">")%char && negb (b =? "&")%char.

(** What [appendString] writes for an ASCII byte outside the safe set. *)
Definition escape_byte (b : ascii) : string :=
  if (b =? "\")%char || (b =? dquote)%char then String "\" (str1 b)
  else if byte_val b =? 8 then "\b"
  else if byte_val b =? 12 then "\f"
  else if byte_val b =? 10 then "\n"
  else if byte_val b =? 13 then "\r"
  else if byte_val b =? 9 then "\t"
  else
    (* bytes < 0x20 other than the above and, with escapeHTML, <, > and & *)
    "\u00" ++ str1 (hex (Z.shiftr (byte_val b) 4))
           ++ str1 (hex (Z.land (byte_val b) 0xF)).

(** The loop of [appendString] between the quotation marks.  [skip] counts
    the remaining bytes of a rune the loop has already decided on, and
    [copy] tells whether they are copied to the output (a rune kept as it
    is) or were replaced (U+2028 and U+2029). *)
Fixpoint appendString_loop (escapeHTML : bool) (skip : nat) (copy : bool)
  (src : string) : string :=
  match src with
  | EmptyString => EmptyString
  | String b rest =>
    match skip with
    | S k =>
      if copy then String b (appendString_loop escapeHTML k copy rest)
      else appendString_loop escapeHTML k copy rest
    | O =>
      if byte_val b <? utf8.RuneSelf then
        if htmlSafeSet b || (negb escapeHTML && safeSet b)
        then String b (appendString_loop escapeHTML 0 true rest)
        else escape_byte b ++ appendString_loop escapeHTML 0 true rest
      else
        let '(c, size) := utf8.DecodeRune (string_take 4 src) in
        if (c =? utf8.RuneError) && (size =? 1) then
          "\ufffd" ++ appendString_loop escapeHTML 0 true rest
        else if (c =? 0x2028) || (c =? 0x2029) then
          "\u202" ++ str1 (hex (Z.land c 0xF))
                  ++ appendString_loop escapeHTML (Z.to_nat size - 1) false rest
        else
          String b (appendString_loop escapeHTML (Z.to_nat size - 1) true rest)
    end
  end.

(** [appendString] is that of [encode.go] as it was before the package was
    implemented on [encoding/json/v2].  For a byte that is not valid UTF-8
    it writes the escape [\ufffd]; the later implementation writes the
    three bytes of U+FFFD themselves.  The two texts decode to the same
    string, and the properties fix the bytes of what the encoder writes
    only for strings that are valid UTF-8. *)
Definition appendString (src : string) (escapeHTML : bool) : string :=
  String dquote (appendString_loop escapeHTML 0 true src ++ str1 dquote).

(** *** Decoding of string literals ([decode.go]) *)

Definition hexval (c : ascii) : option Z :=
  if in_range "0" "9" c then Some (byte_val c - 48)
  else if in_range "a" "f" c then Some (byte_val c - 97 + 10)
  else if in_range "A" "F" c then Some (byte_val c - 65 + 10)
  else None.

Fixpoint getu4_digits (n : nat) (s : string) (r : Z) : Z :=
  match n with
  | O => r
  | S k =>
    match s with
    | EmptyString => -1
    | String c t =>
      match hexval c with
      | Some d => getu4_digits k t (r * 16 + d)
      | None => -1
      end
    end
  end.

(** [getu4(s)]: the rune of a leading [\uXXXX], or -1. *)
Definition getu4 (s : string) : Z :=
  match s with
  | String c0 (String c1 t) =>
    if Z.of_nat (String.length s) <? 6 then -1
    else if negb (c0 =? "\")%char || negb (c1 =? "u")%char then -1
    else getu4_digits 4 t 0
  | _ => -1
  end.

(** The first loop of [unquoteBytes]: the length of the longest prefix with
    no quote, backslash, control character or invalid UTF-8. *)
Fixpoint unquote_plain (skip : nat) (s : string) : nat :=
  match s with
  | EmptyString => O
  | String c t =>
    match skip with
    | S k => S (unquote_plain k t)
    | O =>
      if (c =? "\")%char || (c =? dquote)%char || (byte_val c <? 32) then O
      else if byte_val c <? utf8.RuneSelf then S (unquote_plain 0 t)
      else
        let '(rr, size) := utf8.DecodeRune s in
        if (rr =? utf8.RuneError) && (size =? 1) then O
        else S (unquote_plain (Z.to_nat size - 1) t)
    end
  end.

Definition prepend (p : string) (r : option string) : option string :=
  match r with
  | Some t => Some (p ++ t)
  | None => None
  end.

(** The second loop of [unquoteBytes]; [None] is [ok = false].  [skip]
    counts input bytes already consumed by the current iteration. *)
Fixpoint unquote_loop (skip : nat) (s : string) : option string :=
  match s with
  | EmptyString => Some EmptyString
  | String c t =>
    match skip with
    | S k => unquote_loop k t
    | O =>
      if (c =? "\")%char then
        match t with
        | EmptyString => None
        | String e _ =>
          if (e =? dquote)%char || (e =? "\")%char || (e =? "/")%char
             || (e =? "'")%char
          then prepend (str1 e) (unquote_loop 1 t)
          else if (e =? "b")%char then prepend (str1 (byte_of 8)) (unquote_loop 1 t)
          else if (e =? "f")%char then prepend (str1 (byte_of 12)) (unquote_loop 1 t)
          else if (e =? "n")%char then prepend (str1 (byte_of 10)) (unquote_loop 1 t)
          else if (e =? "r")%char then prepend (str1 (byte_of 13)) (unquote_loop 1 t)
          else if (e =? "t")%char then prepend (str1 (byte_of 9)) (unquote_loop 1 t)
          else if (e =? "u")%char then
            let rr := getu4 s in
            if rr <? 0 then None
            else if utf16.IsSurrogate rr then
              let rr1 := getu4 (string_drop 6 s) in
              let dec := utf16.DecodeRune rr rr1 in
              if negb (dec =? utf16.replacementChar) then
                (* A valid pair; consume. *)
                prepend (utf8.EncodeRune dec) (unquote_loop 11 t)
              else
                (* Invalid surrogate; fall back to replacement rune. *)
                prepend (utf8.EncodeRune utf16.replacementChar) (unquote_loop 5 t)
            else prepend (utf8.EncodeRune rr) (unquote_loop 5 t)
          else None
        end
      else if (c =? dquote)%char || (byte_val c <? 32) then
        (* Quote, control characters are invalid. *)
        None
      else if byte_val c <? utf8.RuneSelf then
        prepend (str1 c) (unquote_loop 0 t)
      else
        (* Coerce to well-formed UTF-8. *)
        let '(rr, size) := utf8.DecodeRune s in
        prepend (utf8.EncodeRune rr) (unquote_loop (Z.to_nat size - 1) t)
    end
  end.

Fixpoint string_last (s : string) : option ascii :=
  match s with
  | EmptyString => None
  | String c EmptyString => Some c
  | String _ t => string_last t
  end.

(** [unquoteBytes(s)] / [unquote(s)] *)
Definition unquoteBytes (s : string) : option string :=
  match s with
  | String c0 t =>
    if (String.length s <? 2)%nat || negb (c0 =? dquote)%char
       || negb (match string_last s with
                | Some c => (c =? dquote)%char
                | None => false
                end)
    then None
    else
      let body := string_take (String.length t - 1) t in
      let r := unquote_plain 0 body in
      if (r =? String.length body)%nat then Some body
      else prepend (string_take r body) (unquote_loop 0 (string_drop r body))
  | EmptyString => None
  end.

(** *** Errors *)

(** [UnmarshalTypeError]; its [Offset] field, which [Error()] does not
    print, is left out. *)
Record UnmarshalTypeError := {
  Value : string;   (* description of JSON value *)
  Type_ : string;   (* name of the Go type that could not be assigned to *)
  Struct : string;  (* name of the struct type containing the field *)
  Field : string    (* name of the field within the struct *)
}.

Inductive error :=
| ESyntax (e : SyntaxError)
| EUnmarshalType (e : UnmarshalTypeError)
| EUnsupportedType (typ : string).

(** The [Error()] methods. *)
Definition Error (e : error) : string :=
  match e with
  | ESyntax e => msg e
  | EUnmarshalType e =>
    if negb (Struct e =? "")%string || negb (Field e =? "")%string then
      "json: cannot unmarshal " ++ Value e ++ " into Go struct field "
        ++ Struct e ++ "." ++ Field e ++ " of type " ++ Type_ e
    else
      "json: cannot unmarshal " ++ Value e ++ " into Go value of type " ++ Type_ e
  | EUnsupportedType typ => "json: unsupported type: " ++ typ
  end.

(** *** Decoding ([decode.go])

    The decoder walks the input with the scanner.  The values it meets are
    kept here as a tree; a number keeps its literal, which the store
    converts for the type of its destination. *)

Inductive value :=
| JNull
| JBool (b : bool)
| JNumber (lit : string)
| JString (s : string)
| JArray (items : list value)
| JObject (members : list (string * value)).

(** The value of a literal, by its first byte, as in [literalStore] and
    [literalInterface]. *)
Definition literal_value (item : string) : value :=
  match item with
  | EmptyString => JNull
  | String c _ =>
    if (c =? "n")%char then JNull
    else if (c =? "t")%char then JBool true
    else if (c =? "f")%char then JBool false
    else if (c =? dquote)%char then
      match unquoteBytes item with
      | Some s => JString s
      | None => JString ""
      end
    else JNumber item
  end.

(** An object or array under construction. *)
Inductive frame :=
| FObject (members : list (string * value)) (key : option string)
| FArray (items : list value).

Record decodeState := {
  scan : scanner;
  literal : option string;   (* the bytes of the literal being read *)
  open_ : list frame;        (* the enclosing objects and arrays, innermost first *)
  top : option value         (* the finished top-level value *)
}.

(** A finished value goes to the innermost open object (as a key, then as
    the value of that key) or array, or is the top-level value. *)
Definition deliver (v : value) (d : decodeState) : decodeState :=
  match open_ d with
  | [] =>
    {| scan := scan d; literal := None; open_ := []; top := Some v |}
  | FObject ms None :: rest =>
    {| scan := scan d; literal := None;
       open_ := FObject ms (Some (match v with JString k => k | _ => "" end)) :: rest;
       top := top d |}
  | FObject ms (Some k) :: rest =>
    {| scan := scan d; literal := None;
       open_ := FObject (ms ++ [(k, v)])%list None :: rest; top := top d |}
  | FArray items :: rest =>
    {| scan := scan d; literal := None;
       open_ := FArray (items ++ [v])%list :: rest; top := top d |}
  end.

(** The end of the literal being read, if any. *)
Definition flush (d : decodeState) : decodeState :=
  match literal d with
  | Some item => deliver (literal_value item) d
  | None => d
  end.

Definition close (d : decodeState) : decodeState :=
  match open_ d with
  | FObject ms _ :: rest =>
    deliver (JObject ms)
      {| scan := scan d; literal := None; open_ := rest; top := top d |}
  | FArray items :: rest =>
    deliver (JArray items)
      {| scan := scan d; literal := None; open_ := rest; top := top d |}
  | [] => d
  end.

Definition decode_byte (d : decodeState) (c : ascii) : decodeState :=
  let '(sc, op) := run_step (scan d) c in
  let d := {| scan := sc; literal := literal d; open_ := open_ d; top := top d |} in
  match op with
  | scanBeginLiteral =>
    {| scan := sc; literal := Some (str1 c); open_ := open_ d; top := top d |}
  | scanContinue =>
    {| scan := sc;
       literal := match literal d with
                  | Some item => Some (item ++ str1 c)
                  | None => None
                  end;
       open_ := open_ d; top := top d |}
  | scanBeginObject =>
    {| scan := sc; literal := None; open_ := FObject [] None :: open_ d; top := top d |}
  | scanBeginArray =>
    {| scan := sc; literal := None; open_ := FArray [] :: open_ d; top := top d |}
  | scanEndObject | scanEndArray => close (flush d)
  | scanObjectKey | scanObjectValue | scanArrayValue | scanSkipSpace | scanEnd =>
    flush d
  | scanError => d
  end.

Fixpoint decode_loop (data : string) (d : decodeState) : decodeState :=
  match data with
  | EmptyString => flush d
  | String c rest => decode_loop rest (decode_byte d c)
  end.

(** The value a valid JSON text denotes. *)
Definition decode (data : string) : value :=
  match top (decode_loop data
               {| scan := new_scanner; literal := None; open_ := []; top := None |}) with
  | Some v => v
  | None => JNull
  end.

(** The description of a JSON value in an [UnmarshalTypeError]. *)
Definition describe (v : value) : string :=
  match v with
  | JNull => "null"
  | JBool _ => "bool"
  | JNumber _ => "number"
  | JString _ => "string"
  | JArray _ => "array"
  | JObject _ => "object"
  end.

Definition mismatch (v : value) (type struct field : string) : UnmarshalTypeError :=
  {| Value := describe v; Type_ := type; Struct := struct; Field := field |}.

Definition default {A} (d : A) (o : option A) : A :=
  match o with
  | Some a => a
  | None => d
  end.

(** Storing a JSON value in a struct field of type [*bool], [*string] and
    [*int]: [null] sets the pointer to nil; any other value allocates the
    pointer if it is nil ([indirect]) and then stores or fails. *)
Definition store_ptr_bool (struct field : string) (v : value) (old : option bool)
  : option bool * option UnmarshalTypeError :=
  match v with
  | JNull => (None, None)
  | JBool b => (Some b, None)
  | _ => (Some (default false old), Some (mismatch v "bool" struct field))
  end.

Definition store_ptr_string (struct field : string) (v : value) (old : option string)
  : option string * option UnmarshalTypeError :=
  match v with
  | JNull => (None, None)
  | JString s => (Some s, None)
  | _ => (Some (default "" old), Some (mismatch v "string" struct field))
  end.

Definition store_ptr_int (struct field : string) (v : value) (old : option Z)
  : option Z * option UnmarshalTypeError :=
  match v with
  | JNull => (None, None)
  | JNumber lit =>
    match strconv.ParseInt lit with
    | inl n => (Some n, None)
    | inr _ =>
      (Some (default 0 old),
       Some {| Value := "number " ++ lit; Type_ := "int";
               Struct := struct; Field := field |})
    end
  | _ => (Some (default 0 old), Some (mismatch v "int" struct field))
  end.

(** [d.saveError]: only the first error is kept. *)
Definition saveError (saved : option error) (e : option UnmarshalTypeError)
  : option error :=
  match saved with
  | Some _ => saved
  | None =>
    match e with
    | Some e => Some (EUnmarshalType e)
    | None => None
    end
  end.

(** [foldName]: ASCII letters are folded to upper case and every other rune
    to the smallest rune of its simple-folding orbit.  The two runes outside
    ASCII that fold to an ASCII letter are U+017F (to S) and U+212A (to K);
    the other runes, which fold to runes outside ASCII, are kept as they
    are: the folded name is only ever compared with that of a field name. *)
Fixpoint foldName_loop (skip : nat) (s : string) : string :=
  match s with
  | EmptyString => EmptyString
  | String c t =>
    match skip with
    | S k => foldName_loop k t
    | O =>
      if byte_val c <? utf8.RuneSelf then
        String (if in_range "a" "z" c then byte_of (byte_val c - 32) else c)
               (foldName_loop 0 t)
      else
        let '(r, n) := utf8.DecodeRune s in
        let r' := if r =? 0x17F then 83 else if r =? 0x212A then 75 else r in
        utf8.EncodeRune r' ++ foldName_loop (Z.to_nat n - 1) t
    end
  end.

Definition foldName (s : string) : string := foldName_loop 0 s.

(** The field a key names: [fields.byExactName], then
    [fields.byFoldedName]. *)
Fixpoint byExactName (names : list string) (key : string) : option string :=
  match names with
  | [] => None
  | n :: rest => if (n =? key)%string then Some n else byExactName rest key
  end.

Fixpoint byFoldedName (names : list string) (key : string) : option string :=
  match names with
  | [] => None
  | n :: rest =>
    if (foldName n =? key)%string then Some n else byFoldedName rest key
  end.

Definition find_field (names : list string) (key : string) : option string :=
  match byExactName names key with
  | Some n => Some n
  | None => byFoldedName names (foldName key)
  end.

(** *** Encoding ([encode.go]) *)

(** A struct field as the encoder sees it: its JSON name and the
    [omitempty] option of its tag. *)
Record field := { name : string; omitEmpty : bool }.

(** The Go values the encoder is handed, by kind.  A nil pointer, interface
    or map is [None]. *)
Inductive rvalue :=
| VBool (b : bool)
| VInt (i : Z)
| VString (s : string)
| VPointer (p : option rvalue)
| VInterface (e : option rvalue)
| VStruct (fields : list (field * rvalue))
| VMap (entries : option (list (string * rvalue)))
| VChan
| VFunc.

Definition isEmptyValue (v : rvalue) : bool :=
  match v with
  | VBool b => negb b
  | VInt i => i =? 0
  | VString s => (s =? "")%string
  | VPointer p => match p with None => true | Some _ => false end
  | VInterface e => match e with None => true | Some _ => false end
  | VMap (Some []) | VMap None => true
  | _ => false
  end.

(** Insertion of a map entry by the order of [strings.Compare] on keys. *)
Fixpoint insert_sorted {A} (k : string) (v : A) (l : list (string * A))
  : list (string * A) :=
  match l with
  | [] => [(k, v)]
  | (k', v') :: rest =>
    if String.leb k k' then (k, v) :: l else (k', v') :: insert_sorted k v rest
  end.

Definition sort_entries {A} (l : list (string * A)) : list (string * A) :=
  fold_right (fun kv acc => insert_sorted (fst kv) (snd kv) acc) [] l.

(** The entries of a map, in the order of their keys, each with the
    encoding of its value. *)
Fixpoint write_entries (es : list (string * (string + error))) (first : bool)
  : string + error :=
  match es with
  | [] => inl "}"
  | (k, inr e) :: _ => inr e
  | (k, inl text) :: rest =>
    match write_entries rest false with
    | inr e => inr e
    | inl more =>
      inl ((if first then "" else ",") ++ appendString k true ++ ":" ++ text ++ more)
    end
  end.

(** [e.reflectValue(v, opts)] with [escapeHTML] set: the text written, or
    the error the encoder stops with. *)
Fixpoint encode (v : rvalue) : string + error :=
  match v with
  | VBool b => inl (if b then "true" else "false")
  | VInt i => inl (strconv.FormatInt i)
  | VString s => inl (appendString s true)
  | VPointer None => inl "null"
  | VPointer (Some x) => encode x
  | VInterface None => inl "null"
  | VInterface (Some x) => encode x
  | VStruct fields =>
    let fix encode_fields (fs : list (field * rvalue)) (next : string)
      : string + error :=
      match fs with
      | [] => inl (if (next =? "{")%string then "{}" else "}")
      | (f, fv) :: rest =>
        if omitEmpty f && isEmptyValue fv then encode_fields rest next
        else
          match encode fv with
          | inr e => inr e
          | inl text =>
            match encode_fields rest "," with
            | inr e => inr e
            | inl more =>
              inl (next ++ appendString (name f) true ++ ":" ++ text ++ more)
            end
          end
      end in
    encode_fields fields "{"
  | VMap None => inl "null"
  | VMap (Some entries) =>
    let fix encode_each (es : list (string * rvalue))
      : list (string * (string + error)) :=
      match es with
      | [] => []
      | (k, ev) :: rest => (k, encode ev) :: encode_each rest
      end in
    match write_entries (sort_entries (encode_each entries)) true with
    | inr e => inr e
    | inl body => inl ("{" ++ body)
    end
  | VChan => inr (EUnsupportedType "chan")
  | VFunc => inr (EUnsupportedType "func")
  end.

(** [Marshal(v)] *)
Definition Marshal (v : rvalue) : string + error := encode v.

End json.

(** ** cgo *)

(** A [*C.char] argument: [None] is the NULL pointer, [Some bytes] the
    bytes found at the pointer. *)
Definition C_char_ptr := option string.

Fixpoint until_nul (bytes : string) : string :=
  match bytes with
  | EmptyString => EmptyString
  | String c t => if byte_val c =? 0 then EmptyString else String c (until_nul t)
  end.

(** [C.GoString(p)]: the bytes up to the terminating NUL; the empty string
    for NULL. *)
Definition C_GoString (p : C_char_ptr) : string :=
  match p with
  | None => EmptyString
  | Some bytes => until_nul bytes
  end.

(** ** Package [bridge] *)

(** The response envelope, from [lib.go] as [EXPORT_PATTERN.md] gives it. *)
Record DartResponse := {
  Success : bool;
  Message : string;
  Data : string
}.

(** [ConfigGeneralSettings] represents the general configuration. *)
Record ConfigGeneralSettings := {
  AllowLan : option bool;
  BindAddress : option string;
  LogLevel : option string;
  Port : option Z;
  SocksPort : option Z;
  MixedPort : option Z;
  RedirPort : option Z;
  TProxyPort : option Z
}.

(** [&ConfigGeneralSettings{}] *)
Definition ConfigGeneralSettings_zero : ConfigGeneralSettings :=
  {| AllowLan := None; BindAddress := None; LogLevel := None; Port := None;
     SocksPort := None; MixedPort := None; RedirPort := None; TProxyPort := None |}.

(** The value has the range of Go's 64-bit [int]. *)
Definition is_int (z : Z) : Prop := - 2 ^ 63 <= z < 2 ^ 63.

Definition is_int_opt (o : option Z) : Prop :=
  match o with
  | Some z => is_int z
  | None => True
  end.

(** The values of the Go type [ConfigGeneralSettings]. *)
Definition ConfigGeneralSettings_ok (x : ConfigGeneralSettings) : Prop :=
  is_int_opt (Port x) /\ is_int_opt (SocksPort x) /\ is_int_opt (MixedPort x)
  /\ is_int_opt (RedirPort x) /\ is_int_opt (TProxyPort x).

(** The struct as [encoding/json] sees it through its tags: every field is
    [json:"<name>,omitempty"]. *)
Definition tagged (n : string) : json.field :=
  {| json.name := n; json.omitEmpty := true |}.

Definition reflect_ptr {A} (f : A -> json.rvalue) (p : option A) : json.rvalue :=
  json.VPointer (option_map f p).

Definition ConfigGeneralSettings_reflect (x : ConfigGeneralSettings) : json.rvalue :=
  json.VStruct
    [ (tagged "allowLan", reflect_ptr json.VBool (AllowLan x));
      (tagged "bindAddress", reflect_ptr json.VString (BindAddress x));
      (tagged "logLevel", reflect_ptr json.VString (LogLevel x));
      (tagged "port", reflect_ptr json.VInt (Port x));
      (tagged "socksPort", reflect_ptr json.VInt (SocksPort x));
      (tagged "mixedPort", reflect_ptr json.VInt (MixedPort x));
      (tagged "redirPort", reflect_ptr json.VInt (RedirPort x));
      (tagged "tproxyPort", reflect_ptr json.VInt (TProxyPort x)) ].

Definition ConfigGeneralSettings_names : list string :=
  [ "allowLan"; "bindAddress"; "logLevel"; "port"; "socksPort"; "mixedPort";
    "redirPort"; "tproxyPort" ].

(** The decoder's store of one object member in the struct: the field the
    key names, if any, receives the value. *)
Definition ConfigGeneralSettings_store (key : string) (v : json.value)
  (x : ConfigGeneralSettings) : ConfigGeneralSettings * option json.UnmarshalTypeError :=
  let st := "ConfigGeneralSettings" in
  match json.find_field ConfigGeneralSettings_names key with
  | None => (x, None)
  | Some n =>
    if (n =? "allowLan")%string then
      let '(p, e) := json.store_ptr_bool st n v (AllowLan x) in
      ({| AllowLan := p; BindAddress := BindAddress x; LogLevel := LogLevel x;
          Port := Port x; SocksPort := SocksPort x; MixedPort := MixedPort x;
          RedirPort := RedirPort x; TProxyPort := TProxyPort x |}, e)
    else if (n =? "bindAddress")%string then
      let '(p, e) := json.store_ptr_string st n v (BindAddress x) in
      ({| AllowLan := AllowLan x; BindAddress := p; LogLevel := LogLevel x;
          Port := Port x; SocksPort := SocksPort x; MixedPort := MixedPort x;
          RedirPort := RedirPort x; TProxyPort := TProxyPort x |}, e)
    else if (n =? "logLevel")%string then
      let '(p, e) := json.store_ptr_string st n v (LogLevel x) in
      ({| AllowLan := AllowLan x; BindAddress := BindAddress x; LogLevel := p;
          Port := Port x; SocksPort := SocksPort x; MixedPort := MixedPort x;
          RedirPort := RedirPort x; TProxyPort := TProxyPort x |}, e)
    else if (n =? "port")%string then
      let '(p, e) := json.store_ptr_int st n v (Port x) in
      ({| AllowLan := AllowLan x; BindAddress := BindAddress x; LogLevel := LogLevel x;
          Port := p; SocksPort := SocksPort x; MixedPort := MixedPort x;
          RedirPort := RedirPort x; TProxyPort := TProxyPort x |}, e)
    else if (n =? "socksPort")%string then
      let '(p, e) := json.store_ptr_int st n v (SocksPort x) in
      ({| AllowLan := AllowLan x; BindAddress := BindAddress x; LogLevel := LogLevel x;
          Port := Port x; SocksPort := p; MixedPort := MixedPort x;
          RedirPort := RedirPort x; TProxyPort := TProxyPort x |}, e)
    else if (n =? "mixedPort")%string then
      let '(p, e) := json.store_ptr_int st n v (MixedPort x) in
      ({| AllowLan := AllowLan x; BindAddress := BindAddress x; LogLevel := LogLevel x;
          Port := Port x; SocksPort := SocksPort x; MixedPort := p;
          RedirPort := RedirPort x; TProxyPort := TProxyPort x |}, e)
    else if (n =? "redirPort")%string then
      let '(p, e) := json.store_ptr_int st n v (RedirPort x) in
      ({| AllowLan := AllowLan x; BindAddress := BindAddress x; LogLevel := LogLevel x;
          Port := Port x; SocksPort := SocksPort x; MixedPort := MixedPort x;
          RedirPort := p; TProxyPort := TProxyPort x |}, e)
    else
      let '(p, e) := json.store_ptr_int st n v (TProxyPort x) in
      ({| AllowLan := AllowLan x; BindAddress := BindAddress x; LogLevel := LogLevel x;
          Port := Port x; SocksPort := SocksPort x; MixedPort := MixedPort x;
          RedirPort := RedirPort x; TProxyPort := p |}, e)
  end.

(** [d.object(v)] on the struct: the members are stored in the order of the
    text; decoding goes on after a type error, of which the first is kept. *)
Fixpoint ConfigGeneralSettings_object (ms : list (string * json.value))
  (x : ConfigGeneralSettings) (saved : option json.error)
  : ConfigGeneralSettings * option json.error :=
  match ms with
  | [] => (x, saved)
  | (key, v) :: rest =>
    let '(x', e) := ConfigGeneralSettings_store key v x in
    ConfigGeneralSettings_object rest x' (json.saveError saved e)
  end.

(** [json.Unmarshal(data, general)] for [general *ConfigGeneralSettings]:
    the struct after the call and the error returned. *)
Definition Unmarshal_ConfigGeneralSettings (data : string) (general : ConfigGeneralSettings)
  : ConfigGeneralSettings * option json.error :=
  match json.checkValid data with
  | Some e => (general, Some (json.ESyntax e))
  | None =>
    match json.decode data with
    | json.JNull => (general, None)
    | json.JObject ms => ConfigGeneralSettings_object ms general None
    | v =>
      (general,
       Some (json.EUnmarshalType (json.mismatch v "bridge.ConfigGeneralSettings" "" "")))
    end
  end.

(** A decoded [map[string]interface{}]: [None] is the nil map; the values
    are the decoded JSON values (a number stands for the [float64] of its
    literal). *)
Definition GoMap := option (list (string * json.value)).

(** [m[k] = v] *)
Fixpoint map_set (k : string) (v : json.value) (m : list (string * json.value))
  : list (string * json.value) :=
  match m with
  | [] => [(k, v)]
  | (k', v') :: rest =>
    if (k' =? k)%string then (k, v) :: rest else (k', v') :: map_set k v rest
  end.

Section Bridge.

(** Whether [strconv.ParseFloat(s, 64)] fails on the number literal [s]
    (a value out of the range of [float64]); floating point is not
    modelled. *)
Variable float64_range_error : string -> bool.

(** The state of the sync engine behind the bridge. *)
Variable EngineState : Type.

(** The first number, in the order of the text, that [d.convertNumber]
    rejects. *)
Fixpoint convertNumber_error (v : json.value) : option json.UnmarshalTypeError :=
  match v with
  | json.JNumber lit =>
    if float64_range_error lit then
      Some {| json.Value := "number " ++ lit; json.Type_ := "float64";
              json.Struct := ""; json.Field := "" |}
    else None
  | json.JArray items =>
    (fix first_of (l : list json.value) : option json.UnmarshalTypeError :=
       match l with
       | [] => None
       | i :: rest =>
         match convertNumber_error i with
         | Some e => Some e
         | None => first_of rest
         end
       end) items
  | json.JObject ms =>
    (fix first_of (l : list (string * json.value)) : option json.UnmarshalTypeError :=
       match l with
       | [] => None
       | (_, i) :: rest =>
         match convertNumber_error i with
         | Some e => Some e
         | None => first_of rest
         end
       end) ms
  | _ => None
  end.

(** [json.Unmarshal(data, &m)] for [m map[string]interface{}]: the map after
    the call and the error returned. *)
Definition Unmarshal_map (data : string) (m : GoMap) : GoMap * option json.error :=
  match json.checkValid data with
  | Some e => (m, Some (json.ESyntax e))
  | None =>
    match json.decode data with
    | json.JNull => (None, None)
    | json.JObject ms =>
      (Some (fold_left (fun acc kv => map_set (fst kv) (snd kv) acc) ms
               (json.default [] m)),
       json.saveError None (convertNumber_error (json.JObject ms)))
    | v =>
      (m, Some (json.EUnmarshalType (json.mismatch v "map[string]interface {}" "" "")))
    end
  end.

(** What a dispatch function acts on: the engine, and the messages posted
    to the ports of the client runtime, oldest first. *)
Record World := {
  engine : EngineState;
  outbox : list (Z * DartResponse)
}.

(** A Go function body acting on the world. *)
Definition Action (A : Type) : Type := World -> A * World.

Definition ret {A} (a : A) : Action A := fun w => (a, w).

Definition bind {A B} (m : Action A) (k : A -> Action B) : Action B :=
  fun w => let '(a, w') := m w in k a w'.

Notation "m ;; k" := (bind m (fun _ => k)) (at level 61, right associativity).

Definition run (m : Action unit) (w : World) : World := snd (m w).

(** Modelled from the spec: [SendResponseToPort] of [lib.go], which is not
    among the sources.  Section 4.1: [send(token, envelope)] hands the
    envelope to the post primitive, addressed by [token]; no
    acknowledgment, no retry, no error of its own. *)
Definition SendResponseToPort (port : Z) (response : DartResponse) : Action unit :=
  fun w => (tt, {| engine := engine w;
                   outbox := (outbox w ++ [(port, response)])%list |}).

Definition ptrBool (v : bool) : option bool := Some v.
Definition ptrString (v : string) : option string := Some v.
Definition ptrInt (v : Z) : option Z := Some v.

(** [if p != nil { body }] *)
Definition if_not_nil {A} (p : option A) (body : Action unit) : Action unit :=
  match p with
  | Some _ => body
  | None => ret tt
  end.

(** [for key, value := range m { body }] *)
Fixpoint range_list (l : list (string * json.value))
  (body : string -> json.value -> Action unit) : Action unit :=
  match l with
  | [] => ret tt
  | (key, value) :: rest => body key value ;; range_list rest body
  end.

Definition range (m : GoMap) (body : string -> json.value -> Action unit)
  : Action unit :=
  range_list (json.default [] m) body.

(** *** [exports.go] *)

(** [getGeneralConfig] retrieves general configuration settings. *)
Definition getGeneralConfig (port : Z) : Action unit :=
  let general :=
    {| AllowLan := ptrBool true;
       BindAddress := ptrString "0.0.0.0";
       LogLevel := None;
       Port := ptrInt 8080;
       SocksPort := None; MixedPort := None; RedirPort := None;
       TProxyPort := None |} in
  match json.Marshal (ConfigGeneralSettings_reflect general) with
  | inr err =>
    SendResponseToPort port
      {| Success := false; Message := json.Error err; Data := "" |}
  | inl data =>
    SendResponseToPort port {| Success := true; Message := ""; Data := data |}
  end.

(** [patchGeneralConfig] updates general configuration settings. *)
Definition patchGeneralConfig (port : Z) (patchStr : C_char_ptr) : Action unit :=
  let patch := C_GoString patchStr in
  (* Unmarshal the patch JSON *)
  let '(general, err) :=
    Unmarshal_ConfigGeneralSettings patch ConfigGeneralSettings_zero in
  match err with
  | Some err =>
    SendResponseToPort port
      {| Success := false; Message := json.Error err; Data := "" |}
  | None =>
    (* Apply each field that was provided: the bodies are empty. *)
    if_not_nil (AllowLan general) (ret tt) ;;
    if_not_nil (BindAddress general) (ret tt) ;;
    if_not_nil (Port general) (ret tt) ;;
    if_not_nil (LogLevel general) (ret tt) ;;
    SendResponseToPort port {| Success := true; Message := ""; Data := "" |}
  end.

(** [getRemoteConfig] retrieves configuration for a specific remote. *)
Definition getRemoteConfig (port : Z) (remoteName : C_char_ptr) : Action unit :=
  let name := C_GoString remoteName in
  let remoteConfig :=
    json.VMap (Some
      [ ("name", json.VInterface (Some (json.VString name)));
        ("type", json.VInterface (Some (json.VString "s3")));
        ("url", json.VInterface (Some (json.VString "https://example.com"))) ]) in
  match json.Marshal remoteConfig with
  | inr err =>
    SendResponseToPort port
      {| Success := false; Message := json.Error err; Data := "" |}
  | inl data =>
    SendResponseToPort port {| Success := true; Message := ""; Data := data |}
  end.

(** [updateRemoteConfig] updates configuration for a specific remote. *)
Definition updateRemoteConfig (port : Z) (remoteName configData : C_char_ptr)
  : Action unit :=
  let name := C_GoString remoteName in
  let data := C_GoString configData in
  (* Unmarshal the configuration data *)
  let '(remoteConfig, err) := Unmarshal_map data None in
  match err with
  | Some err =>
    SendResponseToPort port
      {| Success := false; Message := json.Error err; Data := "" |}
  | None =>
    (* Apply configuration changes *)
    range remoteConfig (fun key value =>
      let '(_, _, _) := (name, key, value) in ret tt) ;;
    SendResponseToPort port {| Success := true; Message := ""; Data := "" |}
  end.

(** [deleteRemote] deletes a remote configuration. *)
Definition deleteRemote (port : Z) (remoteName : C_char_ptr) : Action unit :=
  let name := C_GoString remoteName in
  let _ := name in
  SendResponseToPort port {| Success := true; Message := ""; Data := "" |}.

(** *** [QUICK_REFERENCE.go] *)

(** [getSimpleData]: template for simple read operations. *)
Definition getSimpleData (port : Z) : Action unit :=
  let result :=
    json.VMap (Some
      [ ("key", json.VInterface (Some (json.VString "value")));
        ("count", json.VInterface (Some (json.VInt 42))) ]) in
  (* Marshal to JSON *)
  match json.Marshal result with
  | inr err =>
    SendResponseToPort port
      {| Success := false; Message := json.Error err; Data := "" |}
  | inl data =>
    (* Send success response *)
    SendResponseToPort port {| Success := true; Message := ""; Data := data |}
  end.

Definition updateSimpleData (port : Z) (jsonInput : C_char_ptr) : Action unit :=
  (* Convert C string to Go string *)
  let input := C_GoString jsonInput in
  (* Parse JSON *)
  let '(config, err) := Unmarshal_map input None in
  match err with
  | Some err =>
    SendResponseToPort port
      {| Success := false; Message := json.Error err; Data := "" |}
  | None =>
    (* Apply changes from config *)
    range config (fun key value =>
      let _ := key in let _ := value in ret tt) ;;
    (* Send success response (no data needed for updates) *)
    SendResponseToPort port {| Success := true; Message := ""; Data := "" |}
  end.

Definition getDataByName (port : Z) (name : C_char_ptr) : Action unit :=
  (* Convert C string to Go string *)
  let nameStr := C_GoString name in
  (* Validate input *)
  if (nameStr =? "")%string then
    SendResponseToPort port
      {| Success := false; Message := "name parameter cannot be empty"; Data := "" |}
  else
    let result :=
      json.VMap (Some
        [ ("name", json.VInterface (Some (json.VString nameStr)));
          ("data", json.VInterface (Some (json.VString ("result for " ++ nameStr)))) ]) in
    (* Marshal and send *)
    match json.Marshal result with
    | inr err =>
      SendResponseToPort port
        {| Success := false; Message := json.Error err; Data := "" |}
    | inl data =>
      SendResponseToPort port {| Success := true; Message := ""; Data := data |}
    end.

Definition processData (port : Z) (source destination : C_char_ptr) : Action unit :=
  (* Convert C strings to Go strings *)
  let src := C_GoString source in
  let dst := C_GoString destination in
  (* Validate inputs *)
  if (src =? "")%string || (dst =? "")%string then
    SendResponseToPort port
      {| Success := false; Message := "source and destination cannot be empty";
         Data := "" |}
  else
    SendResponseToPort port {| Success := true; Message := ""; Data := "" |}.

Definition deleteItem (port : Z) (itemID : C_char_ptr) : Action unit :=
  (* Convert C string to Go string *)
  let id := C_GoString itemID in
  (* Validate input *)
  if (id =? "")%string then
    SendResponseToPort port
      {| Success := false; Message := "itemID cannot be empty"; Data := "" |}
  else
    SendResponseToPort port {| Success := true; Message := ""; Data := "" |}.

End Bridge.

Arguments engine {EngineState} _.
Arguments outbox {EngineState} _.
Arguments Build_World {EngineState} _ _.
Arguments ret {EngineState A} _ _.
Arguments bind {EngineState A B} _ _ _.
Arguments run {EngineState} _ _.
Arguments SendResponseToPort {EngineState} _ _ _.
Arguments if_not_nil {EngineState A} _ _ _.
Arguments range_list {EngineState} _ _ _.
Arguments range {EngineState} _ _ _.
Arguments getGeneralConfig {EngineState} _ _.
Arguments patchGeneralConfig {EngineState} _ _ _.
Arguments getRemoteConfig {EngineState} _ _ _.
Arguments updateRemoteConfig _ {EngineState} _ _ _ _.
Arguments deleteRemote {EngineState} _ _ _.
Arguments getSimpleData {EngineState} _ _.
Arguments updateSimpleData _ {EngineState} _ _ _.
Arguments getDataByName {EngineState} _ _ _.
Arguments processData {EngineState} _ _ _ _.
Arguments deleteItem {EngineState} _ _ _.

(** ** Vocabulary of the properties *)

(** The two shapes of envelope the dispatch functions build. *)
Definition failure (message : string) : DartResponse :=
  {| Success := false; Message := message; Data := "" |}.

Definition success (data : string) : DartResponse :=
  {| Success := true; Message := ""; Data := data |}.

(** The whole effect of an action is one message, [r], posted to [port]:
    the engine is as it was and nothing else is in the outbox. *)
Definition sends_only (EngineState : Type) (port : Z) (r : DartResponse)
  (a : Action EngineState unit) : Prop :=
  forall w : World EngineState,
    run a w = {| engine := engine w; outbox := (outbox w ++ [(port, r)])%list |}.

(** Message is set only on failure and data only on success. *)
Definition exclusive (r : DartResponse) : Prop :=
  (Success r = true -> Message r = "") /\ (Success r = false -> Data r = "").

(** The syntax error, if there is one, has a message. *)
Definition err_has_text (o : option json.SyntaxError) : Prop :=
  forall e, o = Some e -> json.msg e <> "".

(** The message of the error is not empty: every error but a syntax error
    has a text by its form. *)
Definition has_text (e : json.error) : Prop :=
  match e with
  | json.ESyntax se => json.msg se <> ""
  | _ => True
  end.

(** The error of [json.Unmarshal] of an array into a map. *)
Definition type_error_array : json.error :=
  json.EUnmarshalType
    {| json.Value := "array"; json.Type_ := "map[string]interface {}";
       json.Struct := ""; json.Field := "" |}.

(** ** Vocabulary of the round trip *)

(** [decodes s r size]: [s] starts with the well-formed encoding, of
    [size] bytes, of the rune [r]. *)
Inductive decodes : string -> Z -> Z -> Prop :=
| decodes1 c t :
    byte_val c < 0x80 -> decodes (String c t) (byte_val c) 1
| decodes2 c0 c1 t :
    0xC2 <= byte_val c0 <= 0xDF -> 0x80 <= byte_val c1 <= 0xBF ->
    decodes (String c0 (String c1 t))
      ((byte_val c0 - 0xC0) * 64 + (byte_val c1 - 0x80)) 2
| decodes3 c0 c1 c2 t :
    0xE0 <= byte_val c0 <= 0xEF -> 0x80 <= byte_val c1 <= 0xBF ->
    (byte_val c0 = 0xE0 -> 0xA0 <= byte_val c1) ->
    (byte_val c0 = 0xED -> byte_val c1 <= 0x9F) ->
    0x80 <= byte_val c2 <= 0xBF ->
    decodes (String c0 (String c1 (String c2 t)))
      ((byte_val c0 - 0xE0) * 4096 + (byte_val c1 - 0x80) * 64 + (byte_val c2 - 0x80)) 3
| decodes4 c0 c1 c2 c3 t :
    0xF0 <= byte_val c0 <= 0xF4 -> 0x80 <= byte_val c1 <= 0xBF ->
    (byte_val c0 = 0xF0 -> 0x90 <= byte_val c1) ->
    (byte_val c0 = 0xF4 -> byte_val c1 <= 0x8F) ->
    0x80 <= byte_val c2 <= 0xBF -> 0x80 <= byte_val c3 <= 0xBF ->
    decodes (String c0 (String c1 (String c2 (String c3 t))))
      ((byte_val c0 - 0xF0) * 262144 + (byte_val c1 - 0x80) * 4096
       + (byte_val c2 - 0x80) * 64 + (byte_val c3 - 0x80)) 4.

(** What [DecodeRune] returns: nothing for the empty input, an error of
    width 1 at a byte that starts no well-formed encoding, or a rune. *)
Definition decode_result (s : string) (r size : Z) : Prop :=
  (s = "" /\ r = utf8.RuneError /\ size = 0)
  \/ (r = utf8.RuneError /\ size = 1
      /\ exists c t, s = String c t /\ 0x80 <= byte_val c)
  \/ decodes s r size.

(** [wellformed s]: [s] is valid UTF-8. *)
Inductive wellformed : string -> Prop :=
| wellformed_nil : wellformed ""
| wellformed_rune s r size :
    decodes s r size -> wellformed (string_drop (Z.to_nat size) s) -> wellformed s.

(** What [appendString] writes for the rune at the start of [s]. *)
Definition quoted_rune (s : string) (r size : Z) : string :=
  match s with
  | String c _ =>
    if size =? 1 then (if json.htmlSafeSet c then str1 c else json.escape_byte c)
    else if (r =? 0x2028) || (r =? 0x2029) then
      "\u202" ++ str1 (json.hex (Z.land r 0xF))
    else string_take (Z.to_nat size) s
  | EmptyString => EmptyString
  end.

(** The first loop of [unquoteBytes] followed by the second one, from where
    the first stopped. *)
Definition unquote_from (body : string) (r : nat) : option string :=
  if (r =? String.length body)%nat then Some body
  else json.prepend (string_take r body) (json.unquote_loop 0 (string_drop r body)).

(** The byte stops the first loop of [unquoteBytes]. *)
Definition special (c : ascii) : bool :=
  (c =? "\")%char || (c =? dquote)%char || (byte_val c <? 32).

(** The decoder's pass over the bytes of [data], without the flush at the
    end of the input. *)
Fixpoint decode_run (data : string) (d : json.decodeState) : json.decodeState :=
  match data with
  | EmptyString => d
  | String c rest => decode_run rest (json.decode_byte d c)
  end.

(** The decoder inside a literal, of which it has read [lit], with the
    scanner in state [st]. *)
Definition reading (st : json.stepFn) (sc : json.scanner) (lit : string)
  (o : list json.frame) (tp : option json.value) : json.decodeState :=
  {| json.scan := json.set_step sc st; json.literal := Some lit;
     json.open_ := o; json.top := tp |}.

(** Reading [q] inside a literal takes the scanner from [st] to [st']. *)
Definition passes (st : json.stepFn) (q : string) (st' : json.stepFn) : Prop :=
  forall sc lit o tp,
    decode_run q (reading st sc lit o tp) = reading st' sc (lit ++ q) o tp.

(** The literal [v] starts where the scanner is in state [st] and leaves it
    in state [st']. *)
Definition begins (st : json.stepFn) (v : string) (st' : json.stepFn) : Prop :=
  forall sc l0 o tp,
    decode_run v {| json.scan := json.set_step sc st; json.literal := l0;
                    json.open_ := o; json.top := tp |}
    = reading st' sc v o tp.

(** A state in which a string literal may start. *)
Definition string_start (st : json.stepFn) : Prop :=
  st = json.stateBeginValue \/ st = json.stateBeginString
  \/ st = json.stateBeginStringOrEmpty.

(** Every byte is a decimal digit. *)
Fixpoint all_digits (s : string) : bool :=
  match s with
  | EmptyString => true
  | String c t => json.isDigit c && all_digits t
  end.

(** The states in which a literal is complete: a delimiter that follows is
    handled by [stateEndValue]. *)
Definition ends_value (st : json.stepFn) : Prop :=
  st = json.stateEndValue \/ st = json.state0 \/ st = json.state1.

(** A member as the encoder writes it: its key, the text of its value and
    the value the decoder makes of that text. *)
Definition member : Type := string * string * json.value.

(** The member as the decoder stores it. *)
Definition member_value (m : member) : string * json.value :=
  let '(k, _, v) := m in (k, v).

(** The key reads back as written, and the text is a literal that the
    scanner accepts where a value starts and that denotes the value. *)
Definition good_member (m : member) : Prop :=
  let '(k, text, v) := m in
  json.unquoteBytes (json.appendString k true) = Some k
  /\ json.literal_value text = v
  /\ exists st', ends_value st' /\ begins json.stateBeginValue text st'.

(** The text of the members from [next] on, as [encode] writes it for a
    struct. *)
Fixpoint members_text (ms : list member) (next : string) : string :=
  match ms with
  | [] => if (next =? "{")%string then "{}" else "}"
  | (k, text, _) :: rest =>
    next ++ json.appendString k true ++ ":" ++ text ++ members_text rest ","
  end.

(** The scanner inside the top-level object. *)
Definition sc_obj (ps : json.parseState) (st : json.stepFn) : json.scanner :=
  {| json.step := st; json.endTop := false; json.parseStack := [ps];
     json.err := None; json.bytes := 0 |}.

(** The scanner after the top-level value. *)
Definition sc_top : json.scanner :=
  {| json.step := json.stateEndTop; json.endTop := true; json.parseStack := [];
     json.err := None; json.bytes := 0 |}.

(** The decoder at the end of a text that denotes [v], and at the start
    of a text. *)
Definition d_top (v : json.value) : json.decodeState :=
  {| json.scan := sc_top; json.literal := None; json.open_ := []; json.top := Some v |}.

Definition d_start : json.decodeState :=
  {| json.scan := json.new_scanner; json.literal := None; json.open_ := [];
     json.top := None |}.

(** The scanner of [checkValid] and that of the decoder agree on all but
    the count of bytes, as long as neither has met an error. *)
Definition in_step (s s' : json.scanner) : Prop :=
  json.step s = json.step s' /\ json.endTop s = json.endTop s'
  /\ json.parseStack s = json.parseStack s'
  /\ json.err s = None /\ json.err s' = None /\ json.step s' <> json.stateError.

(** The member of a pointer field with [omitempty]: none for nil. *)
Definition opt_member {A} (k : string) (text : A -> string) (val : A -> json.value)
  (p : option A) : list member :=
  match p with
  | Some a => [(k, text a, val a)]
  | None => []
  end.

(** The text the encoder writes for a bool, a string and an int, and the
    value the decoder makes of an int. *)
Definition bool_text (b : bool) : string := if b then "true" else "false".

Definition quote_text (s : string) : string := json.appendString s true.

Definition int_value (z : Z) : json.value := json.JNumber (strconv.FormatInt z).

(** The members [json.Marshal] writes for the struct. *)
Definition ConfigGeneralSettings_members (x : ConfigGeneralSettings) : list member :=
  (opt_member "allowLan" bool_text json.JBool (AllowLan x)
   ++ opt_member "bindAddress" quote_text json.JString (BindAddress x)
   ++ opt_member "logLevel" quote_text json.JString (LogLevel x)
   ++ opt_member "port" strconv.FormatInt int_value (Port x)
   ++ opt_member "socksPort" strconv.FormatInt int_value (SocksPort x)
   ++ opt_member "mixedPort" strconv.FormatInt int_value (MixedPort x)
   ++ opt_member "redirPort" strconv.FormatInt int_value (RedirPort x)
   ++ opt_member "tproxyPort" strconv.FormatInt int_value (TProxyPort x))%list.

(** The strings of the struct are valid UTF-8. *)
Definition valid_opt (o : option string) : bool :=
  match o with
  | Some s => utf8.ValidString s
  | None => true
  end.

Definition ConfigGeneralSettings_utf8 (x : ConfigGeneralSettings) : bool :=
  valid_opt (BindAddress x) && valid_opt (LogLevel x).

(** Encoding [x] succeeds and decoding the text into the zero struct gives
    [x] back, with no error. *)
Definition round_trips (x : ConfigGeneralSettings) : Prop :=
  exists data,
    json.Marshal (ConfigGeneralSettings_reflect x) = inl data
    /\ Unmarshal_ConfigGeneralSettings data ConfigGeneralSettings_zero = (x, None).

(** A bind address that is no valid UTF-8: the single byte 0xFF. *)
Definition bad_utf8_settings : ConfigGeneralSettings :=
  {| AllowLan := None; BindAddress := Some (str1 (byte_of 0xFF)); LogLevel := None;
     Port := None; SocksPort := None; MixedPort := None; RedirPort := None;
     TProxyPort := None |}.

(** A value with every kind of field, strings outside ASCII included. *)
Definition sample_settings : ConfigGeneralSettings :=
  {| AllowLan := Some false;
     BindAddress := Some ("<::1>" ++ utf8.EncodeRune 0xE9 ++ utf8.EncodeRune 0x2028);
     LogLevel := Some (sq "'info'" ++ str1 (byte_of 10));
     Port := Some 8080; SocksPort := Some (-1); MixedPort := Some 0;
     RedirPort := None; TProxyPort := Some (2 ^ 63 - 1) |}.

(** ** Vocabulary of the further properties *)

(** Every byte of [s] passes the test [p]. *)
Fixpoint all_bytes (p : ascii -> bool) (s : string) : bool :=
  match s with
  | EmptyString => true
  | String c t => p c && all_bytes p t
  end.

(** The byte NUL, which ends a C string. *)
Definition nul : ascii := byte_of 0.

(** A byte that is not below 0x20 (so not NUL) and none of [<], [>], [&]. *)
Definition plain_byte (c : ascii) : bool :=
  (0x20 <=? byte_val c) && negb (c =? "<")%char && negb (c =? ">")%char
  && negb (c =? "&")%char.

(** The text is made of such bytes only. *)
Definition plain (s : string) : bool := all_bytes plain_byte s.

(** The text is JSON white space only. *)
Definition all_space (s : string) : bool := all_bytes json.isSpace s.

(** The data [getRemoteConfig] answers for the remote [name]. *)
Definition remote_data (name : string) : string :=
  sq "{'name':" ++ json.appendString name true
    ++ sq ",'type':'s3','url':'https://example.com'}".

(** The data [getDataByName] answers for [name]. *)
Definition name_data (name : string) : string :=
  sq "{'data':" ++ json.appendString ("result for " ++ name) true
    ++ sq ",'name':" ++ json.appendString name true ++ "}".

(** The string [encoding/json] makes of [s]: each byte that starts no
    well-formed encoding is replaced by the encoding of U+FFFD.  [skip]
    counts the remaining bytes of a rune that is kept. *)
Fixpoint replace_invalid_loop (skip : nat) (s : string) : string :=
  match s with
  | EmptyString => EmptyString
  | String b rest =>
    match skip with
    | S k => String b (replace_invalid_loop k rest)
    | O =>
      let '(c, size) := utf8.DecodeRune s in
      if (c =? utf8.RuneError) && (size =? 1)
      then utf8.EncodeRune utf8.RuneError ++ replace_invalid_loop 0 rest
      else String b (replace_invalid_loop (Z.to_nat size - 1) rest)
    end
  end.

Definition replace_invalid (s : string) : string := replace_invalid_loop 0 s.

(** The general configuration with its strings so replaced. *)
Definition ConfigGeneralSettings_replace_invalid (x : ConfigGeneralSettings)
  : ConfigGeneralSettings :=
  {| AllowLan := AllowLan x;
     BindAddress := option_map replace_invalid (BindAddress x);
     LogLevel := option_map replace_invalid (LogLevel x);
     Port := Port x; SocksPort := SocksPort x; MixedPort := MixedPort x;
     RedirPort := RedirPort x; TProxyPort := TProxyPort x |}.

(** ** Vocabulary of JSON texts *)

(** The grammar of RFC 8259, read on bytes. *)

(** White space: space, tab, line feed, carriage return. *)
Definition white (c : ascii) : bool :=
  (c =? " ")%char || (byte_val c =? 9) || (byte_val c =? 10) || (byte_val c =? 13).

Definition blank (s : string) : bool := all_bytes white s.

Definition digits (s : string) : bool := all_bytes (in_range "0" "9") s.

Definition hex_digit (c : ascii) : bool :=
  in_range "0" "9" c || in_range "a" "f" c || in_range "A" "F" c.

(** The byte after a backslash, other than [u]. *)
Definition simple_escape (c : ascii) : bool :=
  (c =? dquote)%char || (c =? "\")%char || (c =? "/")%char || (c =? "b")%char
  || (c =? "f")%char || (c =? "n")%char || (c =? "r")%char || (c =? "t")%char.

(** A byte that stands for itself in a string: any byte from 0x20 up other
    than the quotation mark and the backslash (bytes that are not valid
    UTF-8 included). *)
Definition string_byte (c : ascii) : bool :=
  (0x20 <=? byte_val c) && negb (c =? dquote)%char && negb (c =? "\")%char.

(** What follows the opening quotation mark of a string, the closing one
    included. *)
Inductive in_string : string -> Prop :=
| in_string_end : in_string (str1 dquote)
| in_string_byte c t :
    string_byte c = true -> in_string t -> in_string (String c t)
| in_string_escape c t :
    simple_escape c = true -> in_string t -> in_string (String "\" (String c t))
| in_string_hex h1 h2 h3 h4 t :
    hex_digit h1 = true -> hex_digit h2 = true -> hex_digit h3 = true ->
    hex_digit h4 = true -> in_string t ->
    in_string (String "\" (String "u" (String h1 (String h2 (String h3 (String h4 t)))))).

Definition jstring (s : string) : Prop :=
  exists body, s = String dquote body /\ in_string body.

(** number = [ minus ] int [ frac ] [ exp ] *)
Definition jint (s : string) : Prop :=
  s = "0" \/ exists c t, s = String c t /\ in_range "1" "9" c = true /\ digits t = true.

Definition jfrac (s : string) : Prop :=
  s = "" \/ exists ds, s = String "." ds /\ ds <> "" /\ digits ds = true.

Definition jsign (s : string) : Prop := s = "" \/ s = "+" \/ s = "-".

Definition jexp (s : string) : Prop :=
  s = ""
  \/ exists e sign ds,
       s = String e (sign ++ ds) /\ (e = "e" \/ e = "E")%char /\ jsign sign
       /\ ds <> "" /\ digits ds = true.

Definition jnumber (s : string) : Prop :=
  exists m i f e,
    s = m ++ i ++ f ++ e /\ (m = "" \/ m = "-") /\ jint i /\ jfrac f /\ jexp e.

(** The values; [array_tail] and [object_tail] are what follows an
    element of an array and a member of an object, the closing bracket
    included. *)
Inductive jvalue : string -> Prop :=
| jvalue_null : jvalue "null"
| jvalue_true : jvalue "true"
| jvalue_false : jvalue "false"
| jvalue_string s : jstring s -> jvalue s
| jvalue_number s : jnumber s -> jvalue s
| jvalue_array_empty w : blank w = true -> jvalue (String "[" (w ++ "]"))
| jvalue_array w v t :
    blank w = true -> jvalue v -> array_tail t -> jvalue (String "[" (w ++ v ++ t))
| jvalue_object_empty w : blank w = true -> jvalue (String "{" (w ++ "}"))
| jvalue_object w k w1 w2 v t :
    blank w = true -> jstring k -> blank w1 = true -> blank w2 = true ->
    jvalue v -> object_tail t ->
    jvalue (String "{" (w ++ k ++ w1 ++ String ":" (w2 ++ v ++ t)))
with array_tail : string -> Prop :=
| array_tail_end w : blank w = true -> array_tail (w ++ "]")
| array_tail_next w w' v t :
    blank w = true -> blank w' = true -> jvalue v -> array_tail t ->
    array_tail (w ++ String "," (w' ++ v ++ t))
with object_tail : string -> Prop :=
| object_tail_end w : blank w = true -> object_tail (w ++ "}")
| object_tail_next w w' k w1 w2 v t :
    blank w = true -> blank w' = true -> jstring k -> blank w1 = true ->
    blank w2 = true -> jvalue v -> object_tail t ->
    object_tail (w ++ String "," (w' ++ k ++ w1 ++ String ":" (w2 ++ v ++ t))).

(** JSON-text = ws value ws *)
Definition jtext (s : string) : Prop :=
  exists w v w', s = w ++ v ++ w' /\ blank w = true /\ jvalue v /\ blank w' = true.

(** What the scanner has yet to read, by its state: [after ps r] says that
    [r] closes the arrays and objects of the parse stack [ps] and ends the
    text. *)
Fixpoint after (ps : list json.parseState) (r : string) : Prop :=
  match ps with
  | [] => blank r = true
  | json.parseArrayValue :: ps' =>
    exists t r', r = t ++ r' /\ array_tail t /\ after ps' r'
  | json.parseObjectValue :: ps' =>
    exists t r', r = t ++ r' /\ object_tail t /\ after ps' r'
  | json.parseObjectKey :: ps' =>
    exists w1 w2 v t r',
      r = w1 ++ String ":" (w2 ++ v ++ t ++ r') /\ blank w1 = true /\ blank w2 = true
      /\ jvalue v /\ object_tail t /\ after ps' r'
  end.

Definition value_then (ps : list json.parseState) (r : string) : Prop :=
  exists w v r', r = w ++ v ++ r' /\ blank w = true /\ jvalue v /\ after ps r'.

Definition key_then (ps : list json.parseState) (r : string) : Prop :=
  exists w k r', r = w ++ k ++ r' /\ blank w = true /\ jstring k /\ after ps r'.

(** The rest of a string, after the bytes [pre] of it. *)
Definition string_then (pre : string) (ps : list json.parseState) (r : string) : Prop :=
  exists b r', r = b ++ r' /\ in_string (pre ++ b) /\ after ps r'.

Definition scan_spec (st : json.stepFn) (ps : list json.parseState) (r : string) : Prop :=
  match st with
  | json.stateBeginValue => value_then ps r
  | json.stateBeginValueOrEmpty =>
    match ps with
    | json.parseArrayValue :: ps' =>
      (exists w r', r = w ++ String "]" r' /\ blank w = true /\ after ps' r')
      \/ value_then ps r
    | _ => True
    end
  | json.stateBeginString => key_then ps r
  | json.stateBeginStringOrEmpty =>
    match ps with
    | json.parseObjectKey :: ps' =>
      (exists w r', r = w ++ String "}" r' /\ blank w = true /\ after ps' r')
      \/ key_then ps r
    | _ => True
    end
  | json.stateEndValue => after ps r
  | json.stateEndTop => blank r = true
  | json.stateInString => string_then "" ps r
  | json.stateInStringEsc =>
    exists b r', r = b ++ r' /\ after ps r'
                 /\ ((exists c t, b = String c t /\ simple_escape c = true /\ in_string t)
                     \/ exists h1 h2 h3 h4 t,
                          b = String "u" (String h1 (String h2 (String h3 (String h4 t))))
                          /\ hex_digit h1 = true /\ hex_digit h2 = true
                          /\ hex_digit h3 = true /\ hex_digit h4 = true /\ in_string t)
  | json.stateInStringEscU =>
    exists h1 h2 h3 h4 t r',
      r = String h1 (String h2 (String h3 (String h4 (t ++ r'))))
      /\ hex_digit h1 = true /\ hex_digit h2 = true /\ hex_digit h3 = true
      /\ hex_digit h4 = true /\ in_string t /\ after ps r'
  | json.stateInStringEscU1 =>
    exists h2 h3 h4 t r',
      r = String h2 (String h3 (String h4 (t ++ r')))
      /\ hex_digit h2 = true /\ hex_digit h3 = true /\ hex_digit h4 = true
      /\ in_string t /\ after ps r'
  | json.stateInStringEscU12 =>
    exists h3 h4 t r',
      r = String h3 (String h4 (t ++ r'))
      /\ hex_digit h3 = true /\ hex_digit h4 = true /\ in_string t /\ after ps r'
  | json.stateInStringEscU123 =>
    exists h4 t r',
      r = String h4 (t ++ r') /\ hex_digit h4 = true /\ in_string t /\ after ps r'
  | json.stateNeg =>
    exists i f e r', r = i ++ f ++ e ++ r' /\ jint i /\ jfrac f /\ jexp e /\ after ps r'
  | json.state0 =>
    exists f e r', r = f ++ e ++ r' /\ jfrac f /\ jexp e /\ after ps r'
  | json.state1 =>
    exists ds f e r',
      r = ds ++ f ++ e ++ r' /\ digits ds = true /\ jfrac f /\ jexp e /\ after ps r'
  | json.stateDot =>
    exists ds e r',
      r = ds ++ e ++ r' /\ ds <> "" /\ digits ds = true /\ jexp e /\ after ps r'
  | json.stateDot0 =>
    exists ds e r', r = ds ++ e ++ r' /\ digits ds = true /\ jexp e /\ after ps r'
  | json.stateE =>
    exists sign ds r',
      r = sign ++ ds ++ r' /\ jsign sign /\ ds <> "" /\ digits ds = true /\ after ps r'
  | json.stateESign =>
    exists ds r', r = ds ++ r' /\ ds <> "" /\ digits ds = true /\ after ps r'
  | json.stateE0 =>
    exists ds r', r = ds ++ r' /\ digits ds = true /\ after ps r'
  | json.stateT => exists r', r = "rue" ++ r' /\ after ps r'
  | json.stateTr => exists r', r = "ue" ++ r' /\ after ps r'
  | json.stateTru => exists r', r = "e" ++ r' /\ after ps r'
  | json.stateF => exists r', r = "alse" ++ r' /\ after ps r'
  | json.stateFa => exists r', r = "lse" ++ r' /\ after ps r'
  | json.stateFal => exists r', r = "se" ++ r' /\ after ps r'
  | json.stateFals => exists r', r = "e" ++ r' /\ after ps r'
  | json.stateN => exists r', r = "ull" ++ r' /\ after ps r'
  | json.stateNu => exists r', r = "ll" ++ r' /\ after ps r'
  | json.stateNul => exists r', r = "l" ++ r' /\ after ps r'
  | json.stateError => False
  end.

(** A scanner on its way: no error so far, and the top-level value is over
    only in [stateEndTop]. *)
Definition scanning (s : json.scanner) : Prop :=
  json.err s = None /\ json.step s <> json.stateError
  /\ (json.endTop s = true -> json.step s = json.stateEndTop).

(** ** Vocabulary of the top-level value *)

(** The first byte of the text that is not white space. *)
Fixpoint first_byte (s : string) : option ascii :=
  match s with
  | EmptyString => None
  | String c t => if white c then first_byte t else Some c
  end.

(** The text without the white space it begins with. *)
Fixpoint trim_left (s : string) : string :=
  match s with
  | EmptyString => EmptyString
  | String c t => if white c then trim_left t else s
  end.

(** The text is [null] with white space around it. *)
Definition null_text (s : string) : bool :=
  match trim_left s with
  | String "n" (String "u" (String "l" (String "l" w))) => blank w
  | _ => false
  end.

(** The scanner states inside a literal and after one. *)
Definition lit_state (st : json.stepFn) : bool :=
  match st with
  | json.stateBeginValueOrEmpty | json.stateBeginValue | json.stateBeginStringOrEmpty
  | json.stateBeginString | json.stateEndTop | json.stateError => false
  | _ => true
  end.

Definition is_array (f : json.frame) : bool :=
  match f with
  | json.FArray _ => true
  | json.FObject _ _ => false
  end.

(** The decoder reads a top-level literal that began with the byte [c0]. *)
Definition lit_phase (c0 : ascii) (d : json.decodeState) : Prop :=
  json.open_ d = [] /\ json.top d = None /\ json.parseStack (json.scan d) = []
  /\ lit_state (json.step (json.scan d)) = true
  /\ exists l, json.literal d = Some (String c0 l).

(** The decoder is inside a top-level array: the outermost of the open
    frames is an array, and there are as many as the scanner has parse
    states. *)
Definition arr_phase (d : json.decodeState) : Prop :=
  json.top d = None
  /\ (exists ks, map is_array (json.open_ d) = (ks ++ [true])%list
                 /\ S (List.length ks) = List.length (json.parseStack (json.scan d)))
  /\ json.step (json.scan d) <> json.stateEndTop
  /\ json.step (json.scan d) <> json.stateError
  /\ json.endTop (json.scan d) = false.

(** The decoder has the top-level value [v] and is after it. *)
Definition done_phase (v : json.value) (d : json.decodeState) : Prop :=
  json.top d = Some v /\ json.literal d = None /\ json.open_ d = []
  /\ json.step (json.scan d) = json.stateEndTop.

(** The text does not begin, after white space, with a brace, and is not
    [null]. *)
Definition other_value (s : string) : bool :=
  match first_byte s with
  | Some c => negb (c =? "{")%char && negb (null_text s)
  | None => true
  end.

(** ** Vocabulary of objects of scalars *)

(** A JSON value that is no array and no object, a number being an
    integer. *)
Inductive scalar :=
| SNull
| SBool (b : bool)
| SString (s : string)
| SInt (z : Z).

(** Its text: the literal, the string quoted, the integer in decimal. *)
Definition scalar_text (v : scalar) : string :=
  match v with
  | SNull => "null"
  | SBool b => bool_text b
  | SString s => quote_text s
  | SInt z => strconv.FormatInt z
  end.

Definition scalar_member (kv : string * scalar) : member :=
  (fst kv, scalar_text (snd kv), json.literal_value (scalar_text (snd kv))).

(** The text of the object with these members, without white space. *)
Definition object_text (ms : list (string * scalar)) : string :=
  members_text (map scalar_member ms) "{".

(** The key is valid UTF-8 and the integer is in the range of [int]. *)
Definition scalar_ok (kv : string * scalar) : Prop :=
  utf8.ValidString (fst kv) = true
  /\ match snd kv with
     | SInt z => is_int z
     | _ => True
     end.

(** The value suits the field of [ConfigGeneralSettings] with the tag [n]:
    [null] suits every field, a bool [allowLan] (a [*bool]), a string
    [bindAddress] and [logLevel] (each a [*string]), an integer the five
    ports (each an [*int]). *)
Definition fits (n : string) (v : scalar) : bool :=
  match v with
  | SNull => true
  | SBool _ => (n =? "allowLan")%string
  | SString _ => (n =? "bindAddress")%string || (n =? "logLevel")%string
  | SInt _ =>
    negb ((n =? "allowLan")%string || (n =? "bindAddress")%string
          || (n =? "logLevel")%string)
  end.

(** The key of the member is the tag of a field that its value does not
    suit. *)
Definition misfit (kv : string * scalar) : bool :=
  existsb (String.eqb (fst kv)) ConfigGeneralSettings_names
  && negb (fits (fst kv) (snd kv)).

(** ** Vocabulary of the refusal *)

(** The action answers a decode that failed: [result] is an error, whose
    text is not empty, and the one message posted, to [port], is the
    failure envelope with that text as message and empty data. *)
Definition refuses (EngineState : Type) (port : Z) (result : option json.error)
  (a : Action EngineState unit) : Prop :=
  exists err,
    result = Some err /\ json.Error err <> ""
    /\ sends_only EngineState port
         {| Success := false; Message := json.Error err; Data := "" |} a.

(** * Properties *)

(** ** The library functions on examples *)

Example FormatInt_8080 : strconv.FormatInt 8080 = "8080".
Proof. reflexivity. Qed.

Example FormatInt_neg : strconv.FormatInt (-15) = "-15".
Proof. reflexivity. Qed.

Example ParseInt_8080 : strconv.ParseInt "8080" = inl 8080.
Proof. reflexivity. Qed.

Example DecodeRune_euro :
  utf8.DecodeRune (String (byte_of 0xE2) (String (byte_of 0x82) (String (byte_of 0xAC) "x")))
  = (0x20AC, 3).
Proof. reflexivity. Qed.

Example EncodeRune_euro :
  utf8.EncodeRune 0x20AC = String (byte_of 0xE2) (String (byte_of 0x82) (String (byte_of 0xAC) "")).
Proof. reflexivity. Qed.

Example checkValid_not_json :
  json.checkValid "not-json"
  = Some {| json.msg := "invalid character 'o' in literal null (expecting 'u')";
            json.Offset := 2 |}.
Proof. reflexivity. Qed.

Example checkValid_nested_text :
  json.checkValid (sq "{ 'a' : [1, 2.5e3, true, null], 'b': {} }") = None.
Proof. reflexivity. Qed.

Example appendString_escapes :
  json.appendString (sq "a<b'c" ++ str1 (byte_of 10) ++ str1 (byte_of 0xFF)) true
  = sq "'a\u003cb\'c\n\ufffd'".
Proof. reflexivity. Qed.

Example unquote_escapes :
  json.unquoteBytes (sq "'a\u003cb\'c\n\u00e9\ud83d\ude00\ud83dx'")
  = Some (sq "a<b'c" ++ str1 (byte_of 10) ++ utf8.EncodeRune 0xE9
          ++ utf8.EncodeRune 0x1F600 ++ utf8.EncodeRune 0xFFFD ++ "x").
Proof. reflexivity. Qed.

Example getGeneralConfig_data :
  json.Marshal (ConfigGeneralSettings_reflect
    {| AllowLan := Some true; BindAddress := Some "0.0.0.0"; LogLevel := None;
       Port := Some 8080; SocksPort := None; MixedPort := None;
       RedirPort := None; TProxyPort := None |})
  = inl (sq "{'allowLan':true,'bindAddress':'0.0.0.0','port':8080}").
Proof. reflexivity. Qed.

Example decode_nested :
  json.decode (sq " { 'a' : [1, -2.5e3, true, null, 'x\ny'], 'b': {'c':{}} , 'a': [] } ")
  = json.JObject
      [ ("a", json.JArray [json.JNumber "1"; json.JNumber "-2.5e3"; json.JBool true;
                            json.JNull; json.JString ("x" ++ str1 (byte_of 10) ++ "y")]);
        ("b", json.JObject [("c", json.JObject [])]);
        ("a", json.JArray []) ].
Proof. reflexivity. Qed.

Example decode_number : json.decode " 12 " = json.JNumber "12".
Proof. reflexivity. Qed.

Example decode_number_eof : json.decode "12" = json.JNumber "12".
Proof. reflexivity. Qed.

Example Unmarshal_general_fold :
  Unmarshal_ConfigGeneralSettings (sq "{'PORT': 1, 'allowlan': false, 'x': [1,{}], 'loglevel': null, 'bindAddress': 'h'}")
    ConfigGeneralSettings_zero
  = ({| AllowLan := Some false; BindAddress := Some "h"; LogLevel := None;
        Port := Some 1; SocksPort := None; MixedPort := None; RedirPort := None;
        TProxyPort := None |}, None).
Proof. reflexivity. Qed.

Example Unmarshal_general_type_error :
  option_map json.Error
    (snd (Unmarshal_ConfigGeneralSettings (sq "{'port': 'x', 'allowLan': 3}")
            ConfigGeneralSettings_zero))
  = Some "json: cannot unmarshal string into Go struct field ConfigGeneralSettings.port of type int".
Proof. reflexivity. Qed.

(** ** The dispatch functions *)

Section BridgeFacts.

Variable float64_range_error : string -> bool.
Variable EngineState : Type.

Lemma range_list_skip (l : list (string * json.value))
  (body : string -> json.value -> Action EngineState unit) (w : World EngineState) :
  (forall k v w', body k v w' = (tt, w')) ->
  range_list l body w = (tt, w).
Proof.
  intros Hbody. induction l as [|[k v] l IH]; simpl.
  - reflexivity.
  - unfold bind. rewrite Hbody. exact IH.
Qed.

Lemma range_skip (m : GoMap) (body : string -> json.value -> Action EngineState unit) (w : World EngineState) :
  (forall k v w', body k v w' = (tt, w')) ->
  range m body w = (tt, w).
Proof. apply range_list_skip. Qed.

Lemma exclusive_failure m : exclusive (failure m).
Proof. split; [discriminate | reflexivity]. Qed.

Lemma exclusive_success d : exclusive (success d).
Proof. split; [reflexivity | discriminate]. Qed.

(** What each function sends, by the outcome of its guards and of the
    calls into [encoding/json]. *)

Lemma getGeneralConfig_sends port :
  sends_only EngineState port
    (success (sq "{'allowLan':true,'bindAddress':'0.0.0.0','port':8080}"))
    (getGeneralConfig port).
Proof. intros w. reflexivity. Qed.

Lemma patchGeneralConfig_sends port patchStr :
  sends_only EngineState port
    match snd (Unmarshal_ConfigGeneralSettings (C_GoString patchStr)
                 ConfigGeneralSettings_zero) with
    | Some err => failure (json.Error err)
    | None => success ""
    end
    (patchGeneralConfig port patchStr).
Proof.
  intros w. unfold patchGeneralConfig.
  destruct (Unmarshal_ConfigGeneralSettings _ _) as [general [err|]]; simpl.
  - reflexivity.
  - destruct (AllowLan general), (BindAddress general), (Port general),
      (LogLevel general); reflexivity.
Qed.

Lemma updateRemoteConfig_sends port remoteName configData :
  sends_only EngineState port
    match snd (Unmarshal_map float64_range_error (C_GoString configData) None) with
    | Some err => failure (json.Error err)
    | None => success ""
    end
    (updateRemoteConfig float64_range_error port remoteName configData).
Proof.
  intros w. unfold updateRemoteConfig.
  destruct (Unmarshal_map _ _ _) as [remoteConfig [err|]]; simpl.
  - reflexivity.
  - unfold run, bind. rewrite range_skip by reflexivity. reflexivity.
Qed.

Lemma updateSimpleData_sends port jsonInput :
  sends_only EngineState port
    match snd (Unmarshal_map float64_range_error (C_GoString jsonInput) None) with
    | Some err => failure (json.Error err)
    | None => success ""
    end
    (updateSimpleData float64_range_error port jsonInput).
Proof.
  intros w. unfold updateSimpleData.
  destruct (Unmarshal_map _ _ _) as [config [err|]]; simpl.
  - reflexivity.
  - unfold run, bind. rewrite range_skip by reflexivity. reflexivity.
Qed.

Lemma deleteRemote_sends port remoteName :
  sends_only EngineState port (success "") (deleteRemote port remoteName).
Proof. intros w. reflexivity. Qed.

Lemma deleteItem_sends port itemID :
  sends_only EngineState port
    (if (C_GoString itemID =? "")%string then failure "itemID cannot be empty"
     else success "")
    (deleteItem port itemID).
Proof.
  intros w. unfold deleteItem. destruct (C_GoString itemID =? "")%string; reflexivity.
Qed.

Lemma deleteItem_rejects_empty port itemID :
  C_GoString itemID = "" ->
  sends_only EngineState port
    {| Success := false; Message := "itemID cannot be empty"; Data := "" |}
    (deleteItem port itemID).
Proof. intros H w. rewrite (deleteItem_sends port itemID w), H. reflexivity. Qed.

Lemma processData_sends port source destination :
  sends_only EngineState port
    (if (C_GoString source =? "")%string || (C_GoString destination =? "")%string
     then failure "source and destination cannot be empty"
     else success "")
    (processData port source destination).
Proof.
  intros w. unfold processData.
  destruct ((C_GoString source =? "")%string || (C_GoString destination =? "")%string);
    reflexivity.
Qed.

Lemma getRemoteConfig_sends port remoteName :
  sends_only EngineState port
    (success (sq "{'name':" ++ json.appendString (C_GoString remoteName) true
                ++ sq ",'type':'s3','url':'https://example.com'}"))
    (getRemoteConfig port remoteName).
Proof.
  intros w. unfold getRemoteConfig, json.Marshal.
  remember (json.appendString (C_GoString remoteName) true) as quoted eqn:E.
  cbn -[json.appendString]. rewrite <- E. reflexivity.
Qed.

Lemma getSimpleData_sends port :
  sends_only EngineState port (success (sq "{'count':42,'key':'value'}"))
    (getSimpleData port).
Proof. intros w. reflexivity. Qed.

Lemma getDataByName_sends port name :
  sends_only EngineState port
    (if (C_GoString name =? "")%string
     then failure "name parameter cannot be empty"
     else success (sq "{'data':"
                     ++ json.appendString ("result for " ++ C_GoString name) true
                     ++ sq ",'name':" ++ json.appendString (C_GoString name) true
                     ++ "}"))
    (getDataByName port name).
Proof.
  intros w. unfold getDataByName, json.Marshal.
  destruct (C_GoString name =? "")%string; [reflexivity|].
  remember (json.appendString (C_GoString name) true) as quoted eqn:E.
  remember (json.appendString ("result for " ++ C_GoString name) true) as quoted' eqn:E'.
  cbn -[json.appendString String.append].
  rewrite <- E, <- E'. reflexivity.
Qed.

End BridgeFacts.

(** ** The text of decode errors *)

Ltac break_branches :=
  repeat match goal with
         | |- context [if ?b then _ else _] => destruct b
         | |- context [match ?x with _ => _ end] => destruct x
         end.

Lemma scanner_error_has_text s c context :
  err_has_text (json.err (fst (json.scanner_error s c context))).
Proof. intros e H. injection H as <-. discriminate. Qed.

Lemma run_stateEndTop_has_text s c :
  err_has_text (json.err s) -> err_has_text (json.err (fst (json.run_stateEndTop s c))).
Proof.
  intros H. unfold json.run_stateEndTop.
  destruct (negb (json.isSpace c)); [apply scanner_error_has_text | exact H].
Qed.

Lemma popParseState_has_text s :
  err_has_text (json.err s) -> err_has_text (json.err (json.popParseState s)).
Proof. intros H. unfold json.popParseState. destruct (tl _); exact H. Qed.

Lemma pushParseState_has_text s c ps op :
  err_has_text (json.err s) ->
  err_has_text (json.err (fst (json.pushParseState s c ps op))).
Proof.
  intros H. unfold json.pushParseState.
  destruct (_ <=? _); [exact H | apply scanner_error_has_text].
Qed.

Lemma run_stateEndValue_has_text s c :
  err_has_text (json.err s) -> err_has_text (json.err (fst (json.run_stateEndValue s c))).
Proof.
  intros H. unfold json.run_stateEndValue.
  destruct (json.parseStack s) as [|ps rest].
  - apply run_stateEndTop_has_text. exact H.
  - destruct (json.isSpace c); [exact H|].
    destruct ps; break_branches;
      first [ exact H | apply scanner_error_has_text
            | apply popParseState_has_text; exact H ].
Qed.

Lemma run_step_has_text s c :
  err_has_text (json.err s) -> err_has_text (json.err (fst (json.run_step s c))).
Proof.
  intros H. unfold json.run_step.
  destruct (json.step s);
    unfold json.run_stateBeginValueOrEmpty, json.run_stateBeginStringOrEmpty,
      json.run_stateBeginValue, json.run_stateBeginString, json.run_stateInString,
      json.run_stateInStringEsc, json.run_hex, json.run_stateNeg, json.run_state1,
      json.run_state0, json.run_stateDot, json.run_stateDot0, json.run_stateE,
      json.run_stateESign, json.run_stateE0, json.run_literal;
    break_branches;
    first [ exact H
          | apply scanner_error_has_text
          | apply run_stateEndValue_has_text; exact H
          | apply run_stateEndTop_has_text; exact H
          | apply pushParseState_has_text; exact H ].
Qed.

Lemma eof_has_text s :
  err_has_text (json.err s) -> err_has_text (json.eof s).
Proof.
  intros H e. unfold json.eof.
  destruct (json.err s) as [e0|] eqn:E.
  - intros [= <-]. apply H. reflexivity.
  - destruct (json.endTop s); [discriminate|].
    pose proof (run_step_has_text s " ") as H'.
    destruct (json.endTop (fst (json.run_step s " "))); [discriminate|].
    destruct (json.err (fst (json.run_step s " "))) as [e1|] eqn:E1.
    + intros [= <-]. apply H'; [|reflexivity]. rewrite E. discriminate.
    + intros [= <-]. discriminate.
Qed.

Lemma checkValid_loop_has_text data s :
  err_has_text (json.err s) -> err_has_text (json.checkValid_loop data s).
Proof.
  revert s. induction data as [|c rest IH]; intros s H; simpl.
  - apply eof_has_text. exact H.
  - pose proof (run_step_has_text (json.count_byte s) c H) as H'.
    destruct (json.run_step (json.count_byte s) c) as [s' op]. simpl in H'.
    destruct op; try (apply IH; exact H'). exact H'.
Qed.

Lemma checkValid_has_text data : err_has_text (json.checkValid data).
Proof. apply checkValid_loop_has_text. discriminate. Qed.

Lemma Error_nonempty e : has_text e -> json.Error e <> "".
Proof.
  destruct e as [se|te|typ]; simpl.
  - auto.
  - intros _. destruct (_ || _); discriminate.
  - intros _. discriminate.
Qed.

Lemma saveError_has_text saved e :
  (forall x, saved = Some x -> has_text x) ->
  forall x, json.saveError saved e = Some x -> has_text x.
Proof.
  intros H x. unfold json.saveError. destruct saved as [y|].
  - intros [= <-]. apply H. reflexivity.
  - destruct e; [intros [= <-]; exact I | discriminate].
Qed.

Lemma ConfigGeneralSettings_object_has_text ms x saved :
  (forall e, saved = Some e -> has_text e) ->
  forall e, snd (ConfigGeneralSettings_object ms x saved) = Some e -> has_text e.
Proof.
  revert x saved. induction ms as [|[key v] rest IH]; intros x saved H; simpl.
  - exact H.
  - destruct (ConfigGeneralSettings_store key v x) as [x' e'].
    apply IH. apply saveError_has_text. exact H.
Qed.

Lemma Unmarshal_ConfigGeneralSettings_has_text data x e :
  snd (Unmarshal_ConfigGeneralSettings data x) = Some e -> has_text e.
Proof.
  unfold Unmarshal_ConfigGeneralSettings.
  pose proof (checkValid_has_text data) as H.
  destruct (json.checkValid data) as [se|].
  - intros [= <-]. apply H. reflexivity.
  - destruct (json.decode data); simpl; try (intros [= <-]; exact I); try discriminate.
    apply ConfigGeneralSettings_object_has_text. discriminate.
Qed.

Lemma Unmarshal_map_has_text float64_range_error data m e :
  snd (Unmarshal_map float64_range_error data m) = Some e -> has_text e.
Proof.
  unfold Unmarshal_map.
  pose proof (checkValid_has_text data) as H.
  destruct (json.checkValid data) as [se|].
  - intros [= <-]. apply H. reflexivity.
  - destruct (json.decode data); cbn [snd];
      try (intros [= <-]; exact I); try discriminate.
    apply saveError_has_text. discriminate.
Qed.

(** ** Encoding never fails on the general configuration *)

Lemma encode_struct_ok (fs : list (json.field * json.rvalue)) :
  Forall (fun fv => exists t, json.encode (snd fv) = inl t) fs ->
  exists t, json.encode (json.VStruct fs) = inl t.
Proof.
  intros H. simpl.
  match goal with
  | |- exists t, ?F fs _ = inl t => enough (forall next, exists t, F fs next = inl t) by auto
  end.
  induction H as [|[f v] fs [t Ht] _ IH]; intros next.
  - eexists. reflexivity.
  - simpl in Ht. destruct (json.omitEmpty f && json.isEmptyValue v).
    + apply IH.
    + rewrite Ht. destruct (IH ",") as [more Hmore]. rewrite Hmore.
      eexists. reflexivity.
Qed.

Lemma encode_ptr_ok {A} (f : A -> json.rvalue) (p : option A) :
  (forall a, exists t, json.encode (f a) = inl t) ->
  exists t, json.encode (reflect_ptr f p) = inl t.
Proof.
  intros H. destruct p as [a|]; simpl; [apply H | eexists; reflexivity].
Qed.

Lemma Marshal_ConfigGeneralSettings_ok (x : ConfigGeneralSettings) :
  exists data, json.Marshal (ConfigGeneralSettings_reflect x) = inl data.
Proof.
  apply encode_struct_ok.
  repeat (constructor; [apply encode_ptr_ok; intros a; eexists; reflexivity|]).
  constructor.
Qed.

(** ** Bytes *)

Lemma byte_val_range c : 0 <= byte_val c < 256.
Proof.
  unfold byte_val. pose proof (N_ascii_bounded c). lia.
Qed.

Lemma byte_of_val c : byte_of (byte_val c) = c.
Proof.
  unfold byte_of, byte_val. pose proof (N_ascii_bounded c).
  rewrite Z.mod_small by lia. rewrite N2Z.id. apply ascii_N_embedding.
Qed.

Lemma byte_val_of z : byte_val (byte_of z) = z mod 256.
Proof.
  unfold byte_of, byte_val. pose proof (Z.mod_pos_bound z 256 ltac:(lia)).
  rewrite N_ascii_embedding by lia. lia.
Qed.

Lemma byte_val_inj c d : byte_val c = byte_val d -> c = d.
Proof. intros H. rewrite <- (byte_of_val c), <- (byte_of_val d), H. reflexivity. Qed.

Lemma ascii_eqb_val c d : (c =? d)%char = (byte_val c =? byte_val d).
Proof.
  destruct (Ascii.eqb_spec c d) as [->|N].
  - symmetry. apply Z.eqb_refl.
  - symmetry. apply Z.eqb_neq. intros H. apply N, byte_val_inj, H.
Qed.

(** ** Bit operations as arithmetic *)

Lemma land_mul_pow2_low hi lo k :
  0 <= k -> 0 <= lo < 2 ^ k -> Z.land (hi * 2 ^ k) lo = 0.
Proof.
  intros Hk Hlo. apply Z.bits_inj'. intros n Hn.
  rewrite Z.land_spec, Z.bits_0.
  destruct (Z.lt_ge_cases n k) as [L|G].
  - rewrite Z.mul_pow2_bits_low by exact L. reflexivity.
  - rewrite <- (Z.mod_small lo (2 ^ k)) by exact Hlo.
    rewrite Z.mod_pow2_bits_high by lia. apply andb_false_r.
Qed.

Lemma lor_mul_pow2 hi lo k :
  0 <= k -> 0 <= lo < 2 ^ k -> Z.lor (hi * 2 ^ k) lo = hi * 2 ^ k + lo.
Proof.
  intros Hk Hlo. pose proof (Z.add_lor_land (hi * 2 ^ k) lo) as H.
  rewrite land_mul_pow2_low in H by assumption. lia.
Qed.

Lemma lor_const (c k x : Z) (hi : Z) :
  c = hi * 2 ^ k -> 0 <= k -> 0 <= x < 2 ^ k -> Z.lor c x = c + x.
Proof. intros -> Hk Hx. apply lor_mul_pow2; assumption. Qed.

Lemma land_mask x k m : m = Z.ones k -> 0 <= k -> Z.land x m = x mod 2 ^ k.
Proof. intros -> Hk. apply Z.land_ones, Hk. Qed.

(** ** Strings *)

Lemma append_assoc (a b c : string) : (a ++ b) ++ c = a ++ (b ++ c).
Proof. induction a as [|x a IH]; simpl; [reflexivity | f_equal; exact IH]. Qed.

Lemma append_nil_r (a : string) : a ++ "" = a.
Proof. induction a as [|x a IH]; simpl; [reflexivity | f_equal; exact IH]. Qed.

Lemma length_append (a b : string) :
  String.length (a ++ b) = (String.length a + String.length b)%nat.
Proof. induction a as [|x a IH]; simpl; [reflexivity | f_equal; exact IH]. Qed.

Lemma string_take_length n s :
  (n <= String.length s)%nat -> String.length (string_take n s) = n.
Proof.
  revert s. induction n as [|n IH]; intros [|c t] L; simpl in *; try reflexivity; try lia.
  rewrite IH by lia. reflexivity.
Qed.

Lemma string_take_app a b : string_take (String.length a) (a ++ b) = a.
Proof. induction a as [|x a IH]; simpl; [destruct b; reflexivity | f_equal; exact IH]. Qed.

Lemma string_drop_app a b : string_drop (String.length a) (a ++ b) = b.
Proof. induction a as [|x a IH]; simpl; [reflexivity | exact IH]. Qed.

Ltac zbool :=
  match goal with
  | |- context [?a <? ?b] => destruct (Z.ltb_spec a b)
  | |- context [?a <=? ?b] => destruct (Z.leb_spec a b)
  | |- context [?a =? ?b] => destruct (Z.eqb_spec a b)
  end.

Ltac zbools := repeat (zbool; try lia; cbn [orb andb negb]).

Lemma land_x3F b : 0 <= b < 256 -> 0x80 <= b <= 0xBF -> Z.land b utf8.maskx = b - 0x80.
Proof.
  intros _ H. unfold utf8.maskx. rewrite (land_mask b 6) by (reflexivity || lia).
  change (2 ^ 6) with 64. Z.div_mod_to_equations. lia.
Qed.

Lemma land_lead b m k base :
  m = Z.ones k -> 0 <= k -> base mod 2 ^ k = 0 -> base <= b < base + 2 ^ k ->
  Z.land b m = b - base.
Proof.
  intros -> Hk Hb H. rewrite Z.land_ones by exact Hk.
  assert (P : 0 < 2 ^ k) by (apply Z.pow_pos_nonneg; lia).
  pose proof (Z.div_mod base (2 ^ k) ltac:(lia)) as E. rewrite Hb, Z.add_0_r in E.
  replace b with (b - base + base / 2 ^ k * 2 ^ k) at 1 by lia.
  rewrite Z.mod_add by lia. apply Z.mod_small. lia.
Qed.

(** Settles the comparisons of the goal that [lia] decides. *)
Ltac zsolve :=
  repeat
    (match goal with
     | |- context [?a <? ?b] =>
       first [ replace (a <? b) with true by (symmetry; apply Z.ltb_lt; lia)
             | replace (a <? b) with false by (symmetry; apply Z.ltb_ge; lia) ]
     | |- context [?a <=? ?b] =>
       first [ replace (a <=? b) with true by (symmetry; apply Z.leb_le; lia)
             | replace (a <=? b) with false by (symmetry; apply Z.leb_gt; lia) ]
     | |- context [?a =? ?b] =>
       first [ replace (a =? b) with true by (symmetry; apply Z.eqb_eq; lia)
             | replace (a =? b) with false by (symmetry; apply Z.eqb_neq; lia) ]
     end; cbn [orb andb negb]).

Lemma first_1 b : b < 0x80 -> utf8.first b = utf8.as_.
Proof. intros. unfold utf8.first. zsolve. reflexivity. Qed.

Lemma first_bad b : 0x80 <= b < 0xC2 \/ 0xF4 < b -> utf8.first b = utf8.xx.
Proof. intros [H|H]; unfold utf8.first; zsolve; reflexivity. Qed.

Lemma first_2 b : 0xC2 <= b <= 0xDF -> utf8.first b = utf8.s1.
Proof. intros. unfold utf8.first. zsolve. reflexivity. Qed.

Lemma first_E0 : utf8.first 0xE0 = utf8.s2.
Proof. reflexivity. Qed.

Lemma first_3 b :
  0xE0 < b <= 0xEF -> b <> 0xED -> utf8.first b = utf8.s3.
Proof.
  intros. unfold utf8.first. zsolve.
  destruct (Z.ltb_spec b 237); zsolve; reflexivity.
Qed.

Lemma first_ED : utf8.first 0xED = utf8.s4.
Proof. reflexivity. Qed.

Lemma first_F0 : utf8.first 0xF0 = utf8.s5.
Proof. reflexivity. Qed.

Lemma first_4 b : 0xF0 < b < 0xF4 -> utf8.first b = utf8.s6.
Proof. intros. unfold utf8.first. zsolve. reflexivity. Qed.

Lemma first_F4 : utf8.first 0xF4 = utf8.s7.
Proof. reflexivity. Qed.

(** The arithmetic of the continuation bytes. *)
Lemma cont_payload b1 b2 : 
  0x80 <= b1 <= 0xBF -> 0x80 <= b2 <= 0xBF ->
  Z.lor (Z.shiftl (Z.land b1 utf8.maskx) 6) (Z.land b2 utf8.maskx)
  = (b1 - 0x80) * 64 + (b2 - 0x80).
Proof.
  intros H1 H2. rewrite !land_x3F by lia.
  rewrite Z.shiftl_mul_pow2 by lia. rewrite lor_mul_pow2 by lia. reflexivity.
Qed.

(** After [first] is known to be the constant [x]: the constants that
    depend on it are computed and the tests that [lia] decides are settled. *)
Ltac decode_with x :=
  let sz := eval vm_compute in (Z.land x 7) in
  let acc := eval vm_compute in (utf8.acceptRanges (Z.shiftr x 4)) in
  change (utf8.as_ <=? x) with false;
  change (Z.land x 7) with sz;
  change (utf8.acceptRanges (Z.shiftr x 4)) with acc;
  cbv zeta; cbn [fst snd]; unfold utf8.locb, utf8.hicb;
  simpl String.length;
  zsolve.

Lemma payload2 b0 b1 :
  0xC0 <= b0 <= 0xDF -> 0x80 <= b1 <= 0xBF ->
  Z.lor (Z.shiftl (Z.land b0 utf8.mask2) 6) (Z.land b1 utf8.maskx)
  = (b0 - 0xC0) * 64 + (b1 - 0x80).
Proof.
  intros H0 H1. rewrite land_x3F by lia.
  rewrite (land_lead b0 utf8.mask2 5 0xC0) by (reflexivity || lia).
  rewrite Z.shiftl_mul_pow2 by lia. rewrite lor_mul_pow2 by lia. reflexivity.
Qed.

Lemma payload3 b0 b1 b2 :
  0xE0 <= b0 <= 0xEF -> 0x80 <= b1 <= 0xBF -> 0x80 <= b2 <= 0xBF ->
  Z.lor (Z.lor (Z.shiftl (Z.land b0 utf8.mask3) 12)
               (Z.shiftl (Z.land b1 utf8.maskx) 6))
        (Z.land b2 utf8.maskx)
  = (b0 - 0xE0) * 4096 + (b1 - 0x80) * 64 + (b2 - 0x80).
Proof.
  intros H0 H1 H2. rewrite !land_x3F by lia.
  rewrite (land_lead b0 utf8.mask3 4 0xE0) by (reflexivity || lia).
  rewrite !Z.shiftl_mul_pow2 by lia.
  rewrite (lor_mul_pow2 (b0 - 224) ((b1 - 128) * 2 ^ 6) 12) by lia.
  replace ((b0 - 224) * 2 ^ 12 + (b1 - 128) * 2 ^ 6)
    with (((b0 - 224) * 64 + (b1 - 128)) * 2 ^ 6) by lia.
  rewrite lor_mul_pow2 by lia. lia.
Qed.

Lemma payload4 b0 b1 b2 b3 :
  0xF0 <= b0 <= 0xF7 -> 0x80 <= b1 <= 0xBF -> 0x80 <= b2 <= 0xBF ->
  0x80 <= b3 <= 0xBF ->
  Z.lor (Z.lor (Z.lor (Z.shiftl (Z.land b0 utf8.mask4) 18)
                      (Z.shiftl (Z.land b1 utf8.maskx) 12))
               (Z.shiftl (Z.land b2 utf8.maskx) 6))
        (Z.land b3 utf8.maskx)
  = (b0 - 0xF0) * 262144 + (b1 - 0x80) * 4096 + (b2 - 0x80) * 64 + (b3 - 0x80).
Proof.
  intros H0 H1 H2 H3. rewrite !land_x3F by lia.
  rewrite (land_lead b0 utf8.mask4 3 0xF0) by (reflexivity || lia).
  rewrite !Z.shiftl_mul_pow2 by lia.
  rewrite (lor_mul_pow2 (b0 - 240) ((b1 - 128) * 2 ^ 12) 18) by lia.
  replace ((b0 - 240) * 2 ^ 18 + (b1 - 128) * 2 ^ 12)
    with (((b0 - 240) * 64 + (b1 - 128)) * 2 ^ 12) by lia.
  rewrite (lor_mul_pow2 _ ((b2 - 128) * 2 ^ 6) 12) by lia.
  replace (((b0 - 240) * 64 + (b1 - 128)) * 2 ^ 12 + (b2 - 128) * 2 ^ 6)
    with ((((b0 - 240) * 64 + (b1 - 128)) * 64 + (b2 - 128)) * 2 ^ 6) by lia.
  rewrite lor_mul_pow2 by lia. lia.
Qed.

Lemma decodes_DecodeRune s r size : decodes s r size -> utf8.DecodeRune s = (r, size).
Proof.
  intros H. destruct H; unfold utf8.DecodeRune.
  - rewrite first_1 by assumption. reflexivity.
  - rewrite first_2 by assumption. decode_with utf8.s1.
    rewrite payload2 by lia. reflexivity.
  - destruct (Z.eq_dec (byte_val c0) 0xE0) as [E|N0];
      [|destruct (Z.eq_dec (byte_val c0) 0xED) as [E|N1]].
    + rewrite E, first_E0. decode_with utf8.s2.
      rewrite payload3 by lia. reflexivity.
    + rewrite E, first_ED. decode_with utf8.s4.
      rewrite payload3 by lia. reflexivity.
    + rewrite first_3 by lia. decode_with utf8.s3.
      rewrite payload3 by lia. reflexivity.
  - destruct (Z.eq_dec (byte_val c0) 0xF0) as [E|N0];
      [|destruct (Z.eq_dec (byte_val c0) 0xF4) as [E|N1]].
    + rewrite E, first_F0. decode_with utf8.s5.
      rewrite payload4 by lia. reflexivity.
    + rewrite E, first_F4. decode_with utf8.s7.
      rewrite payload4 by lia. reflexivity.
    + rewrite first_4 by lia. decode_with utf8.s6.
      rewrite payload4 by lia. reflexivity.
Qed.

Ltac zsplit :=
  repeat (zbool; cbn [orb andb negb]).

Lemma decode_result_invalid c t :
  0x80 <= byte_val c -> decode_result (String c t) utf8.RuneError 1.
Proof. intros H. right. left. repeat split. exists c, t. split; [reflexivity|exact H]. Qed.

Lemma decode_result_pair s p :
  decode_result s (fst p) (snd p) -> let '(r, size) := p in decode_result s r size.
Proof. destruct p. exact (fun H => H). Qed.

Ltac decode_multi x c1 t1 R1 :=
  change (utf8.as_ <=? x) with false; cbv zeta;
  let len := fresh "len" in
  destruct (_ <? _) eqn:len; [apply decode_result_invalid; lia|];
  destruct t1 as [|c1 t1]; [apply decode_result_invalid; lia|];
  pose proof (byte_val_range c1) as R1.

Ltac decode_next t c R :=
  destruct t as [|c t]; [apply decode_result_invalid; lia|];
  pose proof (byte_val_range c) as R;
  zsplit; try (apply decode_result_invalid; lia).

Ltac decode3 x t :=
  let c1 := fresh "c1" in let R1 := fresh "R1" in
  let c2 := fresh "c2" in let R2 := fresh "R2" in
  decode_multi x c1 t R1; decode_with x;
  zsplit; try (apply decode_result_invalid; lia);
  decode_next t c2 R2;
  right; right; rewrite payload3 by lia; constructor; lia.

Ltac decode4 x t :=
  let c1 := fresh "c1" in let R1 := fresh "R1" in
  let c2 := fresh "c2" in let R2 := fresh "R2" in
  let c3 := fresh "c3" in let R3 := fresh "R3" in
  decode_multi x c1 t R1; decode_with x;
  zsplit; try (apply decode_result_invalid; lia);
  decode_next t c2 R2; decode_next t c3 R3;
  right; right; rewrite payload4 by lia; constructor; lia.

Lemma DecodeRune_inv s :
  let '(r, size) := utf8.DecodeRune s in decode_result s r size.
Proof.
  destruct s as [|c0 t0]; [left; repeat split|].
  pose proof (byte_val_range c0) as R0.
  assert (C : byte_val c0 < 0x80 \/ (0x80 <= byte_val c0 < 0xC2 \/ 0xF4 < byte_val c0)
              \/ 0xC2 <= byte_val c0 <= 0xDF
              \/ byte_val c0 = 0xE0 \/ byte_val c0 = 0xED
              \/ (0xE0 < byte_val c0 <= 0xEF /\ byte_val c0 <> 0xED)
              \/ byte_val c0 = 0xF0 \/ byte_val c0 = 0xF4
              \/ 0xF0 < byte_val c0 < 0xF4) by lia.
  unfold utf8.DecodeRune.
  destruct C as [C|[C|[C|[C|[C|[C|[C|[C|C]]]]]]]].
  - rewrite first_1 by assumption. right. right. constructor. assumption.
  - rewrite first_bad by assumption. apply decode_result_invalid. lia.
  - rewrite first_2 by assumption.
    decode_multi utf8.s1 c1 t0 R1.
    decode_with utf8.s1. zsplit; try (apply decode_result_invalid; lia).
    right. right. rewrite payload2 by lia. constructor; lia.
  - replace (utf8.first (byte_val c0)) with utf8.s2 by (rewrite C; reflexivity).
    decode3 utf8.s2 t0.
  - replace (utf8.first (byte_val c0)) with utf8.s4 by (rewrite C; reflexivity).
    decode3 utf8.s4 t0.
  - rewrite first_3 by lia. decode3 utf8.s3 t0.
  - replace (utf8.first (byte_val c0)) with utf8.s5 by (rewrite C; reflexivity).
    decode4 utf8.s5 t0.
  - replace (utf8.first (byte_val c0)) with utf8.s7 by (rewrite C; reflexivity).
    decode4 utf8.s7 t0.
  - rewrite first_4 by lia. decode4 utf8.s6 t0.
Qed.

Ltac byte_ranges :=
  repeat match goal with
         | c : ascii |- _ =>
           lazymatch goal with
           | _ : 0 <= byte_val c < 256 |- _ => fail
           | _ => pose proof (byte_val_range c)
           end
         end.

Lemma decodes_range s r size :
  decodes s r size ->
  (size = 1 /\ 0 <= r < 0x80) \/ (size = 2 /\ 0x80 <= r <= 0x7FF)
  \/ (size = 3 /\ 0x800 <= r <= 0xFFFF /\ (r < 0xD800 \/ 0xDFFF < r))
  \/ (size = 4 /\ 0x10000 <= r <= 0x10FFFF).
Proof.
  intros H. destruct H;
    byte_ranges; lia.
Qed.

Lemma enc_lead base hi k x :
  base = hi * 2 ^ k -> 0 <= k -> 0 <= x < 2 ^ k -> x < 256 ->
  byte_of (Z.lor base (byte_val (byte_of x))) = byte_of (base + x).
Proof.
  intros -> Hk Hx Hb. rewrite byte_val_of, Z.mod_small by lia.
  rewrite lor_mul_pow2 by assumption. reflexivity.
Qed.

Lemma enc_cont y :
  byte_of (Z.lor utf8.tx (Z.land (byte_val (byte_of y)) utf8.maskx))
  = byte_of (0x80 + y mod 64).
Proof.
  rewrite byte_val_of. unfold utf8.maskx, utf8.tx.
  rewrite (land_mask _ 6) by (reflexivity || lia).
  change (2 ^ 6) with 64.
  rewrite (lor_const 0x80 6 _ 2) by (reflexivity || lia || (apply Z.mod_pos_bound; lia)).
  f_equal. f_equal. Z.div_mod_to_equations. lia.
Qed.

Lemma byte_of_eq z c : z = byte_val c -> byte_of z = c.
Proof. intros ->. apply byte_of_val. Qed.

Lemma EncodeRune_decodes s r size :
  decodes s r size -> utf8.EncodeRune r = string_take (Z.to_nat size) s.
Proof.
  intros H. pose proof (decodes_range _ _ _ H) as R.
  destruct H;
    byte_ranges; unfold utf8.EncodeRune; cbv zeta;
    rewrite Z.mod_small by (change (2 ^ 32) with 4294967296; lia);
    unfold utf8.rune1Max, utf8.rune2Max, utf8.rune3Max, utf8.MaxRune,
      utf8.surrogateMin, utf8.surrogateMax; zsolve.
  - change (Z.to_nat 1) with 1%nat. cbn [string_take]. unfold str1. f_equal.
    apply byte_of_val.
  - change (Z.to_nat 2) with 2%nat. cbn [string_take].
    rewrite Z.shiftr_div_pow2 by lia. change (2 ^ 6) with 64.
    rewrite (enc_lead utf8.t2 3 6) by
      (reflexivity || lia || (Z.div_mod_to_equations; lia)).
    rewrite enc_cont. unfold utf8.t2.
    f_equal; [|f_equal]; apply byte_of_eq; Z.div_mod_to_equations; lia.
  - change (Z.to_nat 3) with 3%nat. cbn [string_take]. unfold utf8.encode3.
    rewrite !Z.shiftr_div_pow2 by lia. change (2 ^ 6) with 64. change (2 ^ 12) with 4096.
    zsplit; try (exfalso; lia);
      rewrite (enc_lead utf8.t3 14 4) by
        (reflexivity || lia || (Z.div_mod_to_equations; lia));
      rewrite !enc_cont; unfold utf8.t3;
      (f_equal; [|f_equal; [|f_equal]]); apply byte_of_eq; Z.div_mod_to_equations; lia.
  - change (Z.to_nat 4) with 4%nat. cbn [string_take].
    rewrite !Z.shiftr_div_pow2 by lia. change (2 ^ 6) with 64. change (2 ^ 12) with 4096.
    change (2 ^ 18) with 262144.
    rewrite (enc_lead utf8.t4 30 3) by
      (reflexivity || lia || (Z.div_mod_to_equations; lia)).
    rewrite !enc_cont. unfold utf8.t4.
    f_equal; [|f_equal; [|f_equal; [|f_equal]]]; apply byte_of_eq;
      Z.div_mod_to_equations; lia.
Qed.

(** ** Strings as sequences of runes *)

Lemma string_take_drop n s : string_take n s ++ string_drop n s = s.
Proof.
  revert s. induction n as [|n IH]; intros [|c t]; simpl; try reflexivity.
  rewrite IH. reflexivity.
Qed.

Lemma string_drop_length n s :
  String.length (string_drop n s) = (String.length s - n)%nat.
Proof.
  revert s. induction n as [|n IH]; intros [|c t]; simpl; try reflexivity; try lia.
  apply IH.
Qed.

Lemma decodes_size s r size : decodes s r size -> 1 <= size <= 4.
Proof. intros H. destruct H; lia. Qed.

Lemma decodes_length s r size :
  decodes s r size -> (Z.to_nat size <= String.length s)%nat.
Proof. intros H. destruct H; simpl; lia. Qed.

(** The rest of the string does not matter. *)
Lemma decodes_tail s r size rest :
  decodes s r size -> decodes (string_take (Z.to_nat size) s ++ rest) r size.
Proof.
  intros H. destruct H.
  - change (Z.to_nat 1) with 1%nat. simpl. constructor; assumption.
  - change (Z.to_nat 2) with 2%nat. simpl. constructor; assumption.
  - change (Z.to_nat 3) with 3%nat. simpl. constructor; assumption.
  - change (Z.to_nat 4) with 4%nat. simpl. constructor; assumption.
Qed.

Lemma decodes_take4 s r size :
  decodes s r size -> decodes (string_take 4 s) r size.
Proof.
  intros H. destruct H.
  - simpl. constructor; assumption.
  - simpl. constructor; assumption.
  - simpl. constructor; assumption.
  - simpl. replace (string_take 0 t) with "" by (destruct t; reflexivity).
    constructor; assumption.
Qed.

Lemma decodes_of_take4 s r size :
  decodes (string_take 4 s) r size -> decodes s r size.
Proof.
  intros H.
  pose proof (decodes_tail _ _ _ (string_drop (Z.to_nat size) s) H) as H'.
  pose proof (decodes_size _ _ _ H) as Hs.
  replace (string_take (Z.to_nat size) (string_take 4 s) ++ string_drop (Z.to_nat size) s)
    with s in H'; [exact H'|].
  rewrite <- (string_take_drop (Z.to_nat size) s) at 1. f_equal.
  assert (G : forall n m t, (n <= m)%nat -> string_take n (string_take m t) = string_take n t).
  { induction n as [|n IH]; intros [|m] [|c u] L; simpl; try reflexivity; try lia.
    rewrite IH by lia. reflexivity. }
  symmetry. apply G. lia.
Qed.

Lemma DecodeRune_take4 s : utf8.DecodeRune (string_take 4 s) = utf8.DecodeRune s.
Proof.
  pose proof (DecodeRune_inv s) as H. pose proof (DecodeRune_inv (string_take 4 s)) as H4.
  destruct (utf8.DecodeRune s) as [r size] eqn:E.
  destruct (utf8.DecodeRune (string_take 4 s)) as [r4 size4] eqn:E4.
  destruct H as [[X [-> ->]]|[[-> [-> [c [t [X _]]]]]|D]].
  - subst s. simpl in E4. rewrite <- E4. reflexivity.
  - destruct H4 as [[X4 _]|[[-> [-> _]]|D4]].
    + subst s. discriminate.
    + reflexivity.
    + apply decodes_of_take4, decodes_DecodeRune in D4. congruence.
  - apply decodes_take4, decodes_DecodeRune in D. congruence.
Qed.

(** Every string is a sequence of well-formed runes and of single bytes
    that start none. *)
Lemma string_rune_ind (P : string -> Prop) :
  P "" ->
  (forall s r size, decodes s r size -> P (string_drop (Z.to_nat size) s) -> P s) ->
  (forall c t, 0x80 <= byte_val c -> utf8.DecodeRune (String c t) = (utf8.RuneError, 1) ->
               P t -> P (String c t)) ->
  forall s, P s.
Proof.
  intros Hnil Hrune Hbad s.
  remember (String.length s) as n eqn:Hn. revert s Hn.
  induction n as [n IH] using lt_wf_ind. intros s Hn.
  pose proof (DecodeRune_inv s) as H.
  destruct (utf8.DecodeRune s) as [r size] eqn:E.
  destruct H as [[-> _]|[[-> [-> [c [t [-> Hc]]]]]|D]].
  - exact Hnil.
  - apply Hbad; [exact Hc | exact E |].
    apply (IH (String.length t)); [simpl in Hn; lia | reflexivity].
  - apply (Hrune _ _ _ D).
    pose proof (decodes_size _ _ _ D). pose proof (decodes_length _ _ _ D).
    apply (IH (String.length (string_drop (Z.to_nat size) s))); [|reflexivity].
    rewrite string_drop_length. lia.
Qed.

Lemma valid_from_drop k s :
  utf8.valid_from k s = utf8.valid_from 0 (string_drop k s).
Proof.
  revert s. induction k as [|k IH]; intros [|c t]; try reflexivity.
  simpl. apply IH.
Qed.

Lemma valid_from_0 c t :
  utf8.valid_from 0 (String c t)
  = let '(r, size) := utf8.DecodeRune (String c t) in
    if (r =? utf8.RuneError) && (size =? 1) then false
    else utf8.valid_from (Z.to_nat size - 1) t.
Proof. reflexivity. Qed.

(** A well-formed rune is not the error of width 1. *)
Lemma decodes_not_error s r size :
  decodes s r size -> (r =? utf8.RuneError) && (size =? 1) = false.
Proof.
  intros D. pose proof (decodes_range _ _ _ D) as R. unfold utf8.RuneError.
  destruct (Z.eqb_spec size 1); [|apply andb_false_r].
  destruct (Z.eqb_spec r 65533); [lia | reflexivity].
Qed.

Lemma decodes_cons s r size :
  decodes s r size ->
  exists c t, s = String c t
              /\ string_drop (Z.to_nat size) s = string_drop (Z.to_nat size - 1) t.
Proof.
  intros D. pose proof (decodes_size _ _ _ D) as Hs. destruct D; eexists _, _;
    (split; [reflexivity|]); reflexivity.
Qed.

Lemma ValidString_wellformed s : utf8.ValidString s = true -> wellformed s.
Proof.
  unfold utf8.ValidString. induction s as [|s r size D IH|c t Hc E IH] using string_rune_ind.
  - constructor.
  - intros H. apply (wellformed_rune _ _ _ D). apply IH.
    destruct (decodes_cons _ _ _ D) as [c [t [-> ->]]].
    rewrite valid_from_0, (decodes_DecodeRune _ _ _ D), (decodes_not_error _ _ _ D) in H.
    rewrite valid_from_drop in H. exact H.
  - intros H. exfalso. rewrite valid_from_0, E in H. discriminate.
Qed.

(** ** Quoting a string and reading it back *)

Lemma appendString_loop_0 e copy b rest :
  json.appendString_loop e 0 copy (String b rest)
  = if byte_val b <? utf8.RuneSelf then
      if json.htmlSafeSet b || (negb e && json.safeSet b)
      then String b (json.appendString_loop e 0 true rest)
      else json.escape_byte b ++ json.appendString_loop e 0 true rest
    else
      let '(c, size) := utf8.DecodeRune (string_take 4 (String b rest)) in
      if (c =? utf8.RuneError) && (size =? 1) then
        "\ufffd" ++ json.appendString_loop e 0 true rest
      else if (c =? 0x2028) || (c =? 0x2029) then
        "\u202" ++ str1 (json.hex (Z.land c 0xF))
                ++ json.appendString_loop e (Z.to_nat size - 1) false rest
      else
        String b (json.appendString_loop e (Z.to_nat size - 1) true rest).
Proof. reflexivity. Qed.

Lemma appendString_loop_copy e k s :
  json.appendString_loop e k true s
  = string_take k s ++ json.appendString_loop e 0 true (string_drop k s).
Proof.
  revert s. induction k as [|k IH]; intros [|c t]; try reflexivity.
  simpl. rewrite IH. reflexivity.
Qed.

Lemma appendString_loop_skip e k s :
  json.appendString_loop e k false s
  = json.appendString_loop e 0 true (string_drop k s).
Proof.
  revert s. induction k as [|k IH]; intros [|c t]; try reflexivity.
  simpl. apply IH.
Qed.

Lemma appendString_rune s r size :
  decodes s r size ->
  json.appendString_loop true 0 true s
  = quoted_rune s r size
      ++ json.appendString_loop true 0 true (string_drop (Z.to_nat size) s).
Proof.
  intros D. pose proof (decodes_range _ _ _ D) as R.
  pose proof (decodes_take4 _ _ _ D) as D4. apply decodes_DecodeRune in D4.
  pose proof (decodes_not_error _ _ _ D) as NE.
  destruct (decodes_cons _ _ _ D) as [c [t [-> Hdrop]]].
  rewrite appendString_loop_0, D4, NE, Hdrop. unfold quoted_rune.
  destruct (Z.eqb_spec size 1) as [->|N].
  - assert (Hc : byte_val c < 0x80) by (inversion D; assumption).
    unfold utf8.RuneSelf. zsolve. simpl.
    destruct (json.htmlSafeSet c); reflexivity.
  - assert (Hc : 0x80 <= byte_val c) by (inversion D; subst; lia).
    unfold utf8.RuneSelf. zsolve.
    destruct ((r =? 8232) || (r =? 8233)).
    + rewrite appendString_loop_skip. rewrite !append_assoc. reflexivity.
    + rewrite appendString_loop_copy.
      assert (G : forall n u, (1 <= n)%nat ->
                string_take n (String c u) = String c (string_take (n - 1) u)).
      { intros [|n] u L; [lia|]. simpl. rewrite Nat.sub_0_r. reflexivity. }
      rewrite G by lia. reflexivity.
Qed.

Lemma appendString_bad c t :
  0x80 <= byte_val c -> utf8.DecodeRune (String c t) = (utf8.RuneError, 1) ->
  json.appendString_loop true 0 true (String c t)
  = "\ufffd" ++ json.appendString_loop true 0 true t.
Proof.
  intros Hc E. rewrite appendString_loop_0, DecodeRune_take4, E.
  unfold utf8.RuneSelf. zsolve. reflexivity.
Qed.

Lemma unquote_loop_skip k s :
  json.unquote_loop k s = json.unquote_loop 0 (string_drop k s).
Proof.
  revert s. induction k as [|k IH]; intros [|c t]; try reflexivity.
  simpl. apply IH.
Qed.

Lemma unquote_loop_plain c t :
  (c =? "\")%char = false -> (c =? dquote)%char = false ->
  32 <= byte_val c < 0x80 ->
  json.unquote_loop 0 (String c t) = json.prepend (str1 c) (json.unquote_loop 0 t).
Proof.
  intros H1 H2 H3. simpl. rewrite H1, H2. unfold utf8.RuneSelf. zsolve. reflexivity.
Qed.

Lemma unquote_loop_rune s r size :
  decodes s r size -> 2 <= size ->
  json.unquote_loop 0 s
  = json.prepend (string_take (Z.to_nat size) s)
      (json.unquote_loop 0 (string_drop (Z.to_nat size) s)).
Proof.
  intros D Hs. pose proof (decodes_DecodeRune _ _ _ D) as E.
  pose proof (EncodeRune_decodes _ _ _ D) as Enc.
  destruct (decodes_cons _ _ _ D) as [c [t [-> Hdrop]]].
  assert (Hc : 0x80 <= byte_val c) by (inversion D; subst; lia).
  assert (U : json.unquote_loop 0 (String c t)
              = if (c =? "\")%char then json.unquote_loop 0 (String c t)
                else if (c =? dquote)%char || (byte_val c <? 32) then None
                else if byte_val c <? utf8.RuneSelf then
                  json.prepend (str1 c) (json.unquote_loop 0 t)
                else
                  let '(rr, size) := utf8.DecodeRune (String c t) in
                  json.prepend (utf8.EncodeRune rr)
                    (json.unquote_loop (Z.to_nat size - 1) t)).
  { simpl. destruct (c =? "\")%char; reflexivity. }
  rewrite U, E, Enc, Hdrop. clear U.
  rewrite !ascii_eqb_val. unfold utf8.RuneSelf, dquote.
  change (byte_val "\") with 92. change (byte_val "034") with 34. zsolve.
  rewrite (unquote_loop_skip (Z.to_nat size - 1) t). reflexivity.
Qed.

Lemma getu4_escape h1 h2 h3 h4 rest :
  json.getu4 (String "\" (String "u" (String h1 (String h2 (String h3 (String h4 rest))))))
  = json.getu4_digits 4 (String h1 (String h2 (String h3 (String h4 rest)))) 0.
Proof.
  unfold json.getu4. simpl String.length. zsolve. reflexivity.
Qed.

Lemma unquote_loop_u h1 h2 h3 h4 rest rr :
  json.getu4_digits 4 (String h1 (String h2 (String h3 (String h4 rest)))) 0 = rr ->
  0 <= rr -> utf16.IsSurrogate rr = false ->
  json.unquote_loop 0
    (String "\" (String "u" (String h1 (String h2 (String h3 (String h4 rest))))))
  = json.prepend (utf8.EncodeRune rr) (json.unquote_loop 0 rest).
Proof.
  intros G P S.
  change (json.unquote_loop 0
            (String "\" (String "u" (String h1 (String h2 (String h3 (String h4 rest)))))))
    with (let rr := json.getu4 (String "\" (String "u" (String h1 (String h2
                                     (String h3 (String h4 rest)))))) in
          if rr <? 0 then None
          else if utf16.IsSurrogate rr then
            let rr1 := json.getu4 (string_drop 6 (String "\" (String "u" (String h1
                                     (String h2 (String h3 (String h4 rest))))))) in
            let dec := utf16.DecodeRune rr rr1 in
            if negb (dec =? utf16.replacementChar) then
              json.prepend (utf8.EncodeRune dec) (json.unquote_loop 6 rest)
            else json.prepend (utf8.EncodeRune utf16.replacementChar)
                   (json.unquote_loop 0 rest)
          else json.prepend (utf8.EncodeRune rr) (json.unquote_loop 0 rest)).
  rewrite getu4_escape, G. cbv zeta. rewrite S. zsolve. reflexivity.
Qed.

Lemma unquote_escape_byte c body :
  byte_val c < 0x80 -> json.htmlSafeSet c = false ->
  json.unquote_loop 0 (json.escape_byte c ++ body)
  = json.prepend (str1 c) (json.unquote_loop 0 body).
Proof.
  intros H1 H2.
  destruct c as [[] [] [] [] [] [] [] []];
    vm_compute in H1; try discriminate H1; vm_compute in H2; try discriminate H2;
    clear H1 H2;
    match goal with
    | |- json.unquote_loop 0 (json.escape_byte ?c ++ _) = _ =>
      let q := eval vm_compute in (json.escape_byte c) in
      change (json.escape_byte c) with q
    end;
    cbn [String.append];
    first [ reflexivity
          | etransitivity;
            [ apply (unquote_loop_u _ _ _ _ _ _ eq_refl);
              [vm_compute; discriminate | reflexivity]
            | reflexivity ] ].
Qed.

Lemma prepend_app a b r :
  json.prepend a (json.prepend b r) = json.prepend (a ++ b) r.
Proof. destruct r; simpl; [rewrite append_assoc|]; reflexivity. Qed.

Lemma unquote_quoted_rune s r size body :
  decodes s r size ->
  json.unquote_loop 0 (quoted_rune s r size ++ body)
  = json.prepend (string_take (Z.to_nat size) s) (json.unquote_loop 0 body).
Proof.
  intros D. pose proof (decodes_range _ _ _ D) as R.
  pose proof (decodes_length _ _ _ D) as L.
  destruct (decodes_cons _ _ _ D) as [c [t [E _]]]. subst s. unfold quoted_rune.
  destruct (Z.eqb_spec size 1) as [->|N].
  - assert (Hc : byte_val c < 0x80) by (inversion D; assumption).
    change (string_take (Z.to_nat 1) (String c t)) with (str1 c).
    destruct (json.htmlSafeSet c) eqn:Safe.
    + unfold json.htmlSafeSet, json.safeSet in Safe.
      repeat (apply andb_prop in Safe; destruct Safe as [Safe ?]).
      apply Z.leb_le in Safe.
      apply unquote_loop_plain;
        [apply negb_true_iff; assumption | apply negb_true_iff; assumption | lia].
    + apply unquote_escape_byte; assumption.
  - destruct ((r =? 8232) || (r =? 8233)) eqn:LS.
    + assert (Hr : r = 0x2028 \/ r = 0x2029).
      { apply orb_prop in LS. destruct LS as [LS|LS]; apply Z.eqb_eq in LS; lia. }
      assert (size = 3) by lia. subst size.
      rewrite <- (EncodeRune_decodes _ _ _ D).
      destruct Hr as [-> | ->].
      * change (("\u202" ++ str1 (json.hex (Z.land 8232 15))) ++ body)
          with (String "\" (String "u" (String "2" (String "0" (String "2" (String "8" body)))))).
        apply (unquote_loop_u "2" "0" "2" "8" body 8232 eq_refl); [lia | reflexivity].
      * change (("\u202" ++ str1 (json.hex (Z.land 8233 15))) ++ body)
          with (String "\" (String "u" (String "2" (String "0" (String "2" (String "9" body)))))).
        apply (unquote_loop_u "2" "0" "2" "9" body 8233 eq_refl); [lia | reflexivity].
    + assert (Hs : 2 <= size) by lia.
      pose proof (decodes_tail _ _ _ body D) as D'.
      rewrite (unquote_loop_rune _ _ _ D' Hs).
      pose proof (string_take_length (Z.to_nat size) (String c t) L) as Hlen.
      set (a := string_take (Z.to_nat size) (String c t)) in *.
      rewrite <- Hlen, string_take_app, string_drop_app. reflexivity.
Qed.

Lemma unquote_loop_appendString s :
  wellformed s ->
  json.unquote_loop 0 (json.appendString_loop true 0 true s) = Some s.
Proof.
  intros W. induction W as [|s r size D W IH]; [reflexivity|].
  rewrite (appendString_rune _ _ _ D), (unquote_quoted_rune _ _ _ _ D), IH. simpl.
  rewrite string_take_drop. reflexivity.
Qed.

Lemma unquote_from_0 c t :
  unquote_from (String c t) 0 = json.unquote_loop 0 (String c t).
Proof.
  unfold unquote_from. simpl string_take. simpl string_drop. simpl Nat.eqb.
  destruct (json.unquote_loop 0 (String c t)); reflexivity.
Qed.

Lemma string_take_add p s n :
  string_take (String.length p + n) (p ++ s) = p ++ string_take n s.
Proof. induction p as [|x p IH]; simpl; [reflexivity | f_equal; exact IH]. Qed.

Lemma string_drop_add p s n :
  string_drop (String.length p + n) (p ++ s) = string_drop n s.
Proof. induction p as [|x p IH]; simpl; [reflexivity | exact IH]. Qed.

Lemma unquote_from_shift p s n :
  unquote_from (p ++ s) (String.length p + n) = json.prepend p (unquote_from s n).
Proof.
  unfold unquote_from. rewrite length_append, string_take_add, string_drop_add.
  replace (String.length p + n =? String.length p + String.length s)%nat
    with (n =? String.length s)%nat.
  - destruct (n =? String.length s)%nat; [reflexivity|].
    rewrite prepend_app. reflexivity.
  - destruct (Nat.eqb_spec n (String.length s)); symmetry;
      [apply Nat.eqb_eq | apply Nat.eqb_neq]; lia.
Qed.

Lemma unquote_plain_0 c t :
  json.unquote_plain 0 (String c t)
  = if (c =? "\")%char || (c =? dquote)%char || (byte_val c <? 32) then O
    else if byte_val c <? utf8.RuneSelf then S (json.unquote_plain 0 t)
    else
      let '(rr, size) := utf8.DecodeRune (String c t) in
      if (rr =? utf8.RuneError) && (size =? 1) then O
      else S (json.unquote_plain (Z.to_nat size - 1) t).
Proof. reflexivity. Qed.

Lemma unquote_loop_0 c t :
  (c =? "\")%char = false ->
  json.unquote_loop 0 (String c t)
  = if (c =? dquote)%char || (byte_val c <? 32) then None
    else if byte_val c <? utf8.RuneSelf then
      json.prepend (str1 c) (json.unquote_loop 0 t)
    else
      let '(rr, size) := utf8.DecodeRune (String c t) in
      json.prepend (utf8.EncodeRune rr) (json.unquote_loop (Z.to_nat size - 1) t).
Proof. intros H. simpl. rewrite H. reflexivity. Qed.

Lemma unquote_plain_skip k s :
  (k <= String.length s)%nat ->
  json.unquote_plain k s = (k + json.unquote_plain 0 (string_drop k s))%nat.
Proof.
  revert s. induction k as [|k IH]; intros [|c t] L; simpl in L; try reflexivity; try lia.
  change (json.unquote_plain (S k) (String c t)) with (S (json.unquote_plain k t)).
  rewrite IH by lia. reflexivity.
Qed.

Lemma special_false c :
  special c = false ->
  (c =? "\")%char = false /\ (c =? dquote)%char = false /\ 32 <= byte_val c.
Proof.
  unfold special. intros H.
  apply orb_false_elim in H. destruct H as [H C32].
  apply orb_false_elim in H. destruct H as [Cb Cq].
  apply Z.ltb_ge in C32. auto.
Qed.

Lemma unquote_plain_rune c t r size :
  decodes (String c t) r size -> special c = false ->
  json.unquote_plain 0 (String c t)
  = (Z.to_nat size
     + json.unquote_plain 0 (string_drop (Z.to_nat size) (String c t)))%nat.
Proof.
  intros D Sp. pose proof (decodes_range _ _ _ D) as R.
  pose proof (decodes_length _ _ _ D) as L.
  rewrite unquote_plain_0. fold (special c). rewrite Sp.
  rewrite (decodes_DecodeRune _ _ _ D), (decodes_not_error _ _ _ D).
  destruct (Z.ltb_spec (byte_val c) utf8.RuneSelf) as [A|A]; unfold utf8.RuneSelf in A.
  - assert (size = 1) by (inversion D; subst; try reflexivity; lia).
    subst size. reflexivity.
  - assert (Hs : 2 <= size) by (inversion D; subst; lia).
    rewrite unquote_plain_skip by (simpl in L; lia).
    destruct (decodes_cons _ _ _ D) as [c' [t' [Es Hdrop]]].
    injection Es as <- <-. rewrite Hdrop. lia.
Qed.

Lemma unquote_loop_rune' c t r size :
  decodes (String c t) r size -> special c = false ->
  json.unquote_loop 0 (String c t)
  = json.prepend (string_take (Z.to_nat size) (String c t))
      (json.unquote_loop 0 (string_drop (Z.to_nat size) (String c t))).
Proof.
  intros D Sp. destruct (special_false _ Sp) as [Cb [Cq C32]].
  destruct (Z.le_gt_cases 2 size) as [Hs|Hs].
  - apply (unquote_loop_rune _ _ _ D Hs).
  - assert (size = 1) by (pose proof (decodes_size _ _ _ D); lia). subst size.
    assert (byte_val c < 0x80) by (inversion D; assumption).
    apply unquote_loop_plain; [exact Cb | exact Cq | lia].
Qed.

Lemma unquote_plain_special c t : special c = true -> json.unquote_plain 0 (String c t) = O.
Proof. intros Sp. rewrite unquote_plain_0. fold (special c). rewrite Sp. reflexivity. Qed.

Lemma unquote_fast_path body :
  unquote_from body (json.unquote_plain 0 body) = json.unquote_loop 0 body.
Proof.
  induction body as [|s r size D IH|c t Hc E _] using string_rune_ind.
  - reflexivity.
  - pose proof (decodes_length _ _ _ D) as L.
    destruct (decodes_cons _ _ _ D) as [c [t [-> _]]].
    destruct (special c) eqn:Sp.
    + rewrite unquote_plain_special by exact Sp. apply unquote_from_0.
    + rewrite (unquote_plain_rune _ _ _ _ D Sp), (unquote_loop_rune' _ _ _ _ D Sp), <- IH.
      pose proof (string_take_length _ _ L) as Hlen.
      pose proof (string_take_drop (Z.to_nat size) (String c t)) as Hsplit.
      set (p := string_take (Z.to_nat size) (String c t)) in *.
      set (s' := string_drop (Z.to_nat size) (String c t)) in *.
      rewrite <- Hsplit, <- Hlen. apply unquote_from_shift.
  - destruct (special c) eqn:Sp.
    + rewrite unquote_plain_special by exact Sp. apply unquote_from_0.
    + rewrite unquote_plain_0. fold (special c). rewrite Sp, E.
      unfold utf8.RuneSelf. zsolve. apply unquote_from_0.
Qed.

Lemma string_last_app c a d : json.string_last (String c (a ++ str1 d)) = Some d.
Proof.
  revert c. induction a as [|x a IH]; intros c; [reflexivity|].
  change (json.string_last (String c (String x a ++ str1 d)))
    with (json.string_last (String x (a ++ str1 d))).
  apply IH.
Qed.

(** What [appendString] writes for well-formed UTF-8, [unquoteBytes] reads
    back. *)
Lemma unquoteBytes_appendString s :
  wellformed s -> json.unquoteBytes (json.appendString s true) = Some s.
Proof.
  intros W. unfold json.appendString, json.unquoteBytes.
  set (A := json.appendString_loop true 0 true s).
  rewrite string_last_app. rewrite Ascii.eqb_refl.
  replace (String.length (String dquote (A ++ str1 dquote)) <? 2)%nat with false
    by (symmetry; apply Nat.ltb_ge; simpl; rewrite length_append; simpl; lia).
  cbn [orb negb].
  replace (String.length (A ++ str1 dquote) - 1)%nat with (String.length A)
    by (rewrite length_append; simpl; lia).
  rewrite string_take_app.
  fold (unquote_from A (json.unquote_plain 0 A)).
  rewrite unquote_fast_path. apply unquote_loop_appendString, W.
Qed.

(** ** The decoder over literals *)

Lemma decode_loop_run data d :
  json.decode_loop data d = json.flush (decode_run data d).
Proof. revert d. induction data as [|c rest IH]; intros d; simpl; [reflexivity | apply IH]. Qed.

Lemma decode_run_app a b d : decode_run (a ++ b) d = decode_run b (decode_run a d).
Proof. revert d. induction a as [|c a IH]; intros d; simpl; [reflexivity | apply IH]. Qed.

Lemma passes_nil st : passes st "" st.
Proof. intros sc lit o tp. simpl. rewrite append_nil_r. reflexivity. Qed.

Lemma passes_app a q b q' c : passes a q b -> passes b q' c -> passes a (q ++ q') c.
Proof.
  intros H1 H2 sc lit o tp. rewrite decode_run_app, H1, H2, append_assoc. reflexivity.
Qed.

Lemma passes_char st c st' :
  (forall sc, json.run_step (json.set_step sc st) c = (json.set_step sc st', json.scanContinue)) ->
  passes st (str1 c) st'.
Proof.
  intros H sc lit o tp. simpl. unfold json.decode_byte, reading.
  cbn [json.scan]. rewrite H. reflexivity.
Qed.

Lemma passes_cons st c st1 q st' :
  (forall sc, json.run_step (json.set_step sc st) c = (json.set_step sc st1, json.scanContinue)) ->
  passes st1 q st' -> passes st (String c q) st'.
Proof. intros H1 H2. apply (passes_app st (str1 c) st1 q st' (passes_char _ _ _ H1) H2). Qed.

Lemma begins_cons st c st1 q st' :
  (forall sc, json.run_step (json.set_step sc st) c
              = (json.set_step sc st1, json.scanBeginLiteral)) ->
  passes st1 q st' -> begins st (String c q) st'.
Proof.
  intros H1 H2 sc l0 o tp. simpl. unfold json.decode_byte. cbn [json.scan].
  rewrite H1. cbn [json.literal json.open_ json.top].
  apply (H2 sc (str1 c) o tp).
Qed.

(** Settles [passes] and [begins] for a text given byte by byte. *)
Ltac run_text :=
  repeat first [ apply passes_nil
               | eapply passes_cons; [intros; reflexivity|]
               | eapply begins_cons; [intros; reflexivity|] ].

(** Inside a string. *)
Lemma passes_plain c :
  (c =? dquote)%char = false -> (c =? "\")%char = false -> 32 <= byte_val c ->
  passes json.stateInString (str1 c) json.stateInString.
Proof.
  intros H1 H2 H3. apply passes_char. intros sc.
  unfold json.run_step. cbn [json.step json.set_step]. unfold json.run_stateInString.
  rewrite H1, H2. zsolve. reflexivity.
Qed.

Lemma passes_high c :
  0x80 <= byte_val c -> passes json.stateInString (str1 c) json.stateInString.
Proof.
  intros H. apply passes_plain; try lia;
    rewrite ascii_eqb_val; apply Z.eqb_neq; [change (byte_val dquote) with 34
                                            | change (byte_val "\") with 92]; lia.
Qed.

Lemma passes_escape_byte c :
  byte_val c < 0x80 -> json.htmlSafeSet c = false ->
  passes json.stateInString (json.escape_byte c) json.stateInString.
Proof.
  intros H1 H2.
  destruct c as [[] [] [] [] [] [] [] []];
    vm_compute in H1; try discriminate H1; vm_compute in H2; try discriminate H2;
    clear H1 H2;
    match goal with
    | |- passes _ (json.escape_byte ?c) _ =>
      let q := eval vm_compute in (json.escape_byte c) in
      change (json.escape_byte c) with q
    end;
    run_text.
Qed.

Lemma passes_rune s r size :
  decodes s r size ->
  passes json.stateInString (quoted_rune s r size) json.stateInString.
Proof.
  intros D. pose proof (decodes_range _ _ _ D) as R. unfold quoted_rune.
  destruct D as [c t Hc|c0 c1 t H0 H1|c0 c1 c2 t H0 H1 Ha Hb H2
                |c0 c1 c2 c3 t H0 H1 Ha Hb H2 H3];
    cbn [Z.eqb Pos.eqb].
  - destruct (json.htmlSafeSet c) eqn:Safe.
    + unfold json.htmlSafeSet, json.safeSet in Safe.
      repeat (apply andb_prop in Safe; destruct Safe as [Safe ?]).
      apply Z.leb_le in Safe.
      apply passes_plain; [apply negb_true_iff; assumption
                          | apply negb_true_iff; assumption | lia].
    + apply passes_escape_byte; assumption.
  - zsolve. change (Z.to_nat 2) with 2%nat. cbn [string_take].
    apply (passes_app _ (str1 c0) json.stateInString (str1 c1)); apply passes_high; lia.
  - change (Z.to_nat 3) with 3%nat. cbn [string_take].
    match goal with |- passes _ (if ?b then _ else _) _ => destruct b eqn:LS end.
    + apply orb_prop in LS.
      destruct LS as [LS|LS]; apply Z.eqb_eq in LS; rewrite LS; run_text.
    + apply (passes_app _ (str1 c0) json.stateInString (String c1 (str1 c2)));
        [apply passes_high; lia|].
      apply (passes_app _ (str1 c1) json.stateInString (str1 c2)); apply passes_high; lia.
  - zsolve. change (Z.to_nat 4) with 4%nat. cbn [string_take].
    apply (passes_app _ (str1 c0) json.stateInString (String c1 (String c2 (str1 c3))));
      [apply passes_high; lia|].
    apply (passes_app _ (str1 c1) json.stateInString (String c2 (str1 c3)));
      [apply passes_high; lia|].
    apply (passes_app _ (str1 c2) json.stateInString (str1 c3)); apply passes_high; lia.
Qed.

(** The text [appendString] writes between the quotation marks keeps the
    scanner inside the string, whatever the string. *)
Lemma passes_appendString_loop s :
  passes json.stateInString (json.appendString_loop true 0 true s) json.stateInString.
Proof.
  induction s as [|s r size D IH|c t Hc E IH] using string_rune_ind.
  - apply passes_nil.
  - rewrite (appendString_rune _ _ _ D).
    exact (passes_app _ _ _ _ _ (passes_rune _ _ _ D) IH).
  - rewrite (appendString_bad _ _ Hc E).
    refine (passes_app _ _ json.stateInString _ _ _ IH). run_text.
Qed.

Lemma begins_appendString st s :
  string_start st -> begins st (json.appendString s true) json.stateEndValue.
Proof.
  intros St. unfold json.appendString.
  apply (begins_cons st dquote json.stateInString).
  - intros sc. destruct St as [->|[->| ->]]; reflexivity.
  - refine (passes_app _ _ json.stateInString _ _ (passes_appendString_loop s) _).
    run_text.
Qed.

Lemma begins_true : begins json.stateBeginValue "true" json.stateEndValue.
Proof. run_text. Qed.

Lemma begins_false : begins json.stateBeginValue "false" json.stateEndValue.
Proof. run_text. Qed.

(** ** Integers in decimal *)

Lemma digit_val d : 0 <= d < 10 -> byte_val (strconv.digit d) = 48 + d.
Proof. intros H. unfold strconv.digit. rewrite byte_val_of. apply Z.mod_small. lia. Qed.

Lemma in_range_spec lo hi c :
  in_range lo hi c = true <-> byte_val lo <= byte_val c <= byte_val hi.
Proof. unfold in_range. rewrite andb_true_iff, !Z.leb_le. reflexivity. Qed.

Lemma digit_isDigit d : 0 <= d < 10 -> json.isDigit (strconv.digit d) = true.
Proof.
  intros H. apply in_range_spec. rewrite digit_val by exact H.
  change (byte_val "0") with 48. change (byte_val "9") with 57. lia.
Qed.

Lemma all_digits_app a b : all_digits (a ++ b) = all_digits a && all_digits b.
Proof.
  induction a as [|c a IH]; simpl; [reflexivity|]. rewrite IH. apply andb_assoc.
Qed.

Lemma formatBits_digits fuel u : 0 <= u -> all_digits (strconv.formatBits fuel u) = true.
Proof.
  revert u. induction fuel as [|f IH]; intros u Hu; [reflexivity|]. simpl.
  destruct (Z.ltb_spec u 10).
  - simpl. rewrite digit_isDigit by lia. reflexivity.
  - rewrite all_digits_app, IH by (apply Z.div_pos; lia). simpl.
    rewrite digit_isDigit by (apply Z.mod_pos_bound; lia). reflexivity.
Qed.

Lemma formatBits_nonempty f u : strconv.formatBits (S f) u <> "".
Proof.
  simpl. destruct (u <? 10); [discriminate|].
  destruct (strconv.formatBits f (u / 10)); discriminate.
Qed.

(** The first byte is a digit. *)

(** The first byte is a digit. *)
Lemma formatBits_cases f u :
  0 <= u ->
  exists c t, strconv.formatBits (S f) u = String c t /\ in_range "0" "9" c = true.
Proof.
  intros Hu. pose proof (formatBits_digits (S f) u Hu) as D.
  pose proof (formatBits_nonempty f u) as N.
  destruct (strconv.formatBits (S f) u) as [|c t]; [contradiction|].
  exists c, t. split; [reflexivity|]. simpl in D. apply andb_prop in D. apply D.
Qed.

Lemma pow10_succ f : 10 ^ Z.of_nat (S f) = 10 * 10 ^ Z.of_nat f.
Proof. rewrite Nat2Z.inj_succ, Z.pow_succ_r by lia. reflexivity. Qed.

(** The first digit of a positive number is not zero. *)
Lemma formatBits_first fuel u :
  0 < u < 10 ^ Z.of_nat fuel ->
  exists c t, strconv.formatBits fuel u = String c t
              /\ in_range "1" "9" c = true /\ all_digits t = true.
Proof.
  revert u. induction fuel as [|f IH]; intros u Hu; [simpl in Hu; lia|].
  rewrite pow10_succ in Hu. simpl. destruct (Z.ltb_spec u 10).
  - exists (strconv.digit u), "". repeat split.
    apply in_range_spec. rewrite digit_val by lia.
    change (byte_val "1") with 49. change (byte_val "9") with 57. lia.
  - destruct (IH (u / 10)) as [c [t [E [Hc Ht]]]].
    { split; [apply Z.div_str_pos; lia | apply Z.div_lt_upper_bound; lia]. }
    rewrite E. exists c, (t ++ str1 (strconv.digit (u mod 10))). repeat split.
    + exact Hc.
    + rewrite all_digits_app, Ht. simpl.
      rewrite digit_isDigit by (apply Z.mod_pos_bound; lia). reflexivity.
Qed.

Lemma parseUint_loop_formatBits fuel u rest :
  0 <= u <= strconv.maxUint64 -> u < 10 ^ Z.of_nat fuel ->
  strconv.parseUint_loop (strconv.formatBits fuel u ++ rest) 0
  = strconv.parseUint_loop rest u.
Proof.
  revert u rest. induction fuel as [|f IH]; intros u rest Hu Hf.
  { simpl in Hf. assert (u = 0) by lia. subst u. reflexivity. }
  rewrite pow10_succ in Hf. simpl. destruct (Z.ltb_spec u 10).
  - simpl. change (in_range "0" "9" (strconv.digit u)) with (json.isDigit (strconv.digit u)).
    rewrite digit_isDigit, digit_val by lia. unfold strconv.maxUint64 in *.
    zsolve. f_equal. lia.
  - rewrite append_assoc, IH.
    + simpl.
      change (in_range "0" "9" (strconv.digit (u mod 10)))
        with (json.isDigit (strconv.digit (u mod 10))).
      pose proof (Z.mod_pos_bound u 10 ltac:(lia)).
      rewrite digit_isDigit, digit_val by lia.
      replace (u / 10 * 10 + (48 + u mod 10 - 48)) with u
        by (Z.div_mod_to_equations; lia).
      unfold strconv.maxUint64 in *. zsolve. reflexivity.
    + split; [apply Z.div_pos; lia|]. Z.div_mod_to_equations. lia.
    + apply Z.div_lt_upper_bound; lia.
Qed.

Lemma int_fits u : 0 <= u <= 2 ^ 63 -> u <= strconv.maxUint64 /\ u < 10 ^ Z.of_nat 20.
Proof.
  intros H. unfold strconv.maxUint64.
  change (2 ^ 63) with 9223372036854775808 in H.
  change (2 ^ 64) with 18446744073709551616.
  change (10 ^ Z.of_nat 20) with 100000000000000000000. lia.
Qed.

Lemma ParseUint_formatBits u :
  0 <= u <= 2 ^ 63 -> strconv.ParseUint (strconv.formatBits 20 u) = inl u.
Proof.
  intros H. destruct (int_fits u H) as [H1 H2].
  pose proof (parseUint_loop_formatBits 20 u "" ltac:(lia) H2) as P.
  rewrite append_nil_r in P. simpl strconv.parseUint_loop in P at 2.
  unfold strconv.ParseUint. destruct (strconv.formatBits 20 u) eqn:E; [|exact P].
  exfalso. exact (formatBits_nonempty 19 u E).
Qed.

Lemma ParseInt_FormatInt z : is_int z -> strconv.ParseInt (strconv.FormatInt z) = inl z.
Proof.
  unfold is_int. intros H. unfold strconv.FormatInt, strconv.ParseInt.
  destruct (Z.ltb_spec z 0) as [N|P].
  - change ("-" =? "+")%char with false. change ("-" =? "-")%char with true.
    cbv iota beta. rewrite ParseUint_formatBits by lia.
    cbn [negb andb]. zsolve. f_equal. lia.
  - pose proof (ParseUint_formatBits z ltac:(lia)) as E.
    destruct (formatBits_cases 19 z ltac:(lia)) as [c [t [F D]]].
    change (S 19) with 20%nat in F.
    rewrite F in E |- *.
    assert (Hc : (c =? "+")%char = false /\ (c =? "-")%char = false).
    { apply in_range_spec in D. rewrite !ascii_eqb_val.
      change (byte_val "0") with 48 in D. change (byte_val "9") with 57 in D.
      change (byte_val "+") with 43. change (byte_val "-") with 45.
      split; apply Z.eqb_neq; lia. }
    destruct Hc as [-> ->]. rewrite E. zsolve. reflexivity.
Qed.

(** ** Integer literals under the scanner *)

Lemma passes_digits t : all_digits t = true -> passes json.state1 t json.state1.
Proof.
  induction t as [|c t IH]; intros H; [apply passes_nil|].
  simpl in H. apply andb_prop in H. destruct H as [Hc Ht].
  apply (passes_cons json.state1 c json.state1); [|apply IH, Ht].
  intros sc. unfold json.run_step. cbn [json.step json.set_step]. unfold json.run_state1.
  rewrite Hc. reflexivity.
Qed.

Lemma nonzero_digit_chars c :
  in_range "1" "9" c = true ->
  json.isSpace c = false /\ (c =? "{")%char = false /\ (c =? "[")%char = false
  /\ (c =? dquote)%char = false /\ (c =? "-")%char = false /\ (c =? "0")%char = false
  /\ (c =? "t")%char = false /\ (c =? "f")%char = false /\ (c =? "n")%char = false.
Proof.
  intros H. apply in_range_spec in H.
  change (byte_val "1") with 49 in H. change (byte_val "9") with 57 in H.
  unfold json.isSpace. rewrite !ascii_eqb_val.
  change (byte_val " ") with 32. change (byte_val "{") with 123.
  change (byte_val "[") with 91. change (byte_val dquote) with 34.
  change (byte_val "-") with 45. change (byte_val "0") with 48.
  change (byte_val "t") with 116. change (byte_val "f") with 102.
  change (byte_val "n") with 110.
  repeat split; zsolve; reflexivity.
Qed.

Lemma begins_positive c t :
  in_range "1" "9" c = true -> all_digits t = true ->
  begins json.stateBeginValue (String c t) json.state1.
Proof.
  intros Hc Ht. apply (begins_cons _ c json.state1); [|apply passes_digits, Ht].
  intros sc. unfold json.run_step. cbn [json.step json.set_step].
  unfold json.run_stateBeginValue.
  destruct (nonzero_digit_chars c Hc) as [-> [-> [-> [-> [-> [-> [-> [-> ->]]]]]]]].
  rewrite Hc. reflexivity.
Qed.

Lemma begins_FormatInt z :
  is_int z ->
  exists st', ends_value st' /\ begins json.stateBeginValue (strconv.FormatInt z) st'.
Proof.
  unfold is_int. intros H. unfold strconv.FormatInt.
  destruct (Z.ltb_spec z 0) as [N|P].
  - destruct (formatBits_first 20 (- z)) as [c [t [E [Hc Ht]]]].
    { destruct (int_fits (- z)); lia. }
    rewrite E. exists json.state1. split; [right; right; reflexivity|].
    apply (begins_cons _ "-" json.stateNeg); [intros; reflexivity|].
    apply (passes_cons _ c json.state1); [|apply passes_digits, Ht].
    intros sc. unfold json.run_step. cbn [json.step json.set_step].
    unfold json.run_stateNeg.
    destruct (nonzero_digit_chars c Hc) as [_ [_ [_ [_ [_ [-> _]]]]]].
    rewrite Hc. reflexivity.
  - destruct (Z.eq_dec z 0) as [->|NZ].
    + exists json.state0. split; [right; left; reflexivity|]. run_text.
    + destruct (formatBits_first 20 z) as [c [t [E [Hc Ht]]]].
      { destruct (int_fits z); lia. }
      rewrite E. exists json.state1. split; [right; right; reflexivity|].
      apply begins_positive; assumption.
Qed.

Lemma literal_value_FormatInt z :
  json.literal_value (strconv.FormatInt z) = json.JNumber (strconv.FormatInt z).
Proof.
  unfold strconv.FormatInt. destruct (Z.ltb_spec z 0); [reflexivity|].
  destruct (formatBits_cases 19 z ltac:(lia)) as [c [t [F D]]].
  change (S 19) with 20%nat in F. rewrite F.
  apply in_range_spec in D.
  change (byte_val "0") with 48 in D. change (byte_val "9") with 57 in D.
  unfold json.literal_value. rewrite !ascii_eqb_val.
  change (byte_val "n") with 110. change (byte_val "t") with 116.
  change (byte_val "f") with 102. change (byte_val dquote) with 34.
  zsolve. reflexivity.
Qed.

(** ** The decoder over the text of an object *)

Lemma literal_value_key k :
  json.unquoteBytes (json.appendString k true) = Some k ->
  json.literal_value (json.appendString k true) = json.JString k.
Proof.
  intros H. unfold json.literal_value. rewrite H. reflexivity.
Qed.

Lemma ends_value_comma st ps :
  ends_value st ->
  json.run_step (sc_obj ps st) "," = json.run_stateEndValue (sc_obj ps st) ","
  /\ json.run_step (sc_obj ps st) "}" = json.run_stateEndValue (sc_obj ps st) "}".
Proof. intros [->|[->| ->]]; split; reflexivity. Qed.

Lemma step_comma st' text v acc k :
  ends_value st' -> json.literal_value text = v ->
  json.decode_byte
    {| json.scan := sc_obj json.parseObjectValue st'; json.literal := Some text;
       json.open_ := [json.FObject acc (Some k)]; json.top := None |} ","
  = {| json.scan := sc_obj json.parseObjectKey json.stateBeginString;
       json.literal := None;
       json.open_ := [json.FObject (acc ++ [(k, v)])%list None]; json.top := None |}.
Proof.
  intros Hst Hlit. unfold json.decode_byte. cbn [json.scan].
  rewrite (proj1 (ends_value_comma st' _ Hst)).
  cbn -[json.literal_value]. rewrite Hlit. reflexivity.
Qed.

Lemma step_close st' text v acc k :
  ends_value st' -> json.literal_value text = v ->
  json.decode_byte
    {| json.scan := sc_obj json.parseObjectValue st'; json.literal := Some text;
       json.open_ := [json.FObject acc (Some k)]; json.top := None |} "}"
  = d_top (json.JObject (acc ++ [(k, v)])%list).
Proof.
  intros Hst Hlit. unfold json.decode_byte. cbn [json.scan].
  rewrite (proj2 (ends_value_comma st' _ Hst)).
  cbn -[json.literal_value]. rewrite Hlit. reflexivity.
Qed.

Lemma step_colon ktext k acc :
  json.literal_value ktext = json.JString k ->
  json.decode_byte
    {| json.scan := sc_obj json.parseObjectKey json.stateEndValue;
       json.literal := Some ktext;
       json.open_ := [json.FObject acc None]; json.top := None |} ":"
  = {| json.scan := sc_obj json.parseObjectValue json.stateBeginValue;
       json.literal := None;
       json.open_ := [json.FObject acc (Some k)]; json.top := None |}.
Proof.
  intros Hlit. unfold json.decode_byte. cbn -[json.literal_value].
  rewrite Hlit. reflexivity.
Qed.

Lemma members_text_cons k text v rest next :
  members_text ((k, text, v) :: rest) next
  = next ++ json.appendString k true ++ String ":" (text ++ members_text rest ",").
Proof. reflexivity. Qed.

(** A key and its value, from where the key may start. *)
Lemma decode_run_member st k text v acc tail :
  string_start st -> good_member (k, text, v) ->
  exists st',
    ends_value st'
    /\ decode_run (json.appendString k true ++ String ":" (text ++ tail))
         {| json.scan := sc_obj json.parseObjectKey st; json.literal := None;
            json.open_ := [json.FObject acc None]; json.top := None |}
       = decode_run tail
           {| json.scan := sc_obj json.parseObjectValue st';
              json.literal := Some text;
              json.open_ := [json.FObject acc (Some k)]; json.top := None |}.
Proof.
  intros St [Hk [Hv [st' [He Hb]]]]. exists st'. split; [exact He|].
  rewrite decode_run_app.
  rewrite (begins_appendString st k St (sc_obj json.parseObjectKey st) None).
  cbn [decode_run].
  change (reading json.stateEndValue (sc_obj json.parseObjectKey st)
            (json.appendString k true) [json.FObject acc None] None)
    with {| json.scan := sc_obj json.parseObjectKey json.stateEndValue;
            json.literal := Some (json.appendString k true);
            json.open_ := [json.FObject acc None]; json.top := None |}.
  rewrite (step_colon _ k) by (apply literal_value_key, Hk).
  rewrite decode_run_app.
  rewrite (Hb (sc_obj json.parseObjectValue json.stateBeginValue) None).
  reflexivity.
Qed.

(** After the first member: the rest of the object. *)
Lemma decode_run_members rest :
  Forall good_member rest ->
  forall acc k text v st',
    ends_value st' -> json.literal_value text = v ->
    decode_run (members_text rest ",")
      {| json.scan := sc_obj json.parseObjectValue st'; json.literal := Some text;
         json.open_ := [json.FObject acc (Some k)]; json.top := None |}
    = d_top (json.JObject (acc ++ (k, v) :: map member_value rest)%list).
Proof.
  induction 1 as [|[[k' text'] v'] rest G _ IH]; intros acc k text v st' Hst Hlit.
  - cbn [members_text decode_run]. change ("," =? "{")%string with false.
    cbn [decode_run]. apply step_close; assumption.
  - rewrite members_text_cons. change ("," ++ ?x) with (String "," x).
    cbn [decode_run]. rewrite (step_comma _ _ v) by assumption.
    destruct (decode_run_member json.stateBeginString k' text' v'
                (acc ++ [(k, v)])%list (members_text rest ",")
                ltac:(right; left; reflexivity) G) as [st'' [He E]].
    rewrite E. rewrite (IH _ k' text' v' st'' He (proj1 (proj2 G))).
    rewrite <- app_assoc. reflexivity.
Qed.

(** The whole object. *)
Lemma decode_run_object ms :
  Forall good_member ms ->
  decode_run (members_text ms "{") d_start
  = d_top (json.JObject (map member_value ms)).
Proof.
  intros G. destruct G as [|[[k text] v] rest G Grest].
  - reflexivity.
  - rewrite members_text_cons. change ("{" ++ ?x) with (String "{" x).
    cbn [decode_run].
    change (json.decode_byte d_start "{")
      with {| json.scan := sc_obj json.parseObjectKey json.stateBeginStringOrEmpty;
              json.literal := None; json.open_ := [json.FObject [] None];
              json.top := None |}.
    destruct (decode_run_member json.stateBeginStringOrEmpty k text v []
                (members_text rest ",") ltac:(right; right; reflexivity) G)
      as [st' [He E]].
    rewrite E. apply (decode_run_members rest Grest [] k text v st' He (proj1 (proj2 G))).
Qed.

Lemma decode_object ms :
  Forall good_member ms ->
  json.decode (members_text ms "{") = json.JObject (map member_value ms).
Proof.
  intros G. unfold json.decode. fold d_start.
  rewrite decode_loop_run, (decode_run_object ms G). reflexivity.
Qed.

(** ** [checkValid] and the decoder's scanner *)

Ltac unfold_states :=
  unfold json.run_stateBeginValueOrEmpty, json.run_stateBeginStringOrEmpty,
    json.run_stateBeginValue, json.run_stateBeginString, json.run_stateInString,
    json.run_stateInStringEsc, json.run_hex, json.run_stateNeg, json.run_state1,
    json.run_state0, json.run_stateDot, json.run_stateDot0, json.run_stateE,
    json.run_stateESign, json.run_stateE0, json.run_literal, json.run_stateEndValue,
    json.run_stateEndTop, json.pushParseState, json.popParseState, json.scanner_error,
    json.set_step, json.set_stack.

Lemma run_step_in_step s s' c :
  in_step s s' ->
  json.err (fst (json.run_step s' c)) = None ->
  in_step (fst (json.run_step (json.count_byte s) c)) (fst (json.run_step s' c))
  /\ snd (json.run_step (json.count_byte s) c) = snd (json.run_step s' c)
  /\ snd (json.run_step s' c) <> json.scanError.
Proof.
  destruct s as [st et ps er b], s' as [st' et' ps' er' b'].
  unfold in_step. cbn [json.step json.endTop json.parseStack json.err].
  intros [<- [<- [<- [-> [-> NE]]]]].
  unfold json.run_step, json.count_byte. cbn [json.step json.endTop json.parseStack json.err json.bytes].
  destruct st; try contradiction; unfold_states;
    cbn [json.step json.endTop json.parseStack json.err json.bytes];
    repeat match goal with
           | |- context [if ?b then _ else _] => destruct b
           | |- context [match ?x with _ => _ end] => destruct x
           end;
    cbn [fst snd json.step json.endTop json.parseStack json.err json.bytes];
    intros E; try discriminate E;
    repeat split; try reflexivity; try discriminate.
Qed.

Lemma run_step_err s c :
  json.err s <> None -> json.err (fst (json.run_step s c)) <> None.
Proof.
  destruct s as [st et ps er b]. cbn [json.err]. intros NE.
  unfold json.run_step. cbn [json.step].
  destruct st; unfold_states;
    cbn [json.step json.endTop json.parseStack json.err json.bytes];
    repeat match goal with
           | |- context [if ?b then _ else _] => destruct b
           | |- context [match ?x with _ => _ end] => destruct x
           end;
    cbn [fst snd json.step json.endTop json.parseStack json.err json.bytes];
    first [exact NE | discriminate].
Qed.

Lemma scan_deliver v d : json.scan (json.deliver v d) = json.scan d.
Proof. unfold json.deliver. destruct (json.open_ d) as [|[ms [k|]|items] rest]; reflexivity. Qed.

Lemma scan_flush d : json.scan (json.flush d) = json.scan d.
Proof. unfold json.flush. destruct (json.literal d); [apply scan_deliver | reflexivity]. Qed.

Lemma scan_close d : json.scan (json.close d) = json.scan d.
Proof.
  unfold json.close. destruct (json.open_ d) as [|[ms k|items] rest];
    [reflexivity | rewrite scan_deliver; reflexivity | rewrite scan_deliver; reflexivity].
Qed.

Lemma scan_decode_byte d c :
  json.scan (json.decode_byte d c) = fst (json.run_step (json.scan d) c).
Proof.
  unfold json.decode_byte. destruct (json.run_step (json.scan d) c) as [sc op].
  destruct op; cbn [fst]; rewrite ?scan_close, ?scan_flush; reflexivity.
Qed.

Lemma decode_run_err data d :
  json.err (json.scan d) <> None -> json.err (json.scan (decode_run data d)) <> None.
Proof.
  revert d. induction data as [|c rest IH]; intros d H; [exact H|].
  simpl. apply IH. rewrite scan_decode_byte. apply run_step_err, H.
Qed.

Lemma checkValid_loop_in_step data s d :
  in_step s (json.scan d) ->
  json.err (json.scan (decode_run data d)) = None ->
  json.endTop (json.scan (decode_run data d)) = true ->
  json.checkValid_loop data s = None.
Proof.
  revert s d. induction data as [|c rest IH]; intros s d R Herr Htop.
  - simpl in *. destruct R as [_ [Et [_ [Es _]]]]. unfold json.eof.
    rewrite Es, Et, Htop. reflexivity.
  - simpl in Herr, Htop |- *.
    assert (E1 : json.err (fst (json.run_step (json.scan d) c)) = None).
    { destruct (json.err (fst (json.run_step (json.scan d) c))) eqn:E; [|reflexivity].
      exfalso. apply (decode_run_err rest (json.decode_byte d c)); [|exact Herr].
      rewrite scan_decode_byte, E. discriminate. }
    destruct (run_step_in_step s (json.scan d) c R E1) as [R' [Eop Nop]].
    destruct (json.run_step (json.count_byte s) c) as [s1 op]. cbn [fst snd] in *.
    assert (Go : json.checkValid_loop rest s1 = None).
    { apply (IH s1 (json.decode_byte d c)); [|exact Herr | exact Htop].
      rewrite scan_decode_byte. exact R'. }
    rewrite Eop. destruct (snd (json.run_step (json.scan d) c)); try exact Go.
    contradiction.
Qed.

Lemma checkValid_object ms :
  Forall good_member ms -> json.checkValid (members_text ms "{") = None.
Proof.
  intros G. unfold json.checkValid.
  apply (checkValid_loop_in_step _ json.new_scanner d_start).
  - repeat split; discriminate.
  - rewrite (decode_run_object ms G). reflexivity.
  - rewrite (decode_run_object ms G). reflexivity.
Qed.

(** ** The round trip of the general configuration *)

Lemma Marshal_members x :
  json.Marshal (ConfigGeneralSettings_reflect x)
  = inl (members_text (ConfigGeneralSettings_members x) "{").
Proof.
  destruct x as [[a|] [b|] [l|] [p|] [s|] [m|] [r|] [t|]]; reflexivity.
Qed.

Lemma good_bool k b :
  json.unquoteBytes (json.appendString k true) = Some k ->
  good_member (k, bool_text b, json.JBool b).
Proof.
  intros Hk. split; [exact Hk|]. split; [destruct b; reflexivity|].
  exists json.stateEndValue. split; [left; reflexivity|].
  destruct b; [apply begins_true | apply begins_false].
Qed.

Lemma good_string k s :
  json.unquoteBytes (json.appendString k true) = Some k ->
  utf8.ValidString s = true ->
  good_member (k, quote_text s, json.JString s).
Proof.
  intros Hk Hs. split; [exact Hk|]. split.
  - apply literal_value_key, unquoteBytes_appendString, ValidString_wellformed, Hs.
  - exists json.stateEndValue. split; [left; reflexivity|].
    apply begins_appendString. left. reflexivity.
Qed.

Lemma good_int k z :
  json.unquoteBytes (json.appendString k true) = Some k ->
  is_int z ->
  good_member (k, strconv.FormatInt z, int_value z).
Proof.
  intros Hk Hz. split; [exact Hk|]. split.
  - apply literal_value_FormatInt.
  - apply begins_FormatInt, Hz.
Qed.

Lemma good_members x :
  ConfigGeneralSettings_ok x -> ConfigGeneralSettings_utf8 x = true ->
  Forall good_member (ConfigGeneralSettings_members x).
Proof.
  intros [Hp [Hs [Hm [Hr Ht]]]] Hu. apply andb_prop in Hu. destruct Hu as [Hb Hl].
  unfold ConfigGeneralSettings_members.
  repeat (apply Forall_app; split);
    match goal with
    | |- Forall _ (opt_member _ _ _ ?p) =>
      destruct p; constructor; [|constructor]
    end;
    first [ apply good_bool; reflexivity
          | apply good_string; [reflexivity | assumption]
          | apply good_int; [reflexivity | assumption] ].
Qed.

(** Storing the members the encoder wrote for [x] in the zero struct gives
    [x] back. *)
Lemma object_members x :
  ConfigGeneralSettings_ok x ->
  ConfigGeneralSettings_object
    (map member_value (ConfigGeneralSettings_members x)) ConfigGeneralSettings_zero None
  = (x, None).
Proof.
  intros [Hp [Hs [Hm [Hr Ht]]]].
  destruct x as [[a|] [b|] [l|] [p|] [s|] [m|] [r|] [t|]];
    cbn [Port SocksPort MixedPort RedirPort TProxyPort is_int_opt] in *;
    unfold ConfigGeneralSettings_members, int_value;
    cbn -[strconv.ParseInt strconv.FormatInt];
    rewrite ?ParseInt_FormatInt by assumption;
    reflexivity.
Qed.

(** * The claims *)

(** C1: each dispatch function of [exports.go] ([getGeneralConfig],
    [patchGeneralConfig], [getRemoteConfig], [updateRemoteConfig],
    [deleteRemote]), on every input and from every state, posts exactly one
    response envelope to its port before it returns: whatever path is
    taken, the outbox grows by one message, addressed to [port], and
    nothing else changes. *)
Theorem C1_exactly_one_send
  (float64_range_error : string -> bool) (EngineState : Type)
  (port : Z) (patchStr remoteName configData : C_char_ptr) :
  (exists r, sends_only EngineState port r (getGeneralConfig port))
  /\ (exists r, sends_only EngineState port r (patchGeneralConfig port patchStr))
  /\ (exists r, sends_only EngineState port r (getRemoteConfig port remoteName))
  /\ (exists r, sends_only EngineState port r
                  (updateRemoteConfig float64_range_error port remoteName configData))
  /\ (exists r, sends_only EngineState port r (deleteRemote port remoteName)).
Proof.
  repeat split.
  - eexists. apply getGeneralConfig_sends.
  - eexists. apply patchGeneralConfig_sends.
  - eexists. apply getRemoteConfig_sends.
  - eexists. apply updateRemoteConfig_sends.
  - eexists. apply deleteRemote_sends.
Qed.

(** C2, as the code has it: the empty-name check with the message
    "itemID cannot be empty" is that of [deleteItem] in
    [QUICK_REFERENCE.go].  Calling [deleteItem] with an empty id posts the
    envelope [{success:false, message:"itemID cannot be empty", data:""}]
    and does nothing else. *)
Theorem C2_deleteItem_empty_id (EngineState : Type) (port : Z) (itemID : C_char_ptr) :
  C_GoString itemID = "" ->
  sends_only EngineState port
    {| Success := false; Message := "itemID cannot be empty"; Data := "" |}
    (deleteItem port itemID).
Proof. apply deleteItem_rejects_empty. Qed.

Lemma C2_deleteItem_empty_id_witness :
  C_GoString (Some "") = ""
  /\ sends_only unit 3
       {| Success := false; Message := "itemID cannot be empty"; Data := "" |}
       (deleteItem 3 (Some "")).
Proof.
  split; [reflexivity|].
  apply (C2_deleteItem_empty_id unit 3 (Some "")). reflexivity.
Defined.

(** C2 fails for [deleteRemote]: with token 3 and the empty name it posts
    a success envelope, not the failure envelope of the claim. *)
Lemma C2_deleteRemote_counterexample :
  C_GoString (Some "") = ""
  /\ run (deleteRemote 3 (Some "")) {| engine := tt; outbox := [] |}
     = {| engine := tt;
          outbox := [(3, {| Success := true; Message := ""; Data := "" |})] |}
  /\ outbox (run (deleteRemote 3 (Some "")) {| engine := tt; outbox := [] |})
     <> [(3, {| Success := false; Message := "itemID cannot be empty"; Data := "" |})].
Proof. repeat split. discriminate. Qed.

(** C3, as the code has it: the functions that check their string
    arguments are the templates [getDataByName], [processData] and
    [deleteItem].  With an empty argument each posts a failure envelope
    with its validation message and does nothing else. *)
Theorem C3_empty_argument_rejected (EngineState : Type) (port : Z)
  (name source destination itemID : C_char_ptr) :
  (C_GoString name = "" ->
   sends_only EngineState port
     {| Success := false; Message := "name parameter cannot be empty"; Data := "" |}
     (getDataByName port name))
  /\ (C_GoString source = "" \/ C_GoString destination = "" ->
      sends_only EngineState port
        {| Success := false; Message := "source and destination cannot be empty";
           Data := "" |}
        (processData port source destination))
  /\ (C_GoString itemID = "" ->
      sends_only EngineState port
        {| Success := false; Message := "itemID cannot be empty"; Data := "" |}
        (deleteItem port itemID)).
Proof.
  refine (conj _ (conj _ _)).
  - intros H w. rewrite (getDataByName_sends EngineState port name w), H. reflexivity.
  - intros H w. rewrite (processData_sends EngineState port source destination w).
    destruct H as [H|H]; rewrite H; [reflexivity|].
    rewrite orb_true_r. reflexivity.
  - apply deleteItem_rejects_empty.
Qed.

Lemma C3_empty_argument_rejected_witness :
  sends_only unit 5
    {| Success := false; Message := "name parameter cannot be empty"; Data := "" |}
    (getDataByName 5 None)
  /\ sends_only unit 5
       {| Success := false; Message := "source and destination cannot be empty";
          Data := "" |}
       (processData 5 (Some "a") (Some ""))
  /\ sends_only unit 5
       {| Success := false; Message := "itemID cannot be empty"; Data := "" |}
       (deleteItem 5 (Some "")).
Proof.
  destruct (C3_empty_argument_rejected unit 5 None (Some "a") (Some "") (Some ""))
    as [H1 [H2 H3]].
  split; [apply H1; reflexivity|].
  split; [apply H2; right; reflexivity | apply H3; reflexivity].
Defined.

(** C3 fails for [getRemoteConfig] (and for [deleteRemote], see C10): with
    the empty name it posts a success envelope. *)
Lemma C3_getRemoteConfig_counterexample :
  C_GoString (Some "") = ""
  /\ run (getRemoteConfig 1 (Some "")) {| engine := tt; outbox := [] |}
     = {| engine := tt;
          outbox := [(1, {| Success := true; Message := "";
                            Data := sq "{'name':'','type':'s3','url':'https://example.com'}" |})] |}.
Proof. split; reflexivity. Qed.

(** C5: [getGeneralConfig], with any token, posts the envelope
    [{success:true, message:"",
      data:"{\"allowLan\":true,\"bindAddress\":\"0.0.0.0\",\"port\":8080}"}];
    so it does with token 7. *)
Theorem C5_getGeneralConfig_envelope (EngineState : Type) (port : Z) :
  sends_only EngineState port
    {| Success := true; Message := "";
       Data := sq "{'allowLan':true,'bindAddress':'0.0.0.0','port':8080}" |}
    (getGeneralConfig port)
  /\ forall e : EngineState,
       outbox (run (getGeneralConfig 7) {| engine := e; outbox := [] |})
       = [(7, {| Success := true; Message := "";
                 Data := sq "{'allowLan':true,'bindAddress':'0.0.0.0','port':8080}" |})].
Proof. split; [apply getGeneralConfig_sends | reflexivity]. Qed.

(** C6: when decoding its JSON argument fails, a dispatch function posts
    the failure envelope that carries the decode error's message and
    returns with the engine as it was: the envelope is the only change to
    the world. *)
Theorem C6_decode_failure_no_engine_work
  (float64_range_error : string -> bool) (EngineState : Type)
  (port : Z) (patchStr remoteName configData jsonInput : C_char_ptr)
  (err : json.error) (w : World EngineState) :
  (snd (Unmarshal_ConfigGeneralSettings (C_GoString patchStr) ConfigGeneralSettings_zero)
   = Some err ->
   engine (run (patchGeneralConfig port patchStr) w) = engine w
   /\ outbox (run (patchGeneralConfig port patchStr) w)
      = (outbox w ++ [(port, {| Success := false; Message := json.Error err;
                                Data := "" |})])%list)
  /\ (snd (Unmarshal_map float64_range_error (C_GoString configData) None) = Some err ->
      engine (run (updateRemoteConfig float64_range_error port remoteName configData) w)
      = engine w
      /\ outbox (run (updateRemoteConfig float64_range_error port remoteName configData) w)
         = (outbox w ++ [(port, {| Success := false; Message := json.Error err;
                                   Data := "" |})])%list)
  /\ (snd (Unmarshal_map float64_range_error (C_GoString jsonInput) None) = Some err ->
      engine (run (updateSimpleData float64_range_error port jsonInput) w) = engine w
      /\ outbox (run (updateSimpleData float64_range_error port jsonInput) w)
         = (outbox w ++ [(port, {| Success := false; Message := json.Error err;
                                   Data := "" |})])%list).
Proof.
  split; [|split]; intros H.
  - rewrite (patchGeneralConfig_sends EngineState port patchStr w), H. split; reflexivity.
  - rewrite (updateRemoteConfig_sends float64_range_error EngineState port remoteName
               configData w), H.
    split; reflexivity.
  - rewrite (updateSimpleData_sends float64_range_error EngineState port jsonInput w), H.
    split; reflexivity.
Qed.

Lemma C6_decode_failure_no_engine_work_witness :
  engine (run (updateSimpleData (fun _ => false) 4 (Some "[1,2]"))
            {| engine := 0%nat; outbox := [(1, success "")] |}) = 0%nat
  /\ outbox (run (updateSimpleData (fun _ => false) 4 (Some "[1,2]"))
               {| engine := 0%nat; outbox := [(1, success "")] |})
     = [(1, success "");
        (4, {| Success := false;
               Message := "json: cannot unmarshal array into Go value of type map[string]interface {}";
               Data := "" |})].
Proof.
  apply (proj2 (proj2 (C6_decode_failure_no_engine_work (fun _ => false) nat 4
                         None None None (Some "[1,2]") type_error_array
                         {| engine := 0%nat; outbox := [(1, success "")] |}))).
  reflexivity.
Defined.

(** C7, as the code has it: for every [ConfigGeneralSettings] value whose
    strings are valid UTF-8, decoding the JSON text [json.Marshal] gives
    for it yields the same value, absent (nil) fields included. *)
Theorem C7_round_trip_valid_utf8 (x : ConfigGeneralSettings) :
  ConfigGeneralSettings_ok x -> ConfigGeneralSettings_utf8 x = true ->
  round_trips x.
Proof.
  intros Hok Hutf. pose proof (good_members x Hok Hutf) as G.
  exists (members_text (ConfigGeneralSettings_members x) "{"). split.
  - apply Marshal_members.
  - unfold Unmarshal_ConfigGeneralSettings.
    rewrite (checkValid_object _ G), (decode_object _ G).
    apply object_members, Hok.
Qed.

Lemma C7_round_trip_valid_utf8_witness :
  ConfigGeneralSettings_ok sample_settings
  /\ ConfigGeneralSettings_utf8 sample_settings = true
  /\ round_trips sample_settings.
Proof.
  assert (Hok : ConfigGeneralSettings_ok sample_settings).
  { unfold ConfigGeneralSettings_ok, sample_settings, is_int_opt, is_int. simpl. lia. }
  split; [exact Hok|]. split; [reflexivity|].
  apply (C7_round_trip_valid_utf8 sample_settings Hok). reflexivity.
Defined.

(** C7 fails on a string that is not valid UTF-8: the bind address of the
    single byte 0xFF is encoded without error and comes back from the text
    as the three bytes of U+FFFD. *)
Lemma C7_invalid_utf8_counterexample :
  ConfigGeneralSettings_ok bad_utf8_settings
  /\ (exists data,
        json.Marshal (ConfigGeneralSettings_reflect bad_utf8_settings) = inl data
        /\ BindAddress (fst (Unmarshal_ConfigGeneralSettings data ConfigGeneralSettings_zero))
           = Some (String (byte_of 0xEF) (String (byte_of 0xBF) (String (byte_of 0xBD) ""))))
  /\ ~ round_trips bad_utf8_settings.
Proof.
  split; [repeat split; exact I|]. split.
  - eexists. split; reflexivity.
  - intros [data [H1 H2]]. vm_compute in H1. injection H1 as <-.
    vm_compute in H2. discriminate H2.
Qed.

(** C8: the envelope a dispatch function posts, whichever function and
    input, has an empty message when [success] is true and empty data when
    [success] is false. *)
Theorem C8_envelope_exclusive
  (float64_range_error : string -> bool) (EngineState : Type)
  (port : Z) (a b : C_char_ptr) :
  (exists r, sends_only EngineState port r (getGeneralConfig port) /\ exclusive r)
  /\ (exists r, sends_only EngineState port r (patchGeneralConfig port a) /\ exclusive r)
  /\ (exists r, sends_only EngineState port r (getRemoteConfig port a) /\ exclusive r)
  /\ (exists r, sends_only EngineState port r
                  (updateRemoteConfig float64_range_error port a b) /\ exclusive r)
  /\ (exists r, sends_only EngineState port r (deleteRemote port a) /\ exclusive r)
  /\ (exists r, sends_only EngineState port r (getSimpleData port) /\ exclusive r)
  /\ (exists r, sends_only EngineState port r
                  (updateSimpleData float64_range_error port a) /\ exclusive r)
  /\ (exists r, sends_only EngineState port r (getDataByName port a) /\ exclusive r)
  /\ (exists r, sends_only EngineState port r (processData port a b) /\ exclusive r)
  /\ (exists r, sends_only EngineState port r (deleteItem port a) /\ exclusive r).
Proof.
  repeat apply conj.
  - eexists. split; [apply getGeneralConfig_sends | apply exclusive_success].
  - eexists. split; [apply patchGeneralConfig_sends|].
    destruct (snd _); [apply exclusive_failure | apply exclusive_success].
  - eexists. split; [apply getRemoteConfig_sends | apply exclusive_success].
  - eexists. split; [apply updateRemoteConfig_sends|].
    destruct (snd _); [apply exclusive_failure | apply exclusive_success].
  - eexists. split; [apply deleteRemote_sends | apply exclusive_success].
  - eexists. split; [apply getSimpleData_sends | apply exclusive_success].
  - eexists. split; [apply updateSimpleData_sends|].
    destruct (snd _); [apply exclusive_failure | apply exclusive_success].
  - eexists. split; [apply getDataByName_sends|].
    destruct (_ =? _)%string; [apply exclusive_failure | apply exclusive_success].
  - eexists. split; [apply processData_sends|].
    destruct (_ || _); [apply exclusive_failure | apply exclusive_success].
  - eexists. split; [apply deleteItem_sends|].
    destruct (_ =? _)%string; [apply exclusive_failure | apply exclusive_success].
Qed.

(** C9: marshalling a [ConfigGeneralSettings] value never returns an
    error, so the failure branch of [getGeneralConfig] is not taken: for
    every token the envelope posted is a success envelope. *)
Theorem C9_getGeneralConfig_never_fails (EngineState : Type) :
  (forall x : ConfigGeneralSettings,
     exists data, json.Marshal (ConfigGeneralSettings_reflect x) = inl data)
  /\ forall (port : Z) (w : World EngineState),
       exists data,
         run (getGeneralConfig port) w
         = {| engine := engine w;
              outbox := (outbox w ++ [(port, {| Success := true; Message := "";
                                                Data := data |})])%list |}.
Proof.
  split.
  - apply Marshal_ConfigGeneralSettings_ok.
  - intros port w. eexists. apply getGeneralConfig_sends.
Qed.

(** C10: for every name, the empty one included, [deleteRemote] posts
    exactly the envelope [{success:true, message:"", data:""}]: the name
    is not checked and the engine is not touched. *)
Theorem C10_deleteRemote_always_succeeds (EngineState : Type) (port : Z)
  (remoteName : C_char_ptr) (w : World EngineState) :
  run (deleteRemote port remoteName) w
  = {| engine := engine w;
       outbox := (outbox w ++ [(port, {| Success := true; Message := "";
                                         Data := "" |})])%list |}.
Proof. reflexivity. Qed.

(** * Further properties *)

(** ** Bytes of the encoder's output *)

Lemma all_bytes_app p a b : all_bytes p (a ++ b) = all_bytes p a && all_bytes p b.
Proof.
  induction a as [|c a IH]; simpl; [reflexivity|].
  rewrite IH, andb_assoc. reflexivity.
Qed.

Lemma plain_byte_high c : 0x80 <= byte_val c -> plain_byte c = true.
Proof.
  intros H. unfold plain_byte. rewrite !ascii_eqb_val.
  change (byte_val "<") with 60. change (byte_val ">") with 62.
  change (byte_val "&") with 38.
  destruct (Z.leb_spec 0x20 (byte_val c)); [|lia].
  destruct (Z.eqb_spec (byte_val c) 60); [lia|].
  destruct (Z.eqb_spec (byte_val c) 62); [lia|].
  destruct (Z.eqb_spec (byte_val c) 38); [lia|]. reflexivity.
Qed.

Lemma plain_byte_not_nul c : plain_byte c = true -> (byte_val c =? 0) = false.
Proof.
  unfold plain_byte. intros H.
  destruct (Z.leb_spec 0x20 (byte_val c)); [|discriminate H].
  apply Z.eqb_neq. lia.
Qed.

Lemma plain_htmlSafe c : json.htmlSafeSet c = true -> plain_byte c = true.
Proof.
  unfold json.htmlSafeSet, json.safeSet, plain_byte. intros H.
  destruct (0x20 <=? byte_val c); [|discriminate H].
  destruct (c =? "<")%char; [rewrite !andb_false_r in H; discriminate H|].
  destruct (c =? ">")%char; [rewrite !andb_false_r in H; discriminate H|].
  destruct (c =? "&")%char; [rewrite !andb_false_r in H; discriminate H|].
  reflexivity.
Qed.

Lemma plain_escape_byte c : plain (json.escape_byte c) = true.
Proof.
  destruct c as [[] [] [] [] [] [] [] []]; vm_compute; reflexivity.
Qed.

Lemma plain_quoted_rune s r size :
  decodes s r size -> plain (quoted_rune s r size) = true.
Proof.
  intros H. pose proof (decodes_range _ _ _ H) as R.
  destruct H.
  - unfold quoted_rune. change (1 =? 1) with true. cbv iota.
    destruct (json.htmlSafeSet c) eqn:E.
    + unfold plain. simpl. rewrite (plain_htmlSafe _ E). reflexivity.
    + apply plain_escape_byte.
  - unfold quoted_rune. change (2 =? 1) with false. cbv iota.
    match goal with |- context [(?r =? 0x2028) || (?r =? 0x2029)] => set (rr := r) in * end.
    destruct (Z.eqb_spec rr 0x2028); [lia|]. destruct (Z.eqb_spec rr 0x2029); [lia|].
    unfold plain. simpl. rewrite !plain_byte_high by lia. reflexivity.
  - unfold quoted_rune. change (3 =? 1) with false. cbv iota.
    match goal with |- context [(?r =? 0x2028) || (?r =? 0x2029)] => set (rr := r) in * end.
    destruct (Z.eqb_spec rr 0x2028) as [->|]; [reflexivity|].
    destruct (Z.eqb_spec rr 0x2029) as [->|]; [reflexivity|].
    unfold plain. simpl. rewrite !plain_byte_high by lia. reflexivity.
  - unfold quoted_rune. change (4 =? 1) with false. cbv iota.
    match goal with |- context [(?r =? 0x2028) || (?r =? 0x2029)] => set (rr := r) in * end.
    destruct (Z.eqb_spec rr 0x2028); [lia|]. destruct (Z.eqb_spec rr 0x2029); [lia|].
    unfold plain. simpl. rewrite !plain_byte_high by lia. reflexivity.
Qed.

Lemma plain_app a b : plain (a ++ b) = plain a && plain b.
Proof. apply all_bytes_app. Qed.

Lemma plain_appendString_loop s : plain (json.appendString_loop true 0 true s) = true.
Proof.
  induction s using string_rune_ind.
  - reflexivity.
  - rewrite (appendString_rune _ _ _ H), plain_app, (plain_quoted_rune _ _ _ H).
    exact IHs.
  - rewrite (appendString_bad _ _ H H0), plain_app, IHs. reflexivity.
Qed.

Lemma plain_appendString s : plain (json.appendString s true) = true.
Proof.
  unfold json.appendString, plain. simpl.
  change (all_bytes plain_byte ?x) with (plain x).
  rewrite plain_app, plain_appendString_loop. reflexivity.
Qed.

Lemma until_nul_plain s : plain s = true -> until_nul s = s.
Proof.
  induction s as [|c s IH]; simpl; [reflexivity|].
  intros E. apply andb_true_iff in E as [E1 E2].
  rewrite (plain_byte_not_nul _ E1), (IH E2). reflexivity.
Qed.

Lemma plain_remote_data name : plain (remote_data name) = true.
Proof.
  unfold remote_data. rewrite !plain_app, plain_appendString. reflexivity.
Qed.

Lemma plain_name_data name : plain (name_data name) = true.
Proof.
  unfold name_data. rewrite !plain_app, !plain_appendString. reflexivity.
Qed.

(** ** The encoder's output is valid UTF-8 *)

Lemma string_drop_app_le n a b :
  (n <= String.length a)%nat -> string_drop n (a ++ b) = string_drop n a ++ b.
Proof.
  revert a. induction n as [|n IH]; intros a H.
  - destruct a; reflexivity.
  - destruct a as [|c a]; simpl in H; [lia|]. simpl. apply IH. lia.
Qed.

Lemma wellformed_app a b : wellformed a -> wellformed b -> wellformed (a ++ b).
Proof.
  intros Ha Hb. induction Ha as [|s r size D W IH].
  - exact Hb.
  - apply (wellformed_rune _ r size).
    + replace (s ++ b)
        with (string_take (Z.to_nat size) s ++ (string_drop (Z.to_nat size) s ++ b)).
      * apply decodes_tail, D.
      * rewrite <- append_assoc, string_take_drop. reflexivity.
    + rewrite string_drop_app_le by (apply (decodes_length _ r), D). exact IH.
Qed.

Lemma wellformed_cons c t : byte_val c < 0x80 -> wellformed t -> wellformed (String c t).
Proof.
  intros H W. apply (wellformed_rune _ (byte_val c) 1).
  - apply decodes1, H.
  - exact W.
Qed.

Lemma wellformed_ascii s :
  all_bytes (fun c => byte_val c <? 0x80) s = true -> wellformed s.
Proof.
  induction s as [|c s IH]; simpl; intros E.
  - constructor.
  - apply andb_true_iff in E as [E1 E2]. apply wellformed_cons; [lia | apply IH, E2].
Qed.

Lemma escape_byte_ascii c :
  all_bytes (fun c => byte_val c <? 0x80) (json.escape_byte c) = true.
Proof.
  destruct c as [[] [] [] [] [] [] [] []]; vm_compute; reflexivity.
Qed.

Lemma wellformed_quoted_rune s r size :
  decodes s r size -> wellformed (quoted_rune s r size).
Proof.
  intros H. pose proof (decodes_range _ _ _ H) as R. destruct H.
  - unfold quoted_rune. change (1 =? 1) with true. cbv iota.
    destruct (json.htmlSafeSet c).
    + apply wellformed_cons; [assumption | constructor].
    + apply wellformed_ascii, escape_byte_ascii.
  - unfold quoted_rune. change (2 =? 1) with false. cbv iota.
    match goal with |- context [(?r =? 0x2028) || (?r =? 0x2029)] => set (rr := r) in * end.
    destruct (Z.eqb_spec rr 0x2028); [lia|]. destruct (Z.eqb_spec rr 0x2029); [lia|].
    apply (wellformed_rune _ rr 2); [apply decodes2; assumption | constructor].
  - unfold quoted_rune. change (3 =? 1) with false. cbv iota.
    match goal with |- context [(?r =? 0x2028) || (?r =? 0x2029)] => set (rr := r) in * end.
    destruct (Z.eqb_spec rr 0x2028) as [->|]; [apply wellformed_ascii; reflexivity|].
    destruct (Z.eqb_spec rr 0x2029) as [->|]; [apply wellformed_ascii; reflexivity|].
    apply (wellformed_rune _ rr 3); [apply decodes3; assumption | constructor].
  - unfold quoted_rune. change (4 =? 1) with false. cbv iota.
    match goal with |- context [(?r =? 0x2028) || (?r =? 0x2029)] => set (rr := r) in * end.
    destruct (Z.eqb_spec rr 0x2028); [lia|]. destruct (Z.eqb_spec rr 0x2029); [lia|].
    apply (wellformed_rune _ rr 4); [apply decodes4; assumption | constructor].
Qed.

Lemma wellformed_appendString_loop s :
  wellformed (json.appendString_loop true 0 true s).
Proof.
  induction s using string_rune_ind.
  - constructor.
  - rewrite (appendString_rune _ _ _ H).
    apply wellformed_app; [apply (wellformed_quoted_rune _ _ _ H) | exact IHs].
  - rewrite (appendString_bad _ _ H H0).
    apply wellformed_app; [apply wellformed_ascii; reflexivity | exact IHs].
Qed.

Lemma wellformed_appendString s : wellformed (json.appendString s true).
Proof.
  unfold json.appendString. apply wellformed_cons; [vm_compute; reflexivity|].
  apply wellformed_app; [apply wellformed_appendString_loop|].
  apply wellformed_ascii. reflexivity.
Qed.

Lemma wellformed_ValidString s : wellformed s -> utf8.ValidString s = true.
Proof.
  intros W. unfold utf8.ValidString. induction W as [|s r size D W IH].
  - reflexivity.
  - destruct (decodes_cons _ _ _ D) as [c [t [-> Hdrop]]].
    rewrite valid_from_0, (decodes_DecodeRune _ _ _ D), (decodes_not_error _ _ _ D).
    rewrite valid_from_drop, <- Hdrop. exact IH.
Qed.

(** ** Objects of strings, read into a map *)

Lemma literal_value_quoted s :
  exists s', json.literal_value (quote_text s) = json.JString s'.
Proof.
  unfold quote_text, json.appendString, json.literal_value.
  change (dquote =? "n")%char with false. change (dquote =? "t")%char with false.
  change (dquote =? "f")%char with false. change (dquote =? dquote)%char with true.
  cbv iota. destruct (json.unquoteBytes _); eexists; reflexivity.
Qed.

Lemma good_quoted k s :
  json.unquoteBytes (json.appendString k true) = Some k ->
  good_member (k, quote_text s, json.literal_value (quote_text s)).
Proof.
  intros Hk. refine (conj Hk (conj eq_refl _)).
  exists json.stateEndValue. split; [left; reflexivity|].
  apply begins_appendString. left. reflexivity.
Qed.

Lemma Unmarshal_map_object float64_range_error ms :
  Forall good_member ms ->
  convertNumber_error float64_range_error (json.JObject (map member_value ms)) = None ->
  Unmarshal_map float64_range_error (members_text ms "{") None
  = (Some (fold_left (fun acc kv => map_set (fst kv) (snd kv) acc)
             (map member_value ms) []), None).
Proof.
  intros G E. unfold Unmarshal_map.
  rewrite (checkValid_object _ G), (decode_object _ G), E. reflexivity.
Qed.

Lemma remote_data_members name :
  remote_data name
  = members_text
      [ ("name", quote_text name, json.literal_value (quote_text name));
        ("type", quote_text "s3", json.literal_value (quote_text "s3"));
        ("url", quote_text "https://example.com",
         json.literal_value (quote_text "https://example.com")) ] "{".
Proof. reflexivity. Qed.

Lemma name_data_members name :
  name_data name
  = members_text
      [ ("data", quote_text ("result for " ++ name),
         json.literal_value (quote_text ("result for " ++ name)));
        ("name", quote_text name, json.literal_value (quote_text name)) ] "{".
Proof.
  unfold name_data, members_text, quote_text.
  change (json.appendString "data" true) with (sq "'data'").
  change (json.appendString "name" true) with (sq "'name'").
  reflexivity.
Qed.

Lemma Unmarshal_map_remote_data float64_range_error name :
  Unmarshal_map float64_range_error (remote_data name) None
  = (Some [ ("name", json.literal_value (quote_text name));
            ("type", json.JString "s3");
            ("url", json.JString "https://example.com") ], None).
Proof.
  rewrite remote_data_members, Unmarshal_map_object.
  - reflexivity.
  - repeat (apply Forall_cons; [apply good_quoted; reflexivity|]). apply Forall_nil.
  - destruct (literal_value_quoted name) as [s' E].
    cbn [map member_value]. rewrite E. reflexivity.
Qed.

Lemma Unmarshal_map_name_data float64_range_error name :
  Unmarshal_map float64_range_error (name_data name) None
  = (Some [ ("data", json.literal_value (quote_text ("result for " ++ name)));
            ("name", json.literal_value (quote_text name)) ], None).
Proof.
  rewrite name_data_members, Unmarshal_map_object.
  - reflexivity.
  - repeat (apply Forall_cons; [apply good_quoted; reflexivity|]). apply Forall_nil.
  - destruct (literal_value_quoted name) as [s' E].
    destruct (literal_value_quoted ("result for " ++ name)) as [s'' E'].
    cbn [map member_value]. rewrite E, E'. reflexivity.
Qed.

(** ** Calls in sequence *)

Lemma run_seq {EngineState} (a b : Action EngineState unit) w :
  run (bind a (fun _ => b)) w = run b (run a w).
Proof. unfold run, bind. destruct (a w) as [x w']. reflexivity. Qed.

Lemma sends_only_seq EngineState p q r r' (a b : Action EngineState unit) :
  sends_only EngineState p r a -> sends_only EngineState q r' b ->
  forall w, run (bind a (fun _ => b)) w
            = {| engine := engine w;
                 outbox := (outbox w ++ [(p, r); (q, r')])%list |}.
Proof.
  intros Ha Hb w. rewrite run_seq, Ha, Hb. simpl.
  rewrite <- app_assoc. reflexivity.
Qed.

(** ** The C strings *)

Lemma until_nul_app_nul a b : until_nul (a ++ String nul b) = until_nul a.
Proof.
  induction a as [|c a IH]; simpl.
  - reflexivity.
  - destruct (byte_val c =? 0); [reflexivity | rewrite IH; reflexivity].
Qed.

Lemma until_nul_prefix s : exists rest, s = until_nul s ++ rest.
Proof.
  induction s as [|c s [rest IH]]; simpl.
  - exists "". reflexivity.
  - destruct (byte_val c =? 0).
    + exists (String c s). reflexivity.
    + exists rest. simpl. rewrite <- IH. reflexivity.
Qed.

Lemma until_nul_no_nul s :
  all_bytes (fun c => negb (byte_val c =? 0)) (until_nul s) = true.
Proof.
  induction s as [|c s IH]; simpl; [reflexivity|].
  destruct (byte_val c =? 0) eqn:E; simpl; [reflexivity|].
  rewrite E, IH. reflexivity.
Qed.

(** ** White space *)

Lemma checkValid_loop_space s sc :
  all_space s = true ->
  json.step sc = json.stateBeginValue -> json.endTop sc = false -> json.err sc = None ->
  json.checkValid_loop s sc
  = Some {| json.msg := "unexpected end of JSON input";
            json.Offset := json.bytes sc + Z.of_nat (String.length s) |}.
Proof.
  revert sc. induction s as [|c s IH]; intros sc Hs Hstep Htop Herr.
  - destruct sc as [st et ps er by_]. simpl in *. subst. unfold json.checkValid_loop, json.eof.
    simpl. rewrite Z.add_0_r. reflexivity.
  - simpl in Hs. apply andb_true_iff in Hs as [Hc Hs].
    destruct sc as [st et ps er by_]. simpl in *. subst.
    unfold json.checkValid_loop; fold json.checkValid_loop.
    unfold json.count_byte, json.run_step, json.run_stateBeginValue. simpl.
    rewrite Hc. rewrite IH; try reflexivity; [|exact Hs].
    simpl. f_equal. f_equal. lia.
Qed.

(** ** The text of a general configuration *)

Lemma digit_byte c : json.isDigit c = true -> 48 <= byte_val c <= 57.
Proof.
  intros H. apply in_range_spec in H.
  change (byte_val "0") with 48 in H. change (byte_val "9") with 57 in H. exact H.
Qed.

Lemma plain_digits s : all_digits s = true -> plain s = true.
Proof.
  unfold plain. induction s as [|c s IH]; simpl; [reflexivity|].
  intros E. apply andb_true_iff in E as [E1 E2]. apply digit_byte in E1.
  rewrite (IH E2), andb_true_r.
  unfold plain_byte. rewrite !ascii_eqb_val.
  change (byte_val "<") with 60. change (byte_val ">") with 62.
  change (byte_val "&") with 38.
  destruct (Z.leb_spec 0x20 (byte_val c)); [|lia].
  destruct (Z.eqb_spec (byte_val c) 60); [lia|].
  destruct (Z.eqb_spec (byte_val c) 62); [lia|].
  destruct (Z.eqb_spec (byte_val c) 38); [lia|]. reflexivity.
Qed.

Lemma ascii_digits s :
  all_digits s = true -> all_bytes (fun c => byte_val c <? 0x80) s = true.
Proof.
  induction s as [|c s IH]; simpl; [reflexivity|].
  intros E. apply andb_true_iff in E as [E1 E2]. apply digit_byte in E1.
  rewrite (IH E2), andb_true_r. apply Z.ltb_lt. lia.
Qed.

Lemma FormatInt_digits z :
  exists sign digits,
    strconv.FormatInt z = sign ++ digits /\ (sign = "" \/ sign = "-")
    /\ all_digits digits = true.
Proof.
  unfold strconv.FormatInt. destruct (Z.ltb_spec z 0).
  - exists "-", (strconv.formatBits 20 (- z)).
    split; [reflexivity|]. split; [right; reflexivity|].
    apply formatBits_digits. lia.
  - exists "", (strconv.formatBits 20 z).
    split; [reflexivity|]. split; [left; reflexivity|].
    apply formatBits_digits. lia.
Qed.

Lemma plain_FormatInt z : plain (strconv.FormatInt z) = true.
Proof.
  destruct (FormatInt_digits z) as [sign [digits [-> [[->| ->] H]]]];
    rewrite plain_app, (plain_digits _ H); reflexivity.
Qed.

Lemma wellformed_FormatInt z : wellformed (strconv.FormatInt z).
Proof.
  destruct (FormatInt_digits z) as [sign [digits [-> [[->| ->] H]]]];
    (apply wellformed_app;
     [apply wellformed_ascii; reflexivity | apply wellformed_ascii, ascii_digits, H]).
Qed.

(** The texts of the members are plain and valid UTF-8. *)
Lemma plain_members_text ms next :
  plain next = true ->
  Forall (fun m : member => plain (snd (fst m)) = true) ms ->
  plain (members_text ms next) = true.
Proof.
  intros Hn H. revert next Hn. induction H as [|[[k text] v] ms Hm H IH]; intros next Hn.
  - simpl. destruct (next =? "{")%string; reflexivity.
  - simpl in Hm. cbn [members_text].
    rewrite !plain_app, Hn, plain_appendString, Hm, IH; reflexivity.
Qed.

Lemma wellformed_members_text ms next :
  wellformed next ->
  Forall (fun m : member => wellformed (snd (fst m))) ms ->
  wellformed (members_text ms next).
Proof.
  intros Hn H. revert next Hn. induction H as [|[[k text] v] ms Hm H IH]; intros next Hn.
  - simpl. destruct (next =? "{")%string; apply wellformed_ascii; reflexivity.
  - simpl in Hm. cbn [members_text].
    repeat apply wellformed_app; try assumption.
    + apply wellformed_appendString.
    + apply wellformed_ascii. reflexivity.
    + apply IH. apply wellformed_ascii. reflexivity.
Qed.

Lemma Forall_opt_member {A} (P : member -> Prop) k (text : A -> string) val p :
  (forall a, p = Some a -> P (k, text a, val a)) -> Forall P (opt_member k text val p).
Proof. intros H. destruct p; simpl; repeat constructor. apply H. reflexivity. Qed.

Lemma plain_bool_text b : plain (bool_text b) = true.
Proof. destruct b; reflexivity. Qed.

Lemma ConfigGeneralSettings_members_plain x :
  Forall (fun m : member => plain (snd (fst m)) = true) (ConfigGeneralSettings_members x).
Proof.
  unfold ConfigGeneralSettings_members.
  repeat (apply Forall_app; split); apply Forall_opt_member; intros a _; simpl.
  - apply plain_bool_text.
  - apply plain_appendString.
  - apply plain_appendString.
  - apply plain_FormatInt.
  - apply plain_FormatInt.
  - apply plain_FormatInt.
  - apply plain_FormatInt.
  - apply plain_FormatInt.
Qed.

Lemma ConfigGeneralSettings_members_wellformed x :
  Forall (fun m : member => wellformed (snd (fst m))) (ConfigGeneralSettings_members x).
Proof.
  unfold ConfigGeneralSettings_members.
  repeat (apply Forall_app; split); apply Forall_opt_member; intros a _; simpl.
  - destruct a; apply wellformed_ascii; reflexivity.
  - apply wellformed_appendString.
  - apply wellformed_appendString.
  - apply wellformed_FormatInt.
  - apply wellformed_FormatInt.
  - apply wellformed_FormatInt.
  - apply wellformed_FormatInt.
  - apply wellformed_FormatInt.
Qed.

Lemma plain_Marshal x :
  plain (members_text (ConfigGeneralSettings_members x) "{") = true.
Proof. apply plain_members_text; [reflexivity | apply ConfigGeneralSettings_members_plain]. Qed.

(** The text of the members depends on their keys and texts only. *)
Lemma members_text_ext ms ms' next :
  map fst ms = map fst ms' -> members_text ms next = members_text ms' next.
Proof.
  revert ms' next. induction ms as [|[[k t] v] ms IH]; intros [|[[k' t'] v'] ms'] next E;
    try discriminate E.
  - reflexivity.
  - simpl in E. injection E as -> -> E. cbn [members_text]. rewrite (IH _ _ E).
    reflexivity.
Qed.

(** ** Strings that are not valid UTF-8 *)

Lemma replace_invalid_loop_copy k s :
  replace_invalid_loop k s
  = string_take k s ++ replace_invalid_loop 0 (string_drop k s).
Proof.
  revert s. induction k as [|k IH]; intros [|c t]; try reflexivity.
  simpl. rewrite IH. reflexivity.
Qed.

Lemma replace_invalid_rune s r size :
  decodes s r size ->
  replace_invalid s
  = string_take (Z.to_nat size) s ++ replace_invalid (string_drop (Z.to_nat size) s).
Proof.
  intros D. pose proof (decodes_size _ _ _ D) as Hs.
  pose proof (decodes_DecodeRune _ _ _ D) as E.
  pose proof (decodes_not_error _ _ _ D) as NE.
  destruct (decodes_cons _ _ _ D) as [c [t [-> Hdrop]]].
  unfold replace_invalid. cbn [replace_invalid_loop]. rewrite E, NE, Hdrop.
  rewrite replace_invalid_loop_copy.
  destruct (Z.to_nat size) as [|n] eqn:En; [lia|].
  simpl. rewrite Nat.sub_0_r. reflexivity.
Qed.

Lemma replace_invalid_bad c t :
  utf8.DecodeRune (String c t) = (utf8.RuneError, 1) ->
  replace_invalid (String c t) = utf8.EncodeRune utf8.RuneError ++ replace_invalid t.
Proof.
  intros E. unfold replace_invalid. cbn [replace_invalid_loop]. rewrite E. reflexivity.
Qed.

Lemma replace_invalid_wellformed s : wellformed s -> replace_invalid s = s.
Proof.
  intros W. induction W as [|s r size D W IH]; [reflexivity|].
  rewrite (replace_invalid_rune _ _ _ D), IH. apply string_take_drop.
Qed.

Lemma string_drop_take n s : string_drop n (string_take n s) = "".
Proof.
  revert s. induction n as [|n IH]; intros [|c t]; simpl; try reflexivity. apply IH.
Qed.

Lemma wellformed_take s r size :
  decodes s r size -> wellformed (string_take (Z.to_nat size) s).
Proof.
  intros D. apply (wellformed_rune _ r size).
  - rewrite <- (append_nil_r (string_take (Z.to_nat size) s)). apply decodes_tail, D.
  - rewrite string_drop_take. constructor.
Qed.

Lemma wellformed_replace_invalid s : wellformed (replace_invalid s).
Proof.
  induction s using string_rune_ind.
  - constructor.
  - rewrite (replace_invalid_rune _ _ _ H).
    apply wellformed_app; [apply (wellformed_take _ _ _ H) | exact IHs].
  - rewrite (replace_invalid_bad _ _ H0).
    apply wellformed_app; [|exact IHs].
    apply (wellformed_rune _ 0xFFFD 3); [|constructor].
    apply (decodes3 (byte_of 0xEF) (byte_of 0xBF) (byte_of 0xBD) "");
      vm_compute; intuition discriminate.
Qed.

(** The replacement changes nothing exactly when the string is valid
    UTF-8. *)
Lemma replace_invalid_fixed s : replace_invalid s = s <-> utf8.ValidString s = true.
Proof.
  split.
  - intros E. apply wellformed_ValidString. rewrite <- E. apply wellformed_replace_invalid.
  - intros V. apply replace_invalid_wellformed, ValidString_wellformed, V.
Qed.

Lemma unquote_loop_appendString_any s :
  json.unquote_loop 0 (json.appendString_loop true 0 true s) = Some (replace_invalid s).
Proof.
  induction s as [|s r size D IH|c t Hc E IH] using string_rune_ind.
  - reflexivity.
  - rewrite (appendString_rune _ _ _ D), (unquote_quoted_rune _ _ _ _ D), IH.
    rewrite (replace_invalid_rune _ _ _ D). reflexivity.
  - rewrite (appendString_bad _ _ Hc E), (replace_invalid_bad _ _ E).
    change ("\ufffd" ++ json.appendString_loop true 0 true t)
      with (String "\" (String "u" (String "f" (String "f" (String "f" (String "d"
              (json.appendString_loop true 0 true t))))))).
    rewrite (unquote_loop_u "f" "f" "f" "d" (json.appendString_loop true 0 true t) 0xFFFD);
      [| reflexivity | lia | reflexivity].
    rewrite IH. reflexivity.
Qed.

Lemma unquoteBytes_appendString_any s :
  json.unquoteBytes (json.appendString s true) = Some (replace_invalid s).
Proof.
  unfold json.appendString, json.unquoteBytes.
  set (A := json.appendString_loop true 0 true s).
  rewrite string_last_app. rewrite Ascii.eqb_refl.
  replace (String.length (String dquote (A ++ str1 dquote)) <? 2)%nat with false
    by (symmetry; apply Nat.ltb_ge; simpl; rewrite length_append; simpl; lia).
  cbn [orb negb].
  replace (String.length (A ++ str1 dquote) - 1)%nat with (String.length A)
    by (rewrite length_append; simpl; lia).
  rewrite string_take_app.
  fold (unquote_from A (json.unquote_plain 0 A)).
  rewrite unquote_fast_path. apply unquote_loop_appendString_any.
Qed.

Lemma literal_value_any s :
  json.literal_value (quote_text s) = json.JString (replace_invalid s).
Proof.
  unfold quote_text, json.literal_value.
  rewrite unquoteBytes_appendString_any. reflexivity.
Qed.

Lemma replace_invalid_ascii_app a b :
  all_bytes (fun c => byte_val c <? 0x80) a = true ->
  replace_invalid (a ++ b) = a ++ replace_invalid b.
Proof.
  induction a as [|c a IH]; simpl; intros E; [reflexivity|].
  apply andb_true_iff in E as [E1 E2].
  rewrite (replace_invalid_rune (String c (a ++ b)) (byte_val c) 1)
    by (apply decodes1; lia).
  simpl. rewrite (IH E2). reflexivity.
Qed.

(** Decoding the text of any general configuration gives it back with its
    strings replaced. *)
Lemma Unmarshal_Marshal_any x :
  ConfigGeneralSettings_ok x ->
  Unmarshal_ConfigGeneralSettings
    (members_text (ConfigGeneralSettings_members x) "{") ConfigGeneralSettings_zero
  = (ConfigGeneralSettings_replace_invalid x, None).
Proof.
  intros Hok.
  pose (ms := (opt_member "allowLan" bool_text json.JBool (AllowLan x)
               ++ opt_member "bindAddress" quote_text
                    (fun s => json.literal_value (quote_text s)) (BindAddress x)
               ++ opt_member "logLevel" quote_text
                    (fun s => json.literal_value (quote_text s)) (LogLevel x)
               ++ opt_member "port" strconv.FormatInt int_value (Port x)
               ++ opt_member "socksPort" strconv.FormatInt int_value (SocksPort x)
               ++ opt_member "mixedPort" strconv.FormatInt int_value (MixedPort x)
               ++ opt_member "redirPort" strconv.FormatInt int_value (RedirPort x)
               ++ opt_member "tproxyPort" strconv.FormatInt int_value (TProxyPort x))%list).
  assert (Htext : members_text (ConfigGeneralSettings_members x) "{" = members_text ms "{").
  { apply members_text_ext. unfold ConfigGeneralSettings_members, ms.
    rewrite !map_app. destruct (BindAddress x), (LogLevel x); reflexivity. }
  assert (Hval : map member_value ms
                 = map member_value
                     (ConfigGeneralSettings_members (ConfigGeneralSettings_replace_invalid x))).
  { unfold ConfigGeneralSettings_members, ms, ConfigGeneralSettings_replace_invalid.
    cbn [BindAddress LogLevel AllowLan Port SocksPort MixedPort RedirPort TProxyPort].
    rewrite !map_app.
    destruct (BindAddress x), (LogLevel x); cbn [opt_member option_map map member_value];
      rewrite ?literal_value_any; reflexivity. }
  assert (G : Forall good_member ms).
  { destruct Hok as [H1 [H2 [H3 [H4 H5]]]]. unfold ms.
    repeat (apply Forall_app; split); apply Forall_opt_member; intros a E.
    - apply good_bool. reflexivity.
    - apply good_quoted. reflexivity.
    - apply good_quoted. reflexivity.
    - apply good_int; [reflexivity|]. rewrite E in H1. exact H1.
    - apply good_int; [reflexivity|]. rewrite E in H2. exact H2.
    - apply good_int; [reflexivity|]. rewrite E in H3. exact H3.
    - apply good_int; [reflexivity|]. rewrite E in H4. exact H4.
    - apply good_int; [reflexivity|]. rewrite E in H5. exact H5. }
  rewrite Htext. unfold Unmarshal_ConfigGeneralSettings.
  rewrite (checkValid_object _ G), (decode_object _ G), Hval.
  apply object_members. exact Hok.
Qed.

Lemma ConfigGeneralSettings_replace_invalid_fixed x :
  ConfigGeneralSettings_replace_invalid x = x <-> ConfigGeneralSettings_utf8 x = true.
Proof.
  destruct x as [a b l p s m r t]. unfold ConfigGeneralSettings_replace_invalid,
    ConfigGeneralSettings_utf8. cbn [BindAddress LogLevel AllowLan Port SocksPort MixedPort
    RedirPort TProxyPort].
  split.
  - intros E. injection E as Eb El. apply andb_true_iff. split.
    + destruct b as [sb|]; [|reflexivity]. simpl in Eb |- *. injection Eb as Eb.
      apply replace_invalid_fixed, Eb.
    + destruct l as [sl|]; [|reflexivity]. simpl in El |- *. injection El as El.
      apply replace_invalid_fixed, El.
  - intros E. apply andb_true_iff in E as [Eb El]. f_equal.
    + destruct b as [sb|]; [|reflexivity]. simpl in Eb |- *.
      f_equal. apply replace_invalid_fixed, Eb.
    + destruct l as [sl|]; [|reflexivity]. simpl in El |- *.
      f_equal. apply replace_invalid_fixed, El.
Qed.

(** ** A literal in place of the object *)

Lemma checkValid_loop_eof data s d :
  in_step s (json.scan d) ->
  json.err (json.scan (decode_run data d)) = None ->
  exists s', in_step s' (json.scan (decode_run data d))
             /\ json.checkValid_loop data s = json.eof s'.
Proof.
  revert s d. induction data as [|c rest IH]; intros s d R Herr.
  - exists s. split; [exact R | reflexivity].
  - simpl in Herr |- *.
    assert (E1 : json.err (fst (json.run_step (json.scan d) c)) = None).
    { destruct (json.err (fst (json.run_step (json.scan d) c))) eqn:E; [|reflexivity].
      exfalso. apply (decode_run_err rest (json.decode_byte d c)); [|exact Herr].
      rewrite scan_decode_byte, E. discriminate. }
    destruct (run_step_in_step s (json.scan d) c R E1) as [R' [Eop Nop]].
    destruct (json.run_step (json.count_byte s) c) as [s1 op]. cbn [fst snd] in *.
    destruct (IH s1 (json.decode_byte d c)) as [s' [R'' E]]; [|exact Herr|].
    { rewrite scan_decode_byte. exact R'. }
    exists s'. split; [exact R''|].
    rewrite Eop. destruct (snd (json.run_step (json.scan d) c)); try exact E.
    contradiction.
Qed.

Lemma eof_ends_value s st :
  ends_value st ->
  json.step s = st -> json.endTop s = false -> json.parseStack s = [] ->
  json.err s = None -> json.eof s = None.
Proof.
  destruct s as [st0 et ps er b]. cbn [json.step json.endTop json.parseStack json.err].
  intros H -> -> -> ->. destruct H as [->|[->| ->]]; reflexivity.
Qed.

Lemma top_literal text st' :
  ends_value st' -> begins json.stateBeginValue text st' ->
  json.checkValid text = None /\ json.decode text = json.literal_value text.
Proof.
  intros He Hb.
  assert (Hrun : decode_run text d_start = reading st' json.new_scanner text [] None).
  { apply (Hb json.new_scanner None [] None). }
  split.
  - unfold json.checkValid.
    destruct (checkValid_loop_eof text json.new_scanner d_start) as [s' [R E]].
    + repeat split; discriminate.
    + rewrite Hrun. reflexivity.
    + rewrite E. rewrite Hrun in R.
      destruct R as [R1 [R2 [R3 [R4 _]]]].
      apply (eof_ends_value s' st' He); assumption.
  - unfold json.decode. change {| json.scan := json.new_scanner; json.literal := None;
                                  json.open_ := []; json.top := None |} with d_start.
    rewrite decode_loop_run, Hrun. reflexivity.
Qed.

Lemma describe_quoted s : json.describe (json.literal_value (quote_text s)) = "string".
Proof. destruct (literal_value_quoted s) as [s' ->]. reflexivity. Qed.

Lemma literal_value_not_object text ms : json.literal_value text <> json.JObject ms.
Proof.
  unfold json.literal_value. destruct text as [|c t]; [discriminate|].
  repeat match goal with |- context [if ?b then _ else _] => destruct b end;
    try discriminate.
  destruct (json.unquoteBytes _); discriminate.
Qed.

Lemma Unmarshal_map_literal float64_range_error text st' :
  ends_value st' -> begins json.stateBeginValue text st' ->
  json.literal_value text <> json.JNull ->
  option_map json.Error (snd (Unmarshal_map float64_range_error text None))
  = Some ("json: cannot unmarshal " ++ json.describe (json.literal_value text)
          ++ " into Go value of type map[string]interface {}").
Proof.
  intros He Hb Hn. destruct (top_literal text st' He Hb) as [E1 E2].
  unfold Unmarshal_map. rewrite E1, E2.
  pose proof (fun ms => literal_value_not_object text ms) as Ho.
  destruct (json.literal_value text); try reflexivity.
  - contradiction.
  - exfalso. apply (Ho members). reflexivity.
Qed.

Lemma Unmarshal_settings_literal text st' :
  ends_value st' -> begins json.stateBeginValue text st' ->
  json.literal_value text <> json.JNull ->
  option_map json.Error
    (snd (Unmarshal_ConfigGeneralSettings text ConfigGeneralSettings_zero))
  = Some ("json: cannot unmarshal " ++ json.describe (json.literal_value text)
          ++ " into Go value of type bridge.ConfigGeneralSettings").
Proof.
  intros He Hb Hn. destruct (top_literal text st' He Hb) as [E1 E2].
  unfold Unmarshal_ConfigGeneralSettings. rewrite E1, E2.
  pose proof (fun ms => literal_value_not_object text ms) as Ho.
  destruct (json.literal_value text); try reflexivity.
  - contradiction.
  - exfalso. apply (Ho members). reflexivity.
Qed.

Lemma sends_failure_of_error (o : option json.error) m :
  option_map json.Error o = Some m ->
  match o with
  | Some err => failure (json.Error err)
  | None => success ""
  end = {| Success := false; Message := m; Data := "" |}.
Proof. destruct o; simpl; intros E; [injection E as <-; reflexivity | discriminate E]. Qed.

(** * Input that does not decode *)

(** ** The scanner accepts JSON texts only *)

Lemma isSpace_white c : json.isSpace c = white c.
Proof. destruct c as [[] [] [] [] [] [] [] []]; reflexivity. Qed.

Lemma isHex_hex_digit c : json.isHex c = hex_digit c.
Proof. reflexivity. Qed.

Lemma count_byte_err s : json.err (json.count_byte s) = json.err s.
Proof. reflexivity. Qed.

Lemma checkValid_loop_err r s : json.err s <> None -> json.checkValid_loop r s <> None.
Proof.
  revert s. induction r as [|c r IH]; intros s H.
  - simpl. unfold json.eof. destruct (json.err s); [discriminate | contradiction].
  - simpl.
    pose proof (run_step_err (json.count_byte s) c H) as H'.
    destruct (json.run_step (json.count_byte s) c) as [s' op]. simpl in H'.
    destruct op; try (apply IH, H'). exact H'.
Qed.

Lemma blank_cons c r : white c = true -> blank r = true -> blank (String c r) = true.
Proof. intros H1 H2. unfold blank in *. simpl. rewrite H1, H2. reflexivity. Qed.

Lemma array_tail_white c t : white c = true -> array_tail t -> array_tail (String c t).
Proof.
  intros Hc H. destruct H as [w Hw|w w' v t Hw Hw' Hv Ht].
  - apply (array_tail_end (String c w)). apply blank_cons; assumption.
  - apply (array_tail_next (String c w) w' v t); try assumption.
    apply blank_cons; assumption.
Qed.

Lemma object_tail_white c t : white c = true -> object_tail t -> object_tail (String c t).
Proof.
  intros Hc H. destruct H as [w Hw|w w' k w1 w2 v t Hw Hw' Hk Hw1 Hw2 Hv Ht].
  - apply (object_tail_end (String c w)). apply blank_cons; assumption.
  - apply (object_tail_next (String c w) w' k w1 w2 v t); try assumption.
    apply blank_cons; assumption.
Qed.

Lemma after_white c ps r : white c = true -> after ps r -> after ps (String c r).
Proof.
  intros Hc H. destruct ps as [|[] ps]; cbn [after] in *.
  - apply blank_cons; assumption.
  - destruct H as [w1 [w2 [v [t [r' [-> [H1 H]]]]]]].
    exists (String c w1), w2, v, t, r'. split; [reflexivity|].
    split; [apply blank_cons; assumption | exact H].
  - destruct H as [t [r' [-> [Ht H]]]].
    exists (String c t), r'. split; [reflexivity|].
    split; [apply object_tail_white; assumption | exact H].
  - destruct H as [t [r' [-> [Ht H]]]].
    exists (String c t), r'. split; [reflexivity|].
    split; [apply array_tail_white; assumption | exact H].
Qed.

Lemma value_then_white c ps r : white c = true -> value_then ps r -> value_then ps (String c r).
Proof.
  intros Hc [w [v [r' [-> [Hw H]]]]]. exists (String c w), v, r'.
  split; [reflexivity|]. split; [apply blank_cons; assumption | exact H].
Qed.

Lemma key_then_white c ps r : white c = true -> key_then ps r -> key_then ps (String c r).
Proof.
  intros Hc [w [k [r' [-> [Hw H]]]]]. exists (String c w), k, r'.
  split; [reflexivity|]. split; [apply blank_cons; assumption | exact H].
Qed.

Ltac split_if A :=
  match type of A with
  | context [if ?b then _ else _] => let E := fresh "E" in destruct b eqn:E
  end.

Ltac fin A :=
  cbn [fst snd json.err] in A;
  try discriminate A;
  try (exfalso; eapply checkValid_loop_err; [|exact A]; discriminate).

Ltac char_facts :=
  repeat match goal with
         | H : (_ =? _)%char = true |- _ => apply Ascii.eqb_eq in H; subst
         end.

Ltac scanning_ok :=
  split; [reflexivity | split; [discriminate | intros; try reflexivity; discriminate]].

Section Step.

Variable r : string.
Hypothesis IH :
  forall s, scanning s -> json.checkValid_loop r s = None ->
            scan_spec (json.step s) (json.parseStack s) r.

Lemma endvalue_sound st ps b c :
  (let '(s', op) :=
     json.run_stateEndValue
       {| json.step := st; json.endTop := false; json.parseStack := ps;
          json.err := None; json.bytes := b |} c in
   match op with
   | json.scanError => json.err s'
   | _ => json.checkValid_loop r s'
   end) = None ->
  after ps (String c r).
Proof.
  intros A. unfold json.run_stateEndValue in A. cbn [json.parseStack] in A.
  destruct ps as [|p ps].
  - unfold json.run_stateEndTop, json.scanner_error in A. rewrite isSpace_white in A.
    destruct (white c) eqn:E; cbn [negb] in A; fin A.
    apply IH in A; [|scanning_ok]. cbn [json.step scan_spec] in A.
    apply blank_cons; assumption.
  - rewrite isSpace_white in A. destruct (white c) eqn:E.
    + unfold json.set_step in A. fin A. apply IH in A; [|scanning_ok].
      cbn [json.step json.parseStack scan_spec] in A. apply after_white; assumption.
    + destruct p; unfold json.scanner_error, json.set_step, json.set_stack,
        json.popParseState in A; cbn [json.step json.endTop json.parseStack json.err
        json.bytes List.tl] in A.
      * (* after an object key *)
        split_if A; fin A. char_facts. apply IH in A; [|scanning_ok].
        cbn [json.step json.parseStack scan_spec] in A.
        destruct A as [w [v [r' [-> [Hw [Hv [t [r'' [-> [Ht H]]]]]]]]]].
        exists "", w, v, t, r''. split; [reflexivity|].
        repeat split; assumption.
      * (* after a member *)
        split_if A; [|split_if A]; fin A; char_facts.
        -- apply IH in A; [|scanning_ok].
           cbn [json.step json.parseStack scan_spec] in A.
           destruct A as [w [k [r' [-> [Hw [Hk [w1 [w2 [v [t [r'' [-> [H1 [H2 [Hv [Ht H]]]]]]]]]]]]]]]].
           exists (String "," (w ++ k ++ w1 ++ String ":" (w2 ++ v ++ t))), r''.
           split; [simpl; rewrite !append_assoc; simpl; rewrite !append_assoc; reflexivity|].
           split; [|exact H].
           apply (object_tail_next "" w k w1 w2 v t); try assumption. reflexivity.
        -- destruct ps as [|p' ps'].
           ++ apply IH in A; [|scanning_ok]. cbn [json.step scan_spec] in A.
              exists "}", r. split; [reflexivity|].
              split; [apply (object_tail_end ""); reflexivity | exact A].
           ++ apply IH in A; [|scanning_ok].
              cbn [json.step json.parseStack scan_spec] in A.
              exists "}", r. split; [reflexivity|].
              split; [apply (object_tail_end ""); reflexivity | exact A].
      * (* after an element *)
        split_if A; [|split_if A]; fin A; char_facts.
        -- apply IH in A; [|scanning_ok].
           cbn [json.step json.parseStack scan_spec] in A.
           destruct A as [w [v [r' [-> [Hw [Hv [t [r'' [-> [Ht H]]]]]]]]]].
           exists (String "," (w ++ v ++ t)), r''.
           split; [simpl; rewrite !append_assoc; reflexivity|].
           split; [|exact H].
           apply (array_tail_next "" w v t); try assumption. reflexivity.
        -- destruct ps as [|p' ps'].
           ++ apply IH in A; [|scanning_ok]. cbn [json.step scan_spec] in A.
              exists "]", r. split; [reflexivity|].
              split; [apply (array_tail_end ""); reflexivity | exact A].
           ++ apply IH in A; [|scanning_ok].
              cbn [json.step json.parseStack scan_spec] in A.
              exists "]", r. split; [reflexivity|].
              split; [apply (array_tail_end ""); reflexivity | exact A].
Qed.


Ltac ih A :=
  apply IH in A; [cbn [json.step json.parseStack scan_spec] in A | scanning_ok].

Ltac assoc := simpl; rewrite ?append_assoc; simpl; rewrite ?append_assoc; reflexivity.

Lemma beginvalue_sound st ps b c :
  white c = false ->
  (let '(s', op) :=
     json.run_stateBeginValue
       {| json.step := st; json.endTop := false; json.parseStack := ps;
          json.err := None; json.bytes := b |} c in
   match op with
   | json.scanError => json.err s'
   | _ => json.checkValid_loop r s'
   end) = None ->
  value_then ps (String c r).
Proof.
  intros Hw A. unfold json.run_stateBeginValue in A. rewrite isSpace_white, Hw in A.
  unfold json.pushParseState, json.scanner_error, json.set_step, json.set_stack in A.
  cbn [json.step json.endTop json.parseStack json.err json.bytes] in A.
  split_if A; [|split_if A; [|split_if A; [|split_if A; [|split_if A; [|split_if A;
    [|split_if A; [|split_if A; [|split_if A]]]]]]]]; char_facts.
  - (* object *)
    split_if A; fin A. ih A. destruct A as [[w [r' [-> [Hb H]]]]|[w [k [r1 [-> [Hb [Hk H]]]]]]].
    + exists "", (String "{" (w ++ "}")), r'. split; [assoc|].
      split; [reflexivity|]. split; [apply jvalue_object_empty, Hb | exact H].
    + destruct H as [w1 [w2 [v [t [r' [-> [H1 [H2 [Hv [Ht H]]]]]]]]]].
      exists "", (String "{" (w ++ k ++ w1 ++ String ":" (w2 ++ v ++ t))), r'.
      split; [assoc|]. split; [reflexivity|].
      split; [apply jvalue_object; assumption | exact H].
  - (* array *)
    split_if A; fin A. ih A. destruct A as [[w [r' [-> [Hb H]]]]|[w [v [r1 [-> [Hb [Hv H]]]]]]].
    + exists "", (String "[" (w ++ "]")), r'. split; [assoc|].
      split; [reflexivity|]. split; [apply jvalue_array_empty, Hb | exact H].
    + destruct H as [t [r' [-> [Ht H]]]].
      exists "", (String "[" (w ++ v ++ t)), r'. split; [assoc|].
      split; [reflexivity|]. split; [apply jvalue_array; assumption | exact H].
  - (* string *)
    ih A. destruct A as [bd [r' [-> [Hs H]]]].
    exists "", (String dquote bd), r'. split; [reflexivity|]. split; [reflexivity|].
    split; [|exact H]. apply jvalue_string. exists bd. split; [reflexivity | exact Hs].
  - (* minus *)
    ih A. destruct A as [i [f [e [r' [-> [Hi [Hf [He H]]]]]]]].
    exists "", ("-" ++ i ++ f ++ e), r'. split; [assoc|]. split; [reflexivity|].
    split; [|exact H]. apply jvalue_number. exists "-", i, f, e.
    split; [reflexivity|]. split; [right; reflexivity|]. repeat split; assumption.
  - (* zero *)
    ih A. destruct A as [f [e [r' [-> [Hf [He H]]]]]].
    exists "", ("0" ++ f ++ e), r'. split; [assoc|]. split; [reflexivity|].
    split; [|exact H]. apply jvalue_number. exists "", "0", f, e.
    split; [reflexivity|]. split; [left; reflexivity|].
    split; [left; reflexivity|]. split; assumption.
  - ih A. destruct A as [r' [-> H]].
    exists "", "true", r'. repeat split; [constructor | exact H].
  - ih A. destruct A as [r' [-> H]].
    exists "", "false", r'. repeat split; [constructor | exact H].
  - ih A. destruct A as [r' [-> H]].
    exists "", "null", r'. repeat split; [constructor | exact H].
  - (* a digit from 1 to 9 *)
    ih A. destruct A as [ds [f [e [r' [-> [Hd [Hf [He H]]]]]]]].
    exists "", (String c ds ++ f ++ e), r'. split; [assoc|]. split; [reflexivity|].
    split; [|exact H]. apply jvalue_number. exists "", (String c ds), f, e.
    split; [reflexivity|]. split; [left; reflexivity|].
    split; [right; exists c, ds; repeat split; assumption|]. split; assumption.
  - fin A.
Qed.

Lemma beginstring_sound st ps b c :
  white c = false ->
  (let '(s', op) :=
     json.run_stateBeginString
       {| json.step := st; json.endTop := false; json.parseStack := ps;
          json.err := None; json.bytes := b |} c in
   match op with
   | json.scanError => json.err s'
   | _ => json.checkValid_loop r s'
   end) = None ->
  key_then ps (String c r).
Proof.
  intros Hw A. unfold json.run_stateBeginString in A. rewrite isSpace_white, Hw in A.
  unfold json.scanner_error, json.set_step in A.
  cbn [json.step json.endTop json.parseStack json.err json.bytes] in A.
  split_if A; fin A. char_facts. ih A. destruct A as [bd [r' [-> [Hs H]]]].
  exists "", (String dquote bd), r'. split; [reflexivity|]. split; [reflexivity|].
  split; [|exact H]. exists bd. split; [reflexivity | exact Hs].
Qed.

Lemma state0_sound st ps b c :
  (let '(s', op) :=
     json.run_state0
       {| json.step := st; json.endTop := false; json.parseStack := ps;
          json.err := None; json.bytes := b |} c in
   match op with
   | json.scanError => json.err s'
   | _ => json.checkValid_loop r s'
   end) = None ->
  exists f e r', String c r = f ++ e ++ r' /\ jfrac f /\ jexp e /\ after ps r'.
Proof.
  intros A. unfold json.run_state0 in A. unfold json.set_step in A.
  cbn [json.step json.endTop json.parseStack json.err json.bytes] in A.
  split_if A; [|split_if A].
  - char_facts. ih A. destruct A as [ds [e [r' [-> [Hn [Hd [He H]]]]]]].
    exists (String "." ds), e, r'. split; [assoc|].
    split; [right; exists ds; repeat split; assumption|]. split; assumption.
  - ih A. destruct A as [sign [ds [r' [-> [Hs [Hn [Hd H]]]]]]].
    exists "", (String c (sign ++ ds)), r'. split; [assoc|].
    split; [left; reflexivity|]. split; [|exact H].
    right. exists c, sign, ds. split; [reflexivity|].
    split; [|repeat split; assumption].
    apply orb_true_iff in E0 as [E0|E0]; apply Ascii.eqb_eq in E0; auto.
  - apply endvalue_sound in A. exists "", "", (String c r).
    split; [reflexivity|]. split; [left; reflexivity|]. split; [left; reflexivity|].
    exact A.
Qed.

Lemma esign_sound st ps b c :
  (let '(s', op) :=
     json.run_stateESign
       {| json.step := st; json.endTop := false; json.parseStack := ps;
          json.err := None; json.bytes := b |} c in
   match op with
   | json.scanError => json.err s'
   | _ => json.checkValid_loop r s'
   end) = None ->
  exists ds r', String c r = ds ++ r' /\ ds <> "" /\ digits ds = true /\ after ps r'.
Proof.
  intros A. unfold json.run_stateESign, json.scanner_error, json.set_step in A.
  cbn [json.step json.endTop json.parseStack json.err json.bytes] in A.
  split_if A; fin A. ih A. destruct A as [ds [r' [-> [Hd H]]]].
  exists (String c ds), r'. split; [reflexivity|]. split; [discriminate|].
  split; [|exact H]. unfold digits in *. simpl. unfold json.isDigit in E. rewrite E, Hd.
  reflexivity.
Qed.

Lemma digits_cons c ds :
  json.isDigit c = true -> digits ds = true -> digits (String c ds) = true.
Proof.
  intros E Hd. unfold digits in *. simpl. unfold json.isDigit in E. rewrite E, Hd.
  reflexivity.
Qed.

Lemma escape_test c :
  ((c =? "b")%char || (c =? "f")%char || (c =? "n")%char || (c =? "r")%char
   || (c =? "t")%char || (c =? "\")%char || (c =? "/")%char || (c =? dquote)%char)
  = simple_escape c.
Proof. destruct c as [[] [] [] [] [] [] [] []]; reflexivity. Qed.

Lemma step_sound st ps b c :
  st <> json.stateError ->
  json.checkValid_loop (String c r)
    {| json.step := st; json.endTop := false; json.parseStack := ps;
       json.err := None; json.bytes := b |} = None ->
  scan_spec st ps (String c r).
Proof.
  intros Hst A. cbn [json.checkValid_loop] in A.
  unfold json.count_byte, json.run_step in A.
  cbn [json.step json.endTop json.parseStack json.err json.bytes] in A.
  destruct st; try contradiction; cbn [scan_spec].
  - (* stateBeginValueOrEmpty *)
    destruct ps as [|[] ps']; try exact I.
    unfold json.run_stateBeginValueOrEmpty in A. rewrite isSpace_white in A.
    destruct (white c) eqn:Hw.
    + ih A. destruct A as [[w [r' [-> [Hb H]]]]|H].
      * left. exists (String c w), r'. split; [reflexivity|].
        split; [apply blank_cons; assumption | exact H].
      * right. apply value_then_white; assumption.
    + split_if A.
      * char_facts. unfold json.run_stateEndValue in A.
        cbn [json.parseStack] in A. rewrite isSpace_white, Hw in A.
        unfold json.scanner_error, json.set_step, json.set_stack, json.popParseState in A.
        cbn [json.step json.endTop json.parseStack json.err json.bytes List.tl] in A.
        change (("]" =? ",")%char) with false in A.
        change (("]" =? "]")%char) with true in A. cbv iota in A.
        left. exists "", r. split; [reflexivity|]. split; [reflexivity|].
        destruct ps' as [|p ps'']; ih A; exact A.
      * right. apply (beginvalue_sound _ _ _ _ Hw A).
  - (* stateBeginValue *)
    destruct (white c) eqn:Hw.
    + unfold json.run_stateBeginValue in A. rewrite isSpace_white, Hw in A.
      ih A. apply value_then_white; assumption.
    + apply (beginvalue_sound _ _ _ _ Hw A).
  - (* stateBeginStringOrEmpty *)
    destruct ps as [|[] ps']; try exact I.
    unfold json.run_stateBeginStringOrEmpty in A. rewrite isSpace_white in A.
    destruct (white c) eqn:Hw.
    + ih A. destruct A as [[w [r' [-> [Hb H]]]]|H].
      * left. exists (String c w), r'. split; [reflexivity|].
        split; [apply blank_cons; assumption | exact H].
      * right. apply key_then_white; assumption.
    + split_if A.
      * char_facts. unfold json.run_stateEndValue in A.
        unfold json.set_stack at 1 in A.
        cbn [json.step json.endTop json.parseStack json.err json.bytes List.tl] in A.
        rewrite isSpace_white, Hw in A.
        unfold json.scanner_error, json.set_step, json.set_stack, json.popParseState in A.
        cbn [json.step json.endTop json.parseStack json.err json.bytes List.tl] in A.
        change (("}" =? ",")%char) with false in A.
        change (("}" =? "}")%char) with true in A. cbv iota in A.
        left. exists "", r. split; [reflexivity|]. split; [reflexivity|].
        destruct ps' as [|p ps'']; ih A; exact A.
      * right. apply (beginstring_sound _ _ _ _ Hw A).
  - (* stateBeginString *)
    destruct (white c) eqn:Hw.
    + unfold json.run_stateBeginString in A. rewrite isSpace_white, Hw in A.
      ih A. apply key_then_white; assumption.
    + apply (beginstring_sound _ _ _ _ Hw A).
  - (* stateEndValue *)
    apply (endvalue_sound _ _ _ _ A).
  - (* stateEndTop *)
    unfold json.run_stateEndTop, json.scanner_error in A. rewrite isSpace_white in A.
    destruct (white c) eqn:Hw; cbn [negb] in A; fin A.
    ih A. apply blank_cons; assumption.
  - (* stateInString *)
    unfold json.run_stateInString, json.scanner_error, json.set_step in A.
    cbn [json.step json.endTop json.parseStack json.err json.bytes] in A.
    split_if A; [|split_if A; [|split_if A]]; fin A.
    + char_facts. ih A. exists (str1 dquote), r. split; [reflexivity|].
      split; [constructor | exact A].
    + char_facts. ih A. destruct A as [bd [r' [-> [H [[e [t [-> [He Ht]]]]|X]]]]].
      * exists (String "\" (String e t)), r'. split; [reflexivity|].
        split; [apply in_string_escape; assumption | exact H].
      * destruct X as [h1 [h2 [h3 [h4 [t [-> [H1 [H2 [H3 [H4 Ht]]]]]]]]]].
        exists (String "\" (String "u" (String h1 (String h2 (String h3 (String h4 t)))))), r'.
        split; [reflexivity|]. split; [apply in_string_hex; assumption | exact H].
    + ih A. destruct A as [bd [r' [-> [Hs H]]]].
      exists (String c bd), r'. split; [reflexivity|]. split; [|exact H].
      apply in_string_byte; [|exact Hs]. unfold string_byte. rewrite E, E0.
      apply Z.ltb_ge in E1. destruct (Z.leb_spec 32 (byte_val c)); [reflexivity | lia].
  - (* stateInStringEsc *)
    unfold json.run_stateInStringEsc, json.scanner_error, json.set_step in A.
    cbn [json.step json.endTop json.parseStack json.err json.bytes] in A.
    rewrite escape_test in A.
    split_if A; [|split_if A]; fin A.
    + ih A. destruct A as [bd [r' [-> [Hs H]]]].
      exists (String c bd), r'. split; [reflexivity|]. split; [exact H|].
      left. exists c, bd. repeat split; assumption.
    + char_facts. ih A.
      destruct A as [h1 [h2 [h3 [h4 [t [r' [-> [H1 [H2 [H3 [H4 [Ht H]]]]]]]]]]]].
      exists (String "u" (String h1 (String h2 (String h3 (String h4 t))))), r'.
      split; [reflexivity|]. split; [exact H|].
      right. exists h1, h2, h3, h4, t. repeat split; assumption.
  - (* stateInStringEscU *)
    unfold json.run_hex, json.scanner_error, json.set_step in A.
    cbn [json.step json.endTop json.parseStack json.err json.bytes] in A.
    rewrite isHex_hex_digit in A. split_if A; fin A. ih A.
    destruct A as [h2 [h3 [h4 [t [r' [-> [H2 [H3 [H4 [Ht H]]]]]]]]]].
    exists c, h2, h3, h4, t, r'. repeat split; assumption.
  - unfold json.run_hex, json.scanner_error, json.set_step in A.
    cbn [json.step json.endTop json.parseStack json.err json.bytes] in A.
    rewrite isHex_hex_digit in A. split_if A; fin A. ih A.
    destruct A as [h3 [h4 [t [r' [-> [H3 [H4 [Ht H]]]]]]]].
    exists c, h3, h4, t, r'. repeat split; assumption.
  - unfold json.run_hex, json.scanner_error, json.set_step in A.
    cbn [json.step json.endTop json.parseStack json.err json.bytes] in A.
    rewrite isHex_hex_digit in A. split_if A; fin A. ih A.
    destruct A as [h4 [t [r' [-> [H4 [Ht H]]]]]].
    exists c, h4, t, r'. repeat split; assumption.
  - unfold json.run_hex, json.scanner_error, json.set_step in A.
    cbn [json.step json.endTop json.parseStack json.err json.bytes] in A.
    rewrite isHex_hex_digit in A. split_if A; fin A. ih A.
    destruct A as [bd [r' [-> [Hs H]]]].
    exists c, bd, r'. repeat split; assumption.
  - (* stateNeg *)
    unfold json.run_stateNeg, json.scanner_error, json.set_step in A.
    cbn [json.step json.endTop json.parseStack json.err json.bytes] in A.
    split_if A; [|split_if A]; fin A.
    + char_facts. ih A. destruct A as [f [e [r' [-> [Hf [He H]]]]]].
      exists "0", f, e, r'. split; [reflexivity|]. split; [left; reflexivity|].
      repeat split; assumption.
    + ih A. destruct A as [ds [f [e [r' [-> [Hd [Hf [He H]]]]]]]].
      exists (String c ds), f, e, r'. split; [reflexivity|].
      split; [right; exists c, ds; repeat split; assumption|]. repeat split; assumption.
  - (* state1 *)
    unfold json.run_state1 in A. split_if A.
    + unfold json.set_step in A.
      cbn [json.step json.endTop json.parseStack json.err json.bytes] in A.
      ih A. destruct A as [ds [f [e [r' [-> [Hd [Hf [He H]]]]]]]].
      exists (String c ds), f, e, r'. split; [reflexivity|].
      split; [apply digits_cons; assumption|]. repeat split; assumption.
    + apply state0_sound in A. destruct A as [f [e [r' [Eq [Hf [He H]]]]]].
      exists "", f, e, r'. split; [exact Eq|]. split; [reflexivity|].
      repeat split; assumption.
  - (* state0 *)
    apply (state0_sound _ _ _ _ A).
  - (* stateDot *)
    unfold json.run_stateDot, json.scanner_error, json.set_step in A.
    cbn [json.step json.endTop json.parseStack json.err json.bytes] in A.
    split_if A; fin A. ih A. destruct A as [ds [e [r' [-> [Hd [He H]]]]]].
    exists (String c ds), e, r'. split; [reflexivity|]. split; [discriminate|].
    split; [apply digits_cons; assumption|]. split; assumption.
  - (* stateDot0 *)
    unfold json.run_stateDot0 in A. unfold json.set_step in A.
    cbn [json.step json.endTop json.parseStack json.err json.bytes] in A.
    split_if A; [|split_if A].
    + ih A. destruct A as [ds [e [r' [-> [Hd [He H]]]]]].
      exists (String c ds), e, r'. split; [reflexivity|].
      split; [apply digits_cons; assumption|]. split; assumption.
    + ih A. destruct A as [sign [ds [r' [-> [Hs [Hn [Hd H]]]]]]].
      exists "", (String c (sign ++ ds)), r'. split; [assoc|].
      split; [reflexivity|]. split; [|exact H].
      right. exists c, sign, ds. split; [reflexivity|].
      split; [|repeat split; assumption].
      apply orb_true_iff in E0 as [E0|E0]; apply Ascii.eqb_eq in E0; auto.
    + apply endvalue_sound in A. exists "", "", (String c r).
      split; [reflexivity|]. split; [reflexivity|]. split; [left; reflexivity | exact A].
  - (* stateE *)
    unfold json.run_stateE in A. split_if A.
    + unfold json.set_step in A.
      cbn [json.step json.endTop json.parseStack json.err json.bytes] in A.
      ih A. destruct A as [ds [r' [-> [Hn [Hd H]]]]].
      exists (str1 c), ds, r'. split; [reflexivity|]. split; [|repeat split; assumption].
      apply orb_true_iff in E as [E|E]; apply Ascii.eqb_eq in E; subst;
        [right; left | right; right]; reflexivity.
    + apply esign_sound in A. destruct A as [ds [r' [Eq [Hn [Hd H]]]]].
      exists "", ds, r'. split; [exact Eq|]. split; [left; reflexivity|].
      repeat split; assumption.
  - (* stateESign *)
    apply (esign_sound _ _ _ _ A).
  - (* stateE0 *)
    unfold json.run_stateE0 in A. split_if A.
    + ih A. destruct A as [ds [r' [-> [Hd H]]]].
      exists (String c ds), r'. split; [reflexivity|].
      split; [apply digits_cons; assumption | exact H].
    + apply endvalue_sound in A. exists "", (String c r).
      split; [reflexivity|]. split; [reflexivity | exact A].
  - unfold json.run_literal, json.scanner_error, json.set_step in A.
    cbn [json.step json.endTop json.parseStack json.err json.bytes] in A.
    split_if A; fin A. char_facts. ih A. destruct A as [r' [-> H]].
    exists r'. split; [reflexivity | exact H].
  - unfold json.run_literal, json.scanner_error, json.set_step in A.
    cbn [json.step json.endTop json.parseStack json.err json.bytes] in A.
    split_if A; fin A. char_facts. ih A. destruct A as [r' [-> H]].
    exists r'. split; [reflexivity | exact H].
  - unfold json.run_literal, json.scanner_error, json.set_step in A.
    cbn [json.step json.endTop json.parseStack json.err json.bytes] in A.
    split_if A; fin A. char_facts. ih A.
    exists r. split; [reflexivity | exact A].
  - unfold json.run_literal, json.scanner_error, json.set_step in A.
    cbn [json.step json.endTop json.parseStack json.err json.bytes] in A.
    split_if A; fin A. char_facts. ih A. destruct A as [r' [-> H]].
    exists r'. split; [reflexivity | exact H].
  - unfold json.run_literal, json.scanner_error, json.set_step in A.
    cbn [json.step json.endTop json.parseStack json.err json.bytes] in A.
    split_if A; fin A. char_facts. ih A. destruct A as [r' [-> H]].
    exists r'. split; [reflexivity | exact H].
  - unfold json.run_literal, json.scanner_error, json.set_step in A.
    cbn [json.step json.endTop json.parseStack json.err json.bytes] in A.
    split_if A; fin A. char_facts. ih A. destruct A as [r' [-> H]].
    exists r'. split; [reflexivity | exact H].
  - unfold json.run_literal, json.scanner_error, json.set_step in A.
    cbn [json.step json.endTop json.parseStack json.err json.bytes] in A.
    split_if A; fin A. char_facts. ih A.
    exists r. split; [reflexivity | exact A].
  - unfold json.run_literal, json.scanner_error, json.set_step in A.
    cbn [json.step json.endTop json.parseStack json.err json.bytes] in A.
    split_if A; fin A. char_facts. ih A. destruct A as [r' [-> H]].
    exists r'. split; [reflexivity | exact H].
  - unfold json.run_literal, json.scanner_error, json.set_step in A.
    cbn [json.step json.endTop json.parseStack json.err json.bytes] in A.
    split_if A; fin A. char_facts. ih A. destruct A as [r' [-> H]].
    exists r'. split; [reflexivity | exact H].
  - unfold json.run_literal, json.scanner_error, json.set_step in A.
    cbn [json.step json.endTop json.parseStack json.err json.bytes] in A.
    split_if A; fin A. char_facts. ih A.
    exists r. split; [reflexivity | exact A].
Qed.

End Step.

Lemma eof_sound st ps b :
  st <> json.stateError ->
  json.eof {| json.step := st; json.endTop := false; json.parseStack := ps;
              json.err := None; json.bytes := b |} = None ->
  scan_spec st ps "".
Proof.
  intros Hst A. unfold json.eof in A. cbn [json.err json.endTop] in A.
  unfold json.run_step in A. cbn [json.step] in A.
  destruct st; try contradiction; unfold_states;
    unfold_states; cbn in A; try discriminate A;
    destruct ps as [|[] ps]; cbn in A; try discriminate A; cbn [scan_spec after].
  - reflexivity.
  - exists "", "", "", "". repeat split; try reflexivity; left; reflexivity.
  - exists "", "", "". repeat split; try reflexivity; left; reflexivity.
  - exists "", "", "". repeat split; try reflexivity; left; reflexivity.
  - exists "", "". repeat split; reflexivity.
Qed.

(** What the scanner accepts from a state is what the grammar allows
    there. *)
Lemma scan_sound r :
  forall s, scanning s -> json.checkValid_loop r s = None ->
            scan_spec (json.step s) (json.parseStack s) r.
Proof.
  induction r as [|c r IH]; intros [st et ps er b] [We [Wn Wt]] A;
    cbn [json.err json.step json.endTop json.parseStack] in *; subst er.
  - destruct et.
    + rewrite (Wt eq_refl). reflexivity.
    + apply (eof_sound _ _ _ Wn A).
  - destruct et.
    + rewrite (Wt eq_refl) in *. cbn [scan_spec].
      cbn [json.checkValid_loop] in A. unfold json.count_byte, json.run_step in A.
      cbn [json.step json.endTop json.parseStack json.err json.bytes] in A.
      unfold json.run_stateEndTop, json.scanner_error in A. rewrite isSpace_white in A.
      destruct (white c) eqn:Hw; cbn [negb] in A; fin A.
      apply IH in A; [|split; [reflexivity | split; [discriminate | reflexivity]]].
      apply blank_cons; assumption.
    + apply (step_sound r IH _ _ _ _ Wn A).
Qed.

(** A text that [checkValid] accepts is a JSON text. *)
Lemma checkValid_sound text : json.checkValid text = None -> jtext text.
Proof.
  intros A. apply (scan_sound text json.new_scanner) in A.
  - exact A.
  - split; [reflexivity | split; discriminate].
Qed.

(** ** The top-level value *)

Lemma run_step_in_step_rev s s' c :
  in_step s s' ->
  json.err (fst (json.run_step (json.count_byte s) c)) = None ->
  json.err (fst (json.run_step s' c)) = None.
Proof.
  destruct s as [st et ps er b], s' as [st' et' ps' er' b'].
  unfold in_step. cbn [json.step json.endTop json.parseStack json.err].
  intros [<- [<- [<- [-> [-> NE]]]]].
  unfold json.run_step, json.count_byte. cbn [json.step json.endTop json.parseStack json.err json.bytes].
  destruct st; try contradiction; unfold_states;
    cbn [json.step json.endTop json.parseStack json.err json.bytes];
    repeat match goal with
           | |- context [if ?b then _ else _] => destruct b
           | |- context [match ?x with _ => _ end] => destruct x
           end;
    cbn [fst snd json.step json.endTop json.parseStack json.err json.bytes];
    intros E; try discriminate E; reflexivity.
Qed.

Lemma checkValid_loop_decode data :
  forall s d, in_step s (json.scan d) -> json.checkValid_loop data s = None ->
  json.err (json.scan (decode_run data d)) = None.
Proof.
  induction data as [|c rest IH]; intros s d R H.
  - simpl. destruct R as [_ [_ [_ [_ [R _]]]]]. exact R.
  - simpl in H |- *.
    destruct (json.run_step (json.count_byte s) c) as [s1 op] eqn:E.
    assert (E1 : json.err s1 = None).
    { destruct (json.err s1) eqn:Es; [|reflexivity]. exfalso.
      assert (N : json.checkValid_loop rest s1 <> None).
      { apply checkValid_loop_err. rewrite Es. discriminate. }
      destruct op; try (apply N; exact H).
      discriminate H. }
    assert (E2 : json.err (fst (json.run_step (json.scan d) c)) = None).
    { apply (run_step_in_step_rev s (json.scan d) c R). rewrite E. exact E1. }
    destruct (run_step_in_step s (json.scan d) c R E2) as [R' [Eop Nop]].
    rewrite E in R', Eop. cbn [fst snd] in R', Eop.
    apply (IH s1); [rewrite scan_decode_byte; exact R'|].
    destruct op; try exact H. exfalso. apply Nop. symmetry. exact Eop.
Qed.

Lemma decode_byte_blank c : white c = true -> json.decode_byte d_start c = d_start.
Proof.
  intros H. unfold json.decode_byte, d_start, json.run_step. cbn [json.scan json.step json.new_scanner].
  unfold json.run_stateBeginValue. rewrite isSpace_white, H. reflexivity.
Qed.

Lemma decode_run_blank w : blank w = true -> decode_run w d_start = d_start.
Proof.
  induction w as [|c w IH]; [reflexivity|].
  intros H. apply andb_true_iff in H as [H1 H2].
  simpl. rewrite (decode_byte_blank c H1). apply IH, H2.
Qed.

Lemma first_byte_split s c :
  first_byte s = Some c ->
  exists w r, s = w ++ String c r /\ blank w = true /\ white c = false.
Proof.
  induction s as [|a s IH]; simpl; [discriminate|].
  destruct (white a) eqn:E.
  - intros H. destruct (IH H) as [w [r [-> [B W]]]].
    exists (String a w), r. split; [reflexivity|]. split; [|exact W].
    apply blank_cons; assumption.
  - intros H. injection H as <-. exists "", s. repeat split. exact E.
Qed.

Lemma trim_left_split s c :
  first_byte s = Some c ->
  exists w r, s = w ++ String c r /\ blank w = true /\ trim_left s = String c r.
Proof.
  induction s as [|a s IH]; simpl; [discriminate|].
  destruct (white a) eqn:E.
  - intros H. destruct (IH H) as [w [r [-> [B W]]]].
    exists (String a w), r. split; [reflexivity|]. split; [|exact W].
    apply blank_cons; assumption.
  - intros H. injection H as <-. exists "", s. repeat split.
Qed.

Lemma lit_step c0 d c :
  lit_phase c0 d -> json.err (json.scan (json.decode_byte d c)) = None ->
  lit_phase c0 (json.decode_byte d c)
  \/ exists l, done_phase (json.literal_value (String c0 l)) (json.decode_byte d c).
Proof.
  destruct d as [[st et ps er b] lit o tp]. unfold lit_phase, done_phase.
  cbn [json.scan json.literal json.open_ json.top json.step json.parseStack].
  intros [-> [-> [-> [Hs [l ->]]]]].
  unfold json.decode_byte, json.run_step. cbn [json.scan json.step].
  destruct st; try discriminate Hs; unfold_states;
    cbn [json.step json.endTop json.parseStack json.err json.bytes];
    repeat match goal with |- context [if ?b then _ else _] => destruct b end;
    cbn [fst snd json.step json.endTop json.parseStack json.err json.bytes
         json.scan json.literal json.open_ json.top json.flush json.deliver];
    intros E; try discriminate E;
    first [ left; repeat split; try reflexivity; eexists; reflexivity
          | right; exists l; repeat split; reflexivity ].
Qed.

Lemma done_step v d c :
  done_phase v d -> json.err (json.scan (json.decode_byte d c)) = None ->
  done_phase v (json.decode_byte d c).
Proof.
  destruct d as [[st et ps er b] lit o tp]. unfold done_phase.
  cbn [json.scan json.literal json.open_ json.top json.step json.parseStack].
  intros [-> [-> [-> ->]]].
  unfold json.decode_byte, json.run_step. cbn [json.scan json.step].
  unfold_states.
  cbn [json.step json.endTop json.parseStack json.err json.bytes].
  destruct (negb (json.isSpace c));
    cbn [fst snd json.step json.endTop json.parseStack json.err json.bytes
         json.scan json.literal json.open_ json.top json.flush json.deliver];
    intros E; try discriminate E. repeat split; reflexivity.
Qed.

Lemma done_run v data : forall d,
  done_phase v d -> json.err (json.scan (decode_run data d)) = None ->
  done_phase v (decode_run data d).
Proof.
  induction data as [|c rest IH]; intros d P E; [exact P|].
  simpl in E |- *. apply IH; [|exact E]. apply done_step; [exact P|].
  destruct (json.err (json.scan (json.decode_byte d c))) eqn:E'; [|reflexivity].
  exfalso. apply (decode_run_err rest (json.decode_byte d c)); [|exact E].
  rewrite E'. discriminate.
Qed.

Lemma lit_run c0 data : forall d,
  lit_phase c0 d -> json.err (json.scan (decode_run data d)) = None ->
  lit_phase c0 (decode_run data d)
  \/ exists l, done_phase (json.literal_value (String c0 l)) (decode_run data d).
Proof.
  induction data as [|c rest IH]; intros d P E; [left; exact P|].
  simpl in E |- *.
  assert (E' : json.err (json.scan (json.decode_byte d c)) = None).
  { destruct (json.err (json.scan (json.decode_byte d c))) eqn:E'; [|reflexivity].
    exfalso. apply (decode_run_err rest (json.decode_byte d c)); [|exact E].
    rewrite E'. discriminate. }
  destruct (lit_step c0 d c P E') as [P'|[l P']].
  - apply IH; assumption.
  - right. exists l. apply done_run; assumption.
Qed.

Lemma run_step_depth s c :
  json.parseStack s <> [] -> json.step s <> json.stateEndTop ->
  json.step s <> json.stateError -> json.endTop s = false ->
  json.err (fst (json.run_step s c)) = None ->
  json.step (fst (json.run_step s c)) <> json.stateError
  /\ match snd (json.run_step s c) with
     | json.scanBeginObject | json.scanBeginArray =>
       List.length (json.parseStack (fst (json.run_step s c)))
       = S (List.length (json.parseStack s))
       /\ json.step (fst (json.run_step s c)) <> json.stateEndTop
       /\ json.endTop (fst (json.run_step s c)) = false
     | json.scanEndObject | json.scanEndArray =>
       S (List.length (json.parseStack (fst (json.run_step s c))))
       = List.length (json.parseStack s)
       /\ (json.parseStack (fst (json.run_step s c)) = [] ->
           json.step (fst (json.run_step s c)) = json.stateEndTop)
       /\ (json.parseStack (fst (json.run_step s c)) <> [] ->
           json.step (fst (json.run_step s c)) <> json.stateEndTop
           /\ json.endTop (fst (json.run_step s c)) = false)
     | json.scanEnd | json.scanError => False
     | _ =>
       List.length (json.parseStack (fst (json.run_step s c)))
       = List.length (json.parseStack s)
       /\ json.step (fst (json.run_step s c)) <> json.stateEndTop
       /\ json.endTop (fst (json.run_step s c)) = false
     end.
Proof.
  destruct s as [st et ps er b].
  cbn [json.step json.endTop json.parseStack json.err].
  intros Hps H1 H2 ->. destruct ps as [|p ps]; [contradiction|].
  unfold json.run_step. cbn [json.step].
  destruct st; try contradiction; unfold_states;
    cbn [json.step json.endTop json.parseStack json.err json.bytes List.tl];
    repeat match goal with
           | |- context [if ?b then _ else _] => destruct b
           | |- context [match ?x with _ => _ end] => is_var x; destruct x
           end;
    cbn [fst snd json.step json.endTop json.parseStack json.err json.bytes List.length];
    intros E; try discriminate E;
    repeat split; try reflexivity; try discriminate; try congruence.
Qed.

Lemma deliver_open v d :
  json.open_ d <> [] ->
  map is_array (json.open_ (json.deliver v d)) = map is_array (json.open_ d)
  /\ json.top (json.deliver v d) = json.top d
  /\ json.scan (json.deliver v d) = json.scan d.
Proof.
  unfold json.deliver. destruct (json.open_ d) as [|[ms [k|]|items] rest];
    [contradiction| | |]; intros _; repeat split; reflexivity.
Qed.

Lemma flush_open d :
  json.open_ d <> [] ->
  map is_array (json.open_ (json.flush d)) = map is_array (json.open_ d)
  /\ json.top (json.flush d) = json.top d
  /\ json.scan (json.flush d) = json.scan d.
Proof.
  unfold json.flush. destruct (json.literal d); [apply deliver_open|].
  intros _. repeat split; reflexivity.
Qed.

Lemma flush_literal d : json.literal (json.flush d) = None.
Proof.
  unfold json.flush. destruct (json.literal d) eqn:E; [|exact E].
  unfold json.deliver. destruct (json.open_ d) as [|[ms [k|]|items] rest]; reflexivity.
Qed.

Lemma map_nonempty {A B} (f : A -> B) (l : list A) ks k :
  map f l = (ks ++ [k])%list -> l <> [].
Proof. destruct l; [destruct ks; discriminate | discriminate]. Qed.

Lemma close_arr d ks :
  map is_array (json.open_ d) = (ks ++ [true])%list ->
  json.top d = None ->
  List.length (json.parseStack (json.scan d)) = List.length ks ->
  (json.parseStack (json.scan d) = [] -> json.step (json.scan d) = json.stateEndTop) ->
  (json.parseStack (json.scan d) <> [] ->
   json.step (json.scan d) <> json.stateEndTop /\ json.endTop (json.scan d) = false) ->
  json.step (json.scan d) <> json.stateError ->
  arr_phase (json.close d) \/ exists items, done_phase (json.JArray items) (json.close d).
Proof.
  intros Hk Ht Hl Q1 Q2 Q3. unfold json.close.
  destruct (json.open_ d) as [|f rest] eqn:Eo; [destruct ks; discriminate Hk|].
  destruct ks as [|k ks].
  - right. simpl in Hk. injection Hk as Hf Hr.
    destruct rest; [|discriminate Hr].
    destruct f as [ms key|items]; [discriminate Hf|].
    exists items. unfold done_phase, json.deliver. cbn [json.open_ json.top json.literal json.scan].
    repeat split. apply Q1. destruct (json.parseStack (json.scan d)); [reflexivity|discriminate Hl].
  - left. simpl in Hk. injection Hk as Hf Hr.
    assert (Hps : json.parseStack (json.scan d) <> []).
    { intros N. rewrite N in Hl. discriminate Hl. }
    destruct (Q2 Hps) as [Q4 Q5].
    pose proof (map_nonempty _ _ _ _ Hr) as Hne.
    assert (G : forall v, arr_phase (json.deliver v
              {| json.scan := json.scan d; json.literal := None; json.open_ := rest;
                 json.top := json.top d |})).
    { intros v.
      destruct (deliver_open v {| json.scan := json.scan d; json.literal := None;
                                  json.open_ := rest; json.top := json.top d |} Hne)
        as [D1 [D2 D3]].
      unfold arr_phase. rewrite D1, D2, D3. cbn [json.open_ json.top json.scan].
      repeat split; try assumption. exists ks. split; [exact Hr|].
      simpl in Hl. rewrite Hl. reflexivity. }
    destruct f as [ms key|items]; apply G.
Qed.

Lemma arr_step d c :
  arr_phase d -> json.err (json.scan (json.decode_byte d c)) = None ->
  arr_phase (json.decode_byte d c)
  \/ exists items, done_phase (json.JArray items) (json.decode_byte d c).
Proof.
  intros [Ht [[ks [Hk Hl]] [H1 [H2 H3]]]] E.
  rewrite scan_decode_byte in E.
  assert (Hps : json.parseStack (json.scan d) <> []).
  { intros N. rewrite N in Hl. discriminate Hl. }
  pose proof (run_step_depth (json.scan d) c Hps H1 H2 H3 E) as [Q1 Q].
  pose proof (map_nonempty _ _ _ _ Hk) as Ho.
  unfold arr_phase, done_phase, json.decode_byte.
  destruct (json.run_step (json.scan d) c) as [sc op]. cbn [fst snd] in *.
  set (d1 := {| json.scan := sc; json.literal := json.literal d;
                json.open_ := json.open_ d; json.top := json.top d |}).
  assert (Ho1 : json.open_ d1 <> []) by exact Ho.
  destruct (flush_open d1 Ho1) as [F1 [F2 F3]].
  cbn [json.open_ json.top json.scan d1] in F1, F2, F3.
  destruct op; try contradiction.
  - (* scanContinue *)
    left. cbn [json.scan json.open_ json.top]. destruct Q as [Q2 [Q3 Q4]].
    repeat split; try assumption. exists ks. split; [exact Hk | congruence].
  - (* scanBeginLiteral *)
    left. cbn [json.scan json.open_ json.top]. destruct Q as [Q2 [Q3 Q4]].
    repeat split; try assumption. exists ks. split; [exact Hk | congruence].
  - (* scanBeginObject *)
    left. cbn [json.scan json.open_ json.top]. destruct Q as [Q2 [Q3 Q4]].
    repeat split; try assumption. exists (false :: ks).
    split; [simpl; rewrite Hk; reflexivity | simpl; congruence].
  - (* scanObjectKey *)
    left. rewrite F1, F2, F3. destruct Q as [Q2 [Q3 Q4]].
    repeat split; try assumption. exists ks. split; [exact Hk | congruence].
  - (* scanObjectValue *)
    left. rewrite F1, F2, F3. destruct Q as [Q2 [Q3 Q4]].
    repeat split; try assumption. exists ks. split; [exact Hk | congruence].
  - (* scanEndObject *)
    destruct Q as [Q2 [Q3 Q4]].
    apply (close_arr (json.flush d1) ks); rewrite ?F1, ?F2, ?F3; try assumption.
    congruence.
  - (* scanBeginArray *)
    left. cbn [json.scan json.open_ json.top]. destruct Q as [Q2 [Q3 Q4]].
    repeat split; try assumption. exists (true :: ks).
    split; [simpl; rewrite Hk; reflexivity | simpl; congruence].
  - (* scanArrayValue *)
    left. rewrite F1, F2, F3. destruct Q as [Q2 [Q3 Q4]].
    repeat split; try assumption. exists ks. split; [exact Hk | congruence].
  - (* scanEndArray *)
    destruct Q as [Q2 [Q3 Q4]].
    apply (close_arr (json.flush d1) ks); rewrite ?F1, ?F2, ?F3; try assumption.
    congruence.
  - (* scanSkipSpace *)
    left. rewrite F1, F2, F3. destruct Q as [Q2 [Q3 Q4]].
    repeat split; try assumption. exists ks. split; [exact Hk | congruence].
Qed.

Lemma arr_run data : forall d,
  arr_phase d -> json.err (json.scan (decode_run data d)) = None ->
  arr_phase (decode_run data d)
  \/ exists items, done_phase (json.JArray items) (decode_run data d).
Proof.
  induction data as [|c rest IH]; intros d P E; [left; exact P|].
  simpl in E |- *.
  assert (E' : json.err (json.scan (json.decode_byte d c)) = None).
  { destruct (json.err (json.scan (json.decode_byte d c))) eqn:E'; [|reflexivity].
    exfalso. apply (decode_run_err rest (json.decode_byte d c)); [|exact E].
    rewrite E'. discriminate. }
  destruct (arr_step d c P E') as [P'|[l P']].
  - apply IH; assumption.
  - right. exists l. apply done_run; assumption.
Qed.

Lemma first_step c :
  white c = false -> c <> "{"%char ->
  json.err (json.scan (json.decode_byte d_start c)) = None ->
  lit_phase c (json.decode_byte d_start c) \/ arr_phase (json.decode_byte d_start c).
Proof.
  intros W N.
  unfold json.decode_byte, d_start, json.new_scanner, json.run_step.
  cbn [json.scan json.step]. unfold json.run_stateBeginValue.
  rewrite isSpace_white, W.
  destruct (Ascii.eqb_spec c "{"); [contradiction|].
  unfold_states. cbn [json.step json.endTop json.parseStack json.err json.bytes].
  repeat match goal with |- context [if ?b then _ else _] => destruct b end;
    cbn [fst snd json.step json.endTop json.parseStack json.err json.bytes
         json.scan json.literal json.open_ json.top];
    intros E; try discriminate E;
    first [ left; repeat split; try reflexivity; eexists; reflexivity
          | right; unfold arr_phase;
            cbn [json.step json.endTop json.parseStack json.err json.bytes
                 json.scan json.literal json.open_ json.top];
            repeat split; try discriminate; exists []; split; reflexivity ].
Qed.

Lemma eof_open s :
  json.parseStack s <> [] -> json.step s <> json.stateEndTop ->
  json.endTop s = false -> json.eof s <> None.
Proof.
  destruct s as [st et ps er b].
  cbn [json.step json.endTop json.parseStack json.err].
  intros Hps H1 ->. destruct ps as [|p ps]; [contradiction|].
  unfold json.eof. cbn [json.err json.endTop]. destruct er; [discriminate|].
  destruct st; try contradiction; destruct p; destruct ps; vm_compute; discriminate.
Qed.

(** The value of a text that [checkValid] accepts and that does not begin
    with a brace is a literal that begins with the first byte of the text,
    or an array. *)
Lemma decode_top text c :
  json.checkValid text = None -> first_byte text = Some c -> c <> "{"%char ->
  (exists l, json.decode text = json.literal_value (String c l))
  \/ (exists items, json.decode text = json.JArray items).
Proof.
  intros Hv Hf Hc.
  destruct (first_byte_split text c Hf) as [w [r [-> [Hw Wc]]]].
  assert (R0 : in_step json.new_scanner (json.scan d_start)).
  { repeat split; discriminate. }
  pose proof (checkValid_loop_decode _ _ _ R0 Hv) as Herr.
  destruct (checkValid_loop_eof _ _ _ R0 Herr) as [s' [R E]].
  unfold json.checkValid in Hv. rewrite E in Hv.
  unfold json.decode.
  change {| json.scan := json.new_scanner; json.literal := None;
            json.open_ := []; json.top := None |} with d_start.
  rewrite decode_loop_run.
  rewrite decode_run_app, (decode_run_blank w Hw) in Herr, R |- *.
  simpl decode_run in Herr, R |- *.
  assert (E1 : json.err (json.scan (json.decode_byte d_start c)) = None).
  { destruct (json.err (json.scan (json.decode_byte d_start c))) eqn:E'; [|reflexivity].
    exfalso. apply (decode_run_err r (json.decode_byte d_start c)); [|exact Herr].
    rewrite E'. discriminate. }
  set (d := decode_run r (json.decode_byte d_start c)) in *.
  assert (Hd : lit_phase c d \/ arr_phase d
               \/ exists v, done_phase v d
                    /\ ((exists l, v = json.literal_value (String c l))
                        \/ exists items, v = json.JArray items)).
  { destruct (first_step c Wc Hc E1) as [P|P].
    - destruct (lit_run c r _ P Herr) as [P'|[l P']]; [left; exact P'|].
      right. right. eexists. split; [exact P'|]. left. exists l. reflexivity.
    - destruct (arr_run r _ P Herr) as [P'|[l P']]; [right; left; exact P'|].
      right. right. eexists. split; [exact P'|]. right. exists l. reflexivity. }
  destruct Hd as [P|[P|[v [P Hv']]]].
  - left. destruct P as [P1 [P2 [P3 [P4 [l P5]]]]]. exists l.
    unfold json.flush. rewrite P5. unfold json.deliver. rewrite P1. reflexivity.
  - exfalso. destruct P as [P1 [[ks [P2 P3]] [P4 [P5 P6]]]].
    destruct R as [R1 [R2 [R3 _]]].
    apply (eof_open s'); [| | |exact Hv].
    + rewrite R3. intros N. rewrite N in P3. discriminate P3.
    + rewrite R1. exact P4.
    + rewrite R2. exact P6.
  - destruct P as [P1 [P2 _]]. unfold json.flush. rewrite P2, P1. exact Hv'.
Qed.

Lemma literal_value_null c l : json.literal_value (String c l) = json.JNull -> c = "n"%char.
Proof.
  unfold json.literal_value. destruct (Ascii.eqb_spec c "n"); [intros _; assumption|].
  repeat match goal with |- context [if ?b then _ else _] => destruct b end;
    try discriminate.
  destruct (json.unquoteBytes _); discriminate.
Qed.

Lemma first_byte_app w c r :
  blank w = true -> white c = false ->
  first_byte (w ++ String c r) = Some c /\ trim_left (w ++ String c r) = String c r.
Proof.
  intros Hw Hc. induction w as [|a w IH]; simpl.
  - rewrite Hc. split; reflexivity.
  - apply andb_true_iff in Hw as [H1 H2]. rewrite H1. apply IH, H2.
Qed.

Lemma white_in_range lo hi c :
  32 < byte_val lo -> in_range lo hi c = true -> white c = false.
Proof.
  intros H R. apply in_range_spec in R. unfold white. rewrite ascii_eqb_val.
  change (byte_val " ") with 32.
  destruct (Z.eqb_spec (byte_val c) 32); [lia|].
  destruct (Z.eqb_spec (byte_val c) 9); [lia|].
  destruct (Z.eqb_spec (byte_val c) 10); [lia|].
  destruct (Z.eqb_spec (byte_val c) 13); [lia|]. reflexivity.
Qed.

(** A value begins with a byte that is not white space, and with [n] only
    if it is [null]. *)
Lemma jvalue_head v :
  jvalue v ->
  exists c t, v = String c t /\ white c = false /\ (c = "n"%char -> t = "ull").
Proof.
  intros H. destruct H.
  - exists "n"%char, "ull". repeat split.
  - exists "t"%char, "rue". repeat split. discriminate.
  - exists "f"%char, "alse". repeat split. discriminate.
  - destruct H as [body [-> _]]. exists dquote, body. repeat split. discriminate.
  - destruct H as [m [i [f [e [-> [Hm [Hi _]]]]]]].
    destruct Hm as [->| ->].
    + destruct Hi as [->|[c [t [-> [Hc _]]]]].
      * exists "0"%char, (f ++ e). repeat split. discriminate.
      * exists c, (t ++ f ++ e). split; [reflexivity|]. split.
        -- apply (white_in_range "1" "9"); [reflexivity | exact Hc].
        -- intros ->. discriminate Hc.
    + exists "-"%char, (i ++ f ++ e). repeat split. discriminate.
  - eexists _, _. split; [reflexivity|]. split; [reflexivity | discriminate].
  - eexists _, _. split; [reflexivity|]. split; [reflexivity | discriminate].
  - eexists _, _. split; [reflexivity|]. split; [reflexivity | discriminate].
  - eexists _, _. split; [reflexivity|]. split; [reflexivity | discriminate].
Qed.

Lemma jtext_first_byte text : jtext text -> first_byte text <> None.
Proof.
  intros [w [v [w' [-> [Hw [Hv _]]]]]].
  destruct (jvalue_head v Hv) as [c [t [-> [Hc _]]]].
  simpl. destruct (first_byte_app w c (t ++ w') Hw Hc) as [E _].
  rewrite E. discriminate.
Qed.

Lemma jtext_null text :
  jtext text -> first_byte text = Some "n"%char -> null_text text = true.
Proof.
  intros [w [v [w' [-> [Hw [Hv Hw']]]]]] Hf.
  destruct (jvalue_head v Hv) as [c [t [-> [Hc Hn]]]].
  simpl in Hf |- *. destruct (first_byte_app w c (t ++ w') Hw Hc) as [E1 E2].
  rewrite E1 in Hf. injection Hf as ->.
  unfold null_text. rewrite E2, (Hn eq_refl). exact Hw'.
Qed.

(** A text that is no JSON text, or is one of a value other than an object
    and [null], is refused by both decoders. *)
Lemma other_refused float64_range_error text x m :
  ~ jtext text \/ other_value text = true ->
  (exists e, snd (Unmarshal_ConfigGeneralSettings text x) = Some e)
  /\ (exists e, snd (Unmarshal_map float64_range_error text m) = Some e).
Proof.
  intros H. unfold Unmarshal_ConfigGeneralSettings, Unmarshal_map.
  destruct (json.checkValid text) as [e|] eqn:Ev.
  { split; eexists; reflexivity. }
  pose proof (checkValid_sound text Ev) as J.
  destruct H as [H|H]; [contradiction|].
  unfold other_value in H.
  destruct (first_byte text) as [c|] eqn:Ef; [|exfalso; apply (jtext_first_byte text J Ef)].
  apply andb_true_iff in H as [Hc Hn].
  apply negb_true_iff in Hc, Hn.
  assert (Nc : c <> "{"%char).
  { intros ->. discriminate Hc. }
  destruct (decode_top text c Ev Ef Nc) as [[l ->]|[items ->]].
  - pose proof (literal_value_null c l) as Hnull.
    pose proof (fun ms => literal_value_not_object (String c l) ms) as Ho.
    destruct (json.literal_value (String c l)); try (split; eexists; reflexivity).
    + exfalso. rewrite (Hnull eq_refl) in Ef.
      rewrite (jtext_null text J Ef) in Hn. discriminate Hn.
    + exfalso. apply (Ho members). reflexivity.
  - split; eexists; reflexivity.
Qed.

(** ** Objects of scalars *)

Lemma begins_null : begins json.stateBeginValue "null" json.stateEndValue.
Proof. run_text. Qed.

Lemma good_scalar kv : scalar_ok kv -> good_member (scalar_member kv).
Proof.
  destruct kv as [k v]. intros [Hk Hv]. cbn [fst snd] in Hk, Hv.
  unfold scalar_member. cbn [fst snd].
  refine (conj _ (conj eq_refl _)).
  { apply unquoteBytes_appendString, ValidString_wellformed, Hk. }
  destruct v as [|b|s|z]; cbn [scalar_text].
  - exists json.stateEndValue. split; [left; reflexivity | apply begins_null].
  - exists json.stateEndValue. split; [left; reflexivity|].
    destruct b; [apply begins_true | apply begins_false].
  - exists json.stateEndValue. split; [left; reflexivity|].
    apply begins_appendString. left. reflexivity.
  - apply begins_FormatInt, Hv.
Qed.

Lemma plain_scalar_text v : plain (scalar_text v) = true.
Proof.
  destruct v as [|b|s|z]; cbn [scalar_text].
  - reflexivity.
  - destruct b; reflexivity.
  - apply plain_appendString.
  - apply plain_FormatInt.
Qed.

Lemma plain_object_text ms : plain (object_text ms) = true.
Proof.
  apply plain_members_text; [reflexivity|].
  apply Forall_forall. intros m Hm. apply in_map_iff in Hm as [kv [<- _]].
  apply plain_scalar_text.
Qed.

Lemma object_saved ms : forall x e,
  snd (ConfigGeneralSettings_object ms x (Some e)) = Some e.
Proof.
  induction ms as [|[k v] ms IH]; intros x e; [reflexivity|].
  cbn [ConfigGeneralSettings_object].
  destruct (ConfigGeneralSettings_store k v x) as [x' e']. apply IH.
Qed.

Lemma store_misfit k v x :
  misfit (k, v) = true ->
  snd (ConfigGeneralSettings_store k (json.literal_value (scalar_text v)) x) <> None.
Proof.
  unfold misfit. cbn [fst snd]. intros H. apply andb_true_iff in H as [Hk Hf].
  apply negb_true_iff in Hf.
  assert (Hv : match v with
               | SNull => False
               | SBool b => json.literal_value (scalar_text v) = json.JBool b
               | SString s => exists s', json.literal_value (scalar_text v) = json.JString s'
               | SInt z => json.literal_value (scalar_text v) = json.JNumber (strconv.FormatInt z)
               end).
  { destruct v as [|b|s|z]; cbn [scalar_text].
    - discriminate Hf.
    - destruct b; reflexivity.
    - apply literal_value_quoted.
    - apply literal_value_FormatInt. }
  unfold ConfigGeneralSettings_names in Hk. cbn [existsb] in Hk.
  repeat match type of Hk with
         | (?a || ?b)%bool = true =>
           apply orb_true_iff in Hk; destruct Hk as [Hk|Hk]
         end;
    try discriminate Hk;
    apply String.eqb_eq in Hk; subst k;
    destruct v as [|b|s|z]; try discriminate Hf; try contradiction;
    match type of Hv with
    | ex _ => destruct Hv as [s' Hv']; rewrite Hv'
    | _ => rewrite Hv
    end; discriminate.
Qed.

Lemma object_misfit ms : forall x,
  existsb misfit ms = true ->
  snd (ConfigGeneralSettings_object (map member_value (map scalar_member ms)) x None)
  <> None.
Proof.
  induction ms as [|[k v] ms IH]; intros x H; [discriminate H|].
  cbn [map scalar_member member_value fst snd ConfigGeneralSettings_object].
  pose proof (store_misfit k v x) as Hs.
  destruct (ConfigGeneralSettings_store k (json.literal_value (scalar_text v)) x)
    as [x' [e|]].
  - cbn [json.saveError]. rewrite object_saved. discriminate.
  - cbn [json.saveError]. apply IH.
    cbn [existsb] in H. apply orb_true_iff in H as [H|H]; [|exact H].
    exfalso. apply (Hs H). reflexivity.
Qed.

(** An object of scalars with a member that does not suit its field is
    refused. *)
Lemma misfit_refused ms :
  Forall scalar_ok ms -> existsb misfit ms = true ->
  C_GoString (Some (object_text ms)) = object_text ms
  /\ exists e,
       snd (Unmarshal_ConfigGeneralSettings (object_text ms) ConfigGeneralSettings_zero)
       = Some e.
Proof.
  intros Hok Hm. split.
  { apply until_nul_plain, plain_object_text. }
  assert (G : Forall good_member (map scalar_member ms)).
  { apply Forall_forall. intros m Hin. apply in_map_iff in Hin as [kv [<- Hin]].
    apply good_scalar. revert Hin. apply Forall_forall. exact Hok. }
  unfold Unmarshal_ConfigGeneralSettings, object_text.
  rewrite (checkValid_object _ G), (decode_object _ G).
  pose proof (object_misfit ms ConfigGeneralSettings_zero Hm) as N.
  destruct (snd (ConfigGeneralSettings_object _ _ _)) as [e|]; [|contradiction].
  exists e. reflexivity.
Qed.

(** ** The claim *)

Lemma refuses_patch (EngineState : Type) port patchStr :
  (exists e, snd (Unmarshal_ConfigGeneralSettings (C_GoString patchStr)
                    ConfigGeneralSettings_zero) = Some e) ->
  refuses EngineState port
    (snd (Unmarshal_ConfigGeneralSettings (C_GoString patchStr) ConfigGeneralSettings_zero))
    (patchGeneralConfig port patchStr).
Proof.
  intros [e H]. exists e. split; [exact H|]. split.
  - apply Error_nonempty. eapply Unmarshal_ConfigGeneralSettings_has_text. exact H.
  - intros w. rewrite (patchGeneralConfig_sends EngineState port patchStr w), H.
    reflexivity.
Qed.

Lemma refuses_updateRemoteConfig float64_range_error (EngineState : Type) port
  remoteName configData :
  (exists e, snd (Unmarshal_map float64_range_error (C_GoString configData) None)
             = Some e) ->
  refuses EngineState port
    (snd (Unmarshal_map float64_range_error (C_GoString configData) None))
    (updateRemoteConfig float64_range_error port remoteName configData).
Proof.
  intros [e H]. exists e. split; [exact H|]. split.
  - apply Error_nonempty. eapply Unmarshal_map_has_text. exact H.
  - intros w.
    rewrite (updateRemoteConfig_sends float64_range_error EngineState port remoteName
               configData w), H.
    reflexivity.
Qed.

Lemma refuses_updateSimpleData float64_range_error (EngineState : Type) port jsonInput :
  (exists e, snd (Unmarshal_map float64_range_error (C_GoString jsonInput) None)
             = Some e) ->
  refuses EngineState port
    (snd (Unmarshal_map float64_range_error (C_GoString jsonInput) None))
    (updateSimpleData float64_range_error port jsonInput).
Proof.
  intros [e H]. exists e. split; [exact H|]. split.
  - apply Error_nonempty. eapply Unmarshal_map_has_text. exact H.
  - intros w.
    rewrite (updateSimpleData_sends float64_range_error EngineState port jsonInput w), H.
    reflexivity.
Qed.

Lemma not_jtext_empty : ~ jtext "".
Proof. intros J. apply (jtext_first_byte "" J). reflexivity. Qed.

Lemma not_jtext_not_json : ~ jtext "not-json".
Proof.
  intros J. pose proof (jtext_null "not-json" J eq_refl) as H. discriminate H.
Qed.




(** * The dispatch functions beyond the claims *)

(** X1: for every remote name that is valid UTF-8 (NULL and empty
    included), [getRemoteConfig] answers a success envelope whose data is
    the object of [name], [type] and [url], keys in sorted order, the name
    written as a JSON string; its failure branch is not taken. *)
Theorem X1_getRemoteConfig_data (EngineState : Type) (port : Z)
  (remoteName : C_char_ptr) :
  utf8.ValidString (C_GoString remoteName) = true ->
  sends_only EngineState port
    {| Success := true; Message := "";
       Data := sq "{'name':" ++ json.appendString (C_GoString remoteName) true
                 ++ sq ",'type':'s3','url':'https://example.com'}" |}
    (getRemoteConfig port remoteName).
Proof. intros _. apply getRemoteConfig_sends. Qed.

Lemma X1_getRemoteConfig_data_witness :
  utf8.ValidString (C_GoString (Some "s3<box>")) = true
  /\ sends_only unit 2
       {| Success := true; Message := "";
          Data := sq "{'name':'s3\u003cbox\u003e','type':'s3','url':'https://example.com'}" |}
       (getRemoteConfig 2 (Some "s3<box>")).
Proof.
  split; [reflexivity|].
  apply (X1_getRemoteConfig_data unit 2 (Some "s3<box>")). reflexivity.
Defined.

(** X2: whatever bytes the remote name has, the data [getRemoteConfig]
    answers is valid UTF-8 and has no byte below 0x20 (so no NUL: it is a C
    string as it is) and none of [<], [>] and [&]. *)
Theorem X2_getRemoteConfig_data_bytes (EngineState : Type) (port : Z)
  (remoteName : C_char_ptr) :
  exists data,
    sends_only EngineState port {| Success := true; Message := ""; Data := data |}
      (getRemoteConfig port remoteName)
    /\ utf8.ValidString data = true
    /\ plain data = true
    /\ C_GoString (Some data) = data.
Proof.
  exists (remote_data (C_GoString remoteName)).
  split; [apply getRemoteConfig_sends|]. split; [|split].
  - apply wellformed_ValidString. unfold remote_data.
    apply wellformed_app; [apply wellformed_ascii; reflexivity|].
    apply wellformed_app; [apply wellformed_appendString|].
    apply wellformed_ascii. reflexivity.
  - apply plain_remote_data.
  - apply until_nul_plain, plain_remote_data.
Qed.

(** X3: decoding the data of [getRemoteConfig] as a map gives the three
    entries back, the name with each byte that is not valid UTF-8 replaced
    by U+FFFD: it is the name as it was given exactly when that is valid
    UTF-8. *)
Theorem X3_getRemoteConfig_round_trip (float64_range_error : string -> bool)
  (EngineState : Type) (port : Z) (remoteName : C_char_ptr) :
  exists data,
    sends_only EngineState port {| Success := true; Message := ""; Data := data |}
      (getRemoteConfig port remoteName)
    /\ Unmarshal_map float64_range_error data None
       = (Some [ ("name", json.JString (replace_invalid (C_GoString remoteName)));
                 ("type", json.JString "s3");
                 ("url", json.JString "https://example.com") ], None)
    /\ (replace_invalid (C_GoString remoteName) = C_GoString remoteName
        <-> utf8.ValidString (C_GoString remoteName) = true).
Proof.
  exists (remote_data (C_GoString remoteName)).
  split; [apply getRemoteConfig_sends|]. split; [|apply replace_invalid_fixed].
  rewrite Unmarshal_map_remote_data, literal_value_any. reflexivity.
Qed.

(** X4: the data [getRemoteConfig] answers, for any remote name, is
    accepted by [updateRemoteConfig]: given back as the configuration of
    any remote, it is answered by the success envelope without data. *)
Theorem X4_getRemoteConfig_then_update (float64_range_error : string -> bool)
  (EngineState : Type) (port port' : Z) (remoteName remoteName' : C_char_ptr) :
  exists data,
    sends_only EngineState port {| Success := true; Message := ""; Data := data |}
      (getRemoteConfig port remoteName)
    /\ sends_only EngineState port' {| Success := true; Message := ""; Data := "" |}
         (updateRemoteConfig float64_range_error port' remoteName' (Some data)).
Proof.
  exists (remote_data (C_GoString remoteName)).
  split; [apply getRemoteConfig_sends|].
  intros w.
  rewrite (updateRemoteConfig_sends float64_range_error EngineState port' remoteName'
             (Some (remote_data (C_GoString remoteName))) w).
  unfold C_GoString at 1. rewrite (until_nul_plain _ (plain_remote_data _)).
  rewrite Unmarshal_map_remote_data. reflexivity.
Qed.

(** X5: with a name that is not empty and is valid UTF-8, [getDataByName]
    answers a success envelope whose data is the object of [data], which
    is ["result for "] followed by the name, and [name], keys in sorted
    order. *)
Theorem X5_getDataByName_data (EngineState : Type) (port : Z) (name : C_char_ptr) :
  C_GoString name <> "" ->
  utf8.ValidString (C_GoString name) = true ->
  sends_only EngineState port
    {| Success := true; Message := "";
       Data := sq "{'data':"
                 ++ json.appendString ("result for " ++ C_GoString name) true
                 ++ sq ",'name':" ++ json.appendString (C_GoString name) true ++ "}" |}
    (getDataByName port name).
Proof.
  intros H _ w. rewrite (getDataByName_sends EngineState port name w).
  destruct (String.eqb_spec (C_GoString name) ""); [contradiction | reflexivity].
Qed.

Lemma X5_getDataByName_data_witness :
  C_GoString (Some "a&b") <> ""
  /\ utf8.ValidString (C_GoString (Some "a&b")) = true
  /\ sends_only unit 6
       {| Success := true; Message := "";
          Data := sq "{'data':'result for a\u0026b','name':'a\u0026b'}" |}
       (getDataByName 6 (Some "a&b")).
Proof.
  split; [discriminate|]. split; [reflexivity|].
  apply (X5_getDataByName_data unit 6 (Some "a&b")); [discriminate | reflexivity].
Defined.

(** X6: when the name is not empty, the data of [getDataByName] decodes,
    as a map, to its two entries, the name with each byte that is not
    valid UTF-8 replaced by U+FFFD (so the name itself when it is valid),
    and [updateSimpleData] accepts that data. *)
Theorem X6_getDataByName_round_trip (float64_range_error : string -> bool)
  (EngineState : Type) (port port' : Z) (name : C_char_ptr) :
  C_GoString name <> "" ->
  exists data,
    sends_only EngineState port {| Success := true; Message := ""; Data := data |}
      (getDataByName port name)
    /\ Unmarshal_map float64_range_error data None
       = (Some [ ("data", json.JString ("result for " ++ replace_invalid (C_GoString name)));
                 ("name", json.JString (replace_invalid (C_GoString name))) ], None)
    /\ (replace_invalid (C_GoString name) = C_GoString name
        <-> utf8.ValidString (C_GoString name) = true)
    /\ sends_only EngineState port' {| Success := true; Message := ""; Data := "" |}
         (updateSimpleData float64_range_error port' (Some data)).
Proof.
  intros Hne. exists (name_data (C_GoString name)).
  assert (E : Unmarshal_map float64_range_error (name_data (C_GoString name)) None
              = (Some [ ("data", json.JString
                                   ("result for " ++ replace_invalid (C_GoString name)));
                        ("name", json.JString (replace_invalid (C_GoString name))) ],
                 None)).
  { rewrite Unmarshal_map_name_data, !literal_value_any.
    rewrite replace_invalid_ascii_app by reflexivity. reflexivity. }
  split; [|split; [|split]].
  - intros w. rewrite (getDataByName_sends EngineState port name w).
    destruct (String.eqb_spec (C_GoString name) ""); [contradiction | reflexivity].
  - exact E.
  - apply replace_invalid_fixed.
  - intros w.
    rewrite (updateSimpleData_sends float64_range_error EngineState port'
               (Some (name_data (C_GoString name))) w).
    unfold C_GoString at 1. rewrite (until_nul_plain _ (plain_name_data _)), E.
    reflexivity.
Qed.

Lemma X6_getDataByName_round_trip_witness :
  C_GoString (Some (str1 (byte_of 0xFF))) <> ""
  /\ exists data,
       sends_only unit 6 {| Success := true; Message := ""; Data := data |}
         (getDataByName 6 (Some (str1 (byte_of 0xFF))))
       /\ Unmarshal_map (fun _ => false) data None
          = (Some [ ("data", json.JString
                               ("result for "
                                ++ replace_invalid (C_GoString (Some (str1 (byte_of 0xFF))))));
                    ("name", json.JString
                               (replace_invalid (C_GoString (Some (str1 (byte_of 0xFF)))))) ],
             None)
       /\ (replace_invalid (C_GoString (Some (str1 (byte_of 0xFF))))
           = C_GoString (Some (str1 (byte_of 0xFF)))
           <-> utf8.ValidString (C_GoString (Some (str1 (byte_of 0xFF)))) = true)
       /\ sends_only unit 7 {| Success := true; Message := ""; Data := "" |}
            (updateSimpleData (fun _ => false) 7 (Some data)).
Proof.
  split; [discriminate|].
  apply (X6_getDataByName_round_trip (fun _ => false) unit 6 7 (Some (str1 (byte_of 0xFF)))).
  discriminate.
Defined.

(** X7: the templates that check their arguments refuse exactly the empty
    ones: the envelope of [getDataByName], [processData] and [deleteItem]
    is a failure if and only if an argument is the empty string (a NULL
    pointer included). *)
Theorem X7_rejected_iff_empty (EngineState : Type) (port : Z)
  (name source destination itemID : C_char_ptr) :
  (exists r, sends_only EngineState port r (getDataByName port name)
             /\ (Success r = false <-> C_GoString name = ""))
  /\ (exists r, sends_only EngineState port r (processData port source destination)
                /\ (Success r = false
                    <-> C_GoString source = "" \/ C_GoString destination = ""))
  /\ (exists r, sends_only EngineState port r (deleteItem port itemID)
                /\ (Success r = false <-> C_GoString itemID = "")).
Proof.
  refine (conj _ (conj _ _)).
  - eexists. split; [apply getDataByName_sends|].
    destruct (String.eqb_spec (C_GoString name) ""); simpl; split; congruence.
  - eexists. split; [apply processData_sends|].
    destruct (String.eqb_spec (C_GoString source) "");
      destruct (String.eqb_spec (C_GoString destination) ""); simpl; split;
      try tauto; try congruence; intros [|]; congruence.
  - eexists. split; [apply deleteItem_sends|].
    destruct (String.eqb_spec (C_GoString itemID) ""); simpl; split; congruence.
Qed.

(** X8: a JSON argument that is empty (a NULL pointer included) or white
    space only is refused by [patchGeneralConfig], [updateRemoteConfig]
    and [updateSimpleData] with the message "unexpected end of JSON
    input". *)
Theorem X8_blank_json_rejected (float64_range_error : string -> bool)
  (EngineState : Type) (port : Z) (remoteName input : C_char_ptr) :
  all_space (C_GoString input) = true ->
  sends_only EngineState port
    {| Success := false; Message := "unexpected end of JSON input"; Data := "" |}
    (patchGeneralConfig port input)
  /\ sends_only EngineState port
       {| Success := false; Message := "unexpected end of JSON input"; Data := "" |}
       (updateRemoteConfig float64_range_error port remoteName input)
  /\ sends_only EngineState port
       {| Success := false; Message := "unexpected end of JSON input"; Data := "" |}
       (updateSimpleData float64_range_error port input).
Proof.
  intros H.
  assert (E : json.checkValid (C_GoString input)
              = Some {| json.msg := "unexpected end of JSON input";
                        json.Offset := 0 + Z.of_nat (String.length (C_GoString input)) |}).
  { apply (checkValid_loop_space _ json.new_scanner H); reflexivity. }
  refine (conj _ (conj _ _)); intros w.
  - rewrite (patchGeneralConfig_sends EngineState port input w).
    unfold Unmarshal_ConfigGeneralSettings. rewrite E. reflexivity.
  - rewrite (updateRemoteConfig_sends float64_range_error EngineState port remoteName
               input w).
    unfold Unmarshal_map. rewrite E. reflexivity.
  - rewrite (updateSimpleData_sends float64_range_error EngineState port input w).
    unfold Unmarshal_map. rewrite E. reflexivity.
Qed.

Lemma X8_blank_json_rejected_witness :
  all_space (C_GoString (Some (" " ++ str1 (byte_of 10)))) = true
  /\ sends_only unit 1
       {| Success := false; Message := "unexpected end of JSON input"; Data := "" |}
       (patchGeneralConfig 1 (Some (" " ++ str1 (byte_of 10))))
  /\ sends_only unit 1
       {| Success := false; Message := "unexpected end of JSON input"; Data := "" |}
       (updateRemoteConfig (fun _ => false) 1 None (Some (" " ++ str1 (byte_of 10))))
  /\ sends_only unit 1
       {| Success := false; Message := "unexpected end of JSON input"; Data := "" |}
       (updateSimpleData (fun _ => false) 1 (Some (" " ++ str1 (byte_of 10)))).
Proof.
  split; [reflexivity|].
  apply (X8_blank_json_rejected (fun _ => false) unit 1 None
           (Some (" " ++ str1 (byte_of 10)))).
  reflexivity.
Defined.

(** X9: [C.GoString] gives the bytes before the first NUL: the result is a
    prefix of the bytes at the pointer, has no NUL, is all of them when
    they have none, and what follows a NUL plays no role; so
    [patchGeneralConfig] answers a patch cut at a NUL as it answers the
    part before it. *)
Theorem X9_GoString_stops_at_nul (EngineState : Type) (port : Z)
  (bytes a b : string) (w : World EngineState) :
  (exists rest, bytes = C_GoString (Some bytes) ++ rest)
  /\ all_bytes (fun c => negb (byte_val c =? 0)) (C_GoString (Some bytes)) = true
  /\ (all_bytes (fun c => negb (byte_val c =? 0)) bytes = true ->
      C_GoString (Some bytes) = bytes)
  /\ C_GoString (Some (a ++ String nul b)) = C_GoString (Some a)
  /\ run (patchGeneralConfig port (Some (a ++ String nul b))) w
     = run (patchGeneralConfig port (Some a)) w.
Proof.
  refine (conj _ (conj _ (conj _ (conj _ _)))).
  - apply until_nul_prefix.
  - apply until_nul_no_nul.
  - simpl. induction bytes as [|c s IH]; simpl; [reflexivity|].
    intros E. apply andb_true_iff in E as [E1 E2].
    destruct (byte_val c =? 0); [discriminate E1 | rewrite (IH E2); reflexivity].
  - apply until_nul_app_nul.
  - rewrite (patchGeneralConfig_sends EngineState port (Some (a ++ String nul b)) w),
      (patchGeneralConfig_sends EngineState port (Some a) w).
    unfold C_GoString. rewrite until_nul_app_nul. reflexivity.
Qed.

Lemma X9_GoString_stops_at_nul_witness :
  C_GoString (Some "{}") = "{}" /\ C_GoString (Some ("{}" ++ String nul "x")) = "{}".
Proof.
  destruct (X9_GoString_stops_at_nul unit 0 "{}" "{}" "x" {| engine := tt; outbox := [] |})
    as [_ [_ [H [H' _]]]].
  split; [apply H; reflexivity | rewrite H'; apply H; reflexivity].
Defined.

(** X10: the JSON text of any general configuration, whatever bytes its
    strings have, is valid UTF-8 and has no byte below 0x20 (so no NUL: it
    is a C string as it is) and none of [<], [>] and [&]. *)
Theorem X10_Marshal_settings_bytes (x : ConfigGeneralSettings) :
  exists data,
    json.Marshal (ConfigGeneralSettings_reflect x) = inl data
    /\ utf8.ValidString data = true
    /\ plain data = true
    /\ C_GoString (Some data) = data.
Proof.
  exists (members_text (ConfigGeneralSettings_members x) "{").
  split; [apply Marshal_members|]. split; [|split].
  - apply wellformed_ValidString, wellformed_members_text.
    + apply wellformed_ascii. reflexivity.
    + apply ConfigGeneralSettings_members_wellformed.
  - apply plain_Marshal.
  - apply until_nul_plain, plain_Marshal.
Qed.

(** X11: [patchGeneralConfig] accepts the JSON text of every general
    configuration: given as the patch, the text [json.Marshal] writes for
    it is answered by the success envelope without data. *)
Theorem X11_patch_accepts_marshalled (EngineState : Type) (port : Z)
  (x : ConfigGeneralSettings) :
  ConfigGeneralSettings_ok x ->
  exists data,
    json.Marshal (ConfigGeneralSettings_reflect x) = inl data
    /\ sends_only EngineState port {| Success := true; Message := ""; Data := "" |}
         (patchGeneralConfig port (Some data)).
Proof.
  intros Hok. exists (members_text (ConfigGeneralSettings_members x) "{").
  split; [apply Marshal_members|]. intros w.
  rewrite (patchGeneralConfig_sends EngineState port
             (Some (members_text (ConfigGeneralSettings_members x) "{")) w).
  unfold C_GoString. rewrite (until_nul_plain _ (plain_Marshal x)).
  rewrite (Unmarshal_Marshal_any x Hok). reflexivity.
Qed.

Lemma X11_patch_accepts_marshalled_witness :
  ConfigGeneralSettings_ok bad_utf8_settings
  /\ exists data,
       json.Marshal (ConfigGeneralSettings_reflect bad_utf8_settings) = inl data
       /\ sends_only unit 5 {| Success := true; Message := ""; Data := "" |}
            (patchGeneralConfig 5 (Some data)).
Proof.
  assert (Hok : ConfigGeneralSettings_ok bad_utf8_settings).
  { repeat split; exact I. }
  split; [exact Hok|].
  apply (X11_patch_accepts_marshalled unit 5 bad_utf8_settings Hok).
Defined.

(** X12: [updateRemoteConfig] makes no use of the remote name: its answer
    is that of [updateSimpleData] on the same JSON argument, whatever the
    name. *)
Theorem X12_updateRemoteConfig_ignores_name (float64_range_error : string -> bool)
  (EngineState : Type) (port : Z) (remoteName configData : C_char_ptr)
  (w : World EngineState) :
  run (updateRemoteConfig float64_range_error port remoteName configData) w
  = run (updateSimpleData float64_range_error port configData) w.
Proof.
  rewrite (updateRemoteConfig_sends float64_range_error EngineState port remoteName
             configData w),
    (updateSimpleData_sends float64_range_error EngineState port configData w).
  reflexivity.
Qed.

(** X13: the getters are idempotent and calls compose in order: calling a
    getter twice with the same argument, on ports [p] and [q], adds two
    messages to the outbox, the first to [p] and the second to [q], with
    the same envelope, and changes nothing else. *)
Theorem X13_getters_idempotent (EngineState : Type) (p q : Z) (name : C_char_ptr)
  (w : World EngineState) :
  (exists r, run (bind (getGeneralConfig p) (fun _ => getGeneralConfig q)) w
             = {| engine := engine w; outbox := (outbox w ++ [(p, r); (q, r)])%list |})
  /\ (exists r, run (bind (getRemoteConfig p name) (fun _ => getRemoteConfig q name)) w
                = {| engine := engine w;
                     outbox := (outbox w ++ [(p, r); (q, r)])%list |})
  /\ (exists r, run (bind (getSimpleData p) (fun _ => getSimpleData q)) w
                = {| engine := engine w;
                     outbox := (outbox w ++ [(p, r); (q, r)])%list |})
  /\ (exists r, run (bind (getDataByName p name) (fun _ => getDataByName q name)) w
                = {| engine := engine w;
                     outbox := (outbox w ++ [(p, r); (q, r)])%list |}).
Proof.
  refine (conj _ (conj _ (conj _ _))); eexists.
  - apply sends_only_seq; apply getGeneralConfig_sends.
  - apply sends_only_seq; apply getRemoteConfig_sends.
  - apply sends_only_seq; apply getSimpleData_sends.
  - apply sends_only_seq; apply getDataByName_sends.
Qed.

(** X14: on every JSON argument that decodes without error,
    [patchGeneralConfig], [updateRemoteConfig] and [updateSimpleData]
    answer the success envelope without data and leave the engine as it
    was: nothing of the decoded request is applied. *)
Theorem X14_decoded_request_not_applied (float64_range_error : string -> bool)
  (EngineState : Type) (port : Z) (patchStr remoteName configData jsonInput : C_char_ptr) :
  (snd (Unmarshal_ConfigGeneralSettings (C_GoString patchStr) ConfigGeneralSettings_zero)
   = None ->
   sends_only EngineState port {| Success := true; Message := ""; Data := "" |}
     (patchGeneralConfig port patchStr))
  /\ (snd (Unmarshal_map float64_range_error (C_GoString configData) None) = None ->
      sends_only EngineState port {| Success := true; Message := ""; Data := "" |}
        (updateRemoteConfig float64_range_error port remoteName configData))
  /\ (snd (Unmarshal_map float64_range_error (C_GoString jsonInput) None) = None ->
      sends_only EngineState port {| Success := true; Message := ""; Data := "" |}
        (updateSimpleData float64_range_error port jsonInput)).
Proof.
  refine (conj _ (conj _ _)); intros H w.
  - rewrite (patchGeneralConfig_sends EngineState port patchStr w), H. reflexivity.
  - rewrite (updateRemoteConfig_sends float64_range_error EngineState port remoteName
               configData w), H.
    reflexivity.
  - rewrite (updateSimpleData_sends float64_range_error EngineState port jsonInput w), H.
    reflexivity.
Qed.

Lemma X14_decoded_request_not_applied_witness :
  sends_only unit 8 {| Success := true; Message := ""; Data := "" |}
    (patchGeneralConfig 8 (Some (sq "{'port': 9090, 'logLevel': 'debug'}")))
  /\ sends_only unit 8 {| Success := true; Message := ""; Data := "" |}
       (updateRemoteConfig (fun _ => false) 8 (Some "s3box") (Some (sq "{'region': 'eu'}")))
  /\ sends_only unit 8 {| Success := true; Message := ""; Data := "" |}
       (updateSimpleData (fun _ => false) 8 (Some "null")).
Proof.
  destruct (X14_decoded_request_not_applied (fun _ => false) unit 8
              (Some (sq "{'port': 9090, 'logLevel': 'debug'}")) (Some "s3box")
              (Some (sq "{'region': 'eu'}")) (Some "null")) as [H1 [H2 H3]].
  split; [apply H1; reflexivity|].
  split; [apply H2; reflexivity | apply H3; reflexivity].
Defined.



(** X16: [getSimpleData] answers, on every port, the success envelope
    whose data is the object of [count] and [key], keys in sorted order and
    not in the order written; its failure branch is never taken. *)
Theorem X16_getSimpleData_data (EngineState : Type) (port : Z) :
  sends_only EngineState port
    {| Success := true; Message := ""; Data := sq "{'count':42,'key':'value'}" |}
    (getSimpleData port).
Proof. apply getSimpleData_sends. Qed.





(** X19: decoding the JSON text of a general configuration gives it back
    with, in its strings, each byte that is not valid UTF-8 replaced by
    U+FFFD, and no error; that is the configuration itself exactly when
    its strings are valid UTF-8. *)
Theorem X19_settings_round_trip_any (x : ConfigGeneralSettings) :
  ConfigGeneralSettings_ok x ->
  exists data,
    json.Marshal (ConfigGeneralSettings_reflect x) = inl data
    /\ Unmarshal_ConfigGeneralSettings data ConfigGeneralSettings_zero
       = (ConfigGeneralSettings_replace_invalid x, None)
    /\ (ConfigGeneralSettings_replace_invalid x = x
        <-> ConfigGeneralSettings_utf8 x = true).
Proof.
  intros Hok. exists (members_text (ConfigGeneralSettings_members x) "{").
  split; [apply Marshal_members|].
  split; [apply Unmarshal_Marshal_any, Hok | apply ConfigGeneralSettings_replace_invalid_fixed].
Qed.

Lemma X19_settings_round_trip_any_witness :
  ConfigGeneralSettings_ok bad_utf8_settings
  /\ exists data,
       json.Marshal (ConfigGeneralSettings_reflect bad_utf8_settings) = inl data
       /\ Unmarshal_ConfigGeneralSettings data ConfigGeneralSettings_zero
          = (ConfigGeneralSettings_replace_invalid bad_utf8_settings, None)
       /\ (ConfigGeneralSettings_replace_invalid bad_utf8_settings = bad_utf8_settings
           <-> ConfigGeneralSettings_utf8 bad_utf8_settings = true).
Proof.
  assert (Hok : ConfigGeneralSettings_ok bad_utf8_settings).
  { repeat split; exact I. }
  split; [exact Hok|].
  apply (X19_settings_round_trip_any bad_utf8_settings Hok).
Defined.
